(** * Usage ledger, admission control and streaming coordinator of the
      AI Avatar extension: a shallow embedding and its properties.

    The development follows [background/rate-limiter.js] (class
    [RateLimiter]) and [background/service-worker.js] (class
    [AIAvatarService] and the message listener).

    Conventions of the embedding:
    - a JavaScript string is the list of its UTF-16 code units;
    - token and request counts are integers ([Z]); costs and prices are
      exact rationals ([Qc]). The source computes them in IEEE doubles;
    - a limit is a JavaScript value that is [null], [undefined] or a number;
    - an object used as a map ([models], [modelBreakdown]) is a finite map
      on strings; keys that name a property of [Object.prototype] are not
      considered;
    - the wall clock ([Date.now()], in milliseconds) is an explicit argument,
      and so is the time that each read of a stream takes;
    - [console] output is an explicit log, and the invocations of the
      callbacks of a stream are an explicit list of events;
    - an [async] method is cut at its [await]s into steps, so that several
      calls can be interleaved by a schedule. *)

From Stdlib Require Import ZArith QArith Qabs Qcanon Qround String Ascii.
From stdpp Require Import base numbers list gmap.

Local Open Scope Z_scope.

(** ** JavaScript strings *)

Module JS.

Definition JSString : Type := list N.

(** An ASCII literal as a JavaScript string. *)
Definition js (s : string) : JSString :=
  map N_of_ascii (list_ascii_of_string s).

(** The characters matched by [\s] and removed by [trim]: WhiteSpace and
    LineTerminator of ECMAScript. *)
Definition is_ws (c : N) : bool :=
  ((9 <=? c) && (c <=? 13) || (c =? 32) || (c =? 160) || (c =? 5760)
   || (8192 <=? c) && (c <=? 8202) || (c =? 8232) || (c =? 8233)
   || (c =? 8239) || (c =? 8287) || (c =? 12288) || (c =? 65279))%N.

Fixpoint drop_ws (s : JSString) : JSString :=
  match s with
  | c :: s' => if is_ws c then drop_ws s' else s
  | [] => []
  end.

(** [s.trim()] *)
Definition trim (s : JSString) : JSString :=
  rev (drop_ws (rev (drop_ws s))).

(** [s.split(sep)] for a one-character separator. *)
Fixpoint split_on (sep : N) (s : JSString) : list JSString :=
  match s with
  | [] => [[]]
  | c :: s' =>
      if (c =? sep)%N then [] :: split_on sep s'
      else match split_on sep s' with
           | p :: ps => (c :: p) :: ps
           | [] => [[c]]
           end
  end.

(** [s.split(/\s+/)]: the pieces between maximal runs of white space;
    a leading or trailing run yields an empty piece. *)
Fixpoint split_ws_from (cur : JSString) (in_ws : bool) (s : JSString)
  : list JSString :=
  match s with
  | [] => [rev cur]
  | c :: s' =>
      if is_ws c then
        if in_ws then split_ws_from cur true s'
        else rev cur :: split_ws_from [] true s'
      else split_ws_from (c :: cur) false s'
  end.

Definition split_ws (s : JSString) : list JSString :=
  split_ws_from [] false s.

(** [s.startsWith(p)] *)
Fixpoint startsWith (p s : JSString) : bool :=
  match p, s with
  | [], _ => true
  | a :: p', b :: s' => (a =? b)%N && startsWith p' s'
  | _ :: _, [] => false
  end.

(** [s.includes(p)] *)
Fixpoint includes (p s : JSString) : bool :=
  startsWith p s ||
  match s with
  | [] => false
  | _ :: s' => includes p s'
  end.

(** [s.slice(n)] and [s.slice(0, n)] for [0 <= n]. *)
Definition slice_from (n : nat) (s : JSString) : JSString := drop n s.
Definition slice_to (n : nat) (s : JSString) : JSString := take n s.

(** [s.length] *)
Definition len (s : JSString) : Z := Z.of_nat (length s).

Definition eqb (a b : JSString) : bool := bool_decide (a = b).

(** Decimal rendering of an integer, as a template literal prints it. *)
Definition digit (d : Z) : N := Z.to_N (48 + d).

Fixpoint digits_of (fuel : nat) (n : Z) (acc : JSString) : JSString :=
  match fuel with
  | O => acc
  | S fuel' =>
      if n <? 10 then digit n :: acc
      else digits_of fuel' (n / 10) (digit (n mod 10) :: acc)
  end.

Definition of_Z (n : Z) : JSString :=
  let fuel := S (Z.to_nat (Z.log2 (Z.abs n))) in
  if n <? 0 then 45%N :: digits_of fuel (- n) []
  else digits_of fuel n [].

(** Left-padded decimal rendering with at least [w] digits. *)
Definition pad (w : nat) (n : Z) : JSString :=
  let d := of_Z n in
  replicate (w - length d) 48%N ++ d.

End JS.

Export JS.

(** ** The platform

    Built-in functions of the JavaScript runtime that the program calls and
    that are not part of the repository. *)

(** A message of a conversation: [{role, content}]. *)
Record Message := mkMessage { role : JSString; content : JSString }.

(** The [usage] record of a stream frame, [{prompt_tokens,
    completion_tokens, total_tokens}]. [total_tokens] is [None] when the
    property is missing or [null]. *)
Record TokenUsage := mkTokenUsage {
  prompt_tokens : Z;
  completion_tokens : Z;
  total_tokens : option Z
}.

(** What the decode loop reads off a parsed frame:
    [parsed.choices[0]?.delta?.content], [parsed.choices[0]?.finish_reason]
    and [parsed.usage]; a field is [None] when the read yields [undefined]
    or [null]. *)
Record Frame := mkFrame {
  delta_content : option JSString;
  finish_reason : option JSString;
  frame_usage : option TokenUsage
}.

Class Platform := {
  (** [new Date(ms).toISOString()] *)
  toISOString : Z -> JSString;
  (** [JSON.parse(data)] followed by the reads above; [None] when
      [JSON.parse] or a read throws. *)
  JSON_parse : JSString -> option Frame;
  (** [JSON.stringify(messages)] *)
  JSON_stringify : list Message -> JSString;
  (** [x.toFixed(2)] *)
  toFixed2 : Qc -> JSString
}.

(** ** Rate limiter: data model *)

Module RL.

(** A limit as configured: [null], [undefined] or a number. *)
Inductive Limit (A : Type) : Type :=
| LNull
| LUndefined
| LNum (x : A).
Arguments LNull {A}.
Arguments LUndefined {A}.
Arguments LNum {A} x.

(** [this.models[model]] *)
Record ModelConfig := mkModelConfig {
  mc_prompt : Qc;
  mc_completion : Qc;
  mc_contextWindow : Z
}.

Record PeriodLimits := mkPeriodLimits {
  lim_tokens : Limit Z;
  lim_requests : Limit Z;
  lim_cost : Limit Qc
}.

Record Limits := mkLimits {
  lim_daily : PeriodLimits;
  lim_monthly : PeriodLimits;
  lim_perMinute : Limit Z
}.

(** [{prompt, completion, total}] *)
Record Tokens := mkTokens {
  tk_prompt : Z;
  tk_completion : Z;
  tk_total : Z
}.

(** A counter block: [{tokens, requests, cost}], the shape of a
    [modelBreakdown] entry and of the counters of every scope. *)
Record Counters := mkCounters {
  c_tokens : Tokens;
  c_requests : Z;
  c_cost : Qc
}.

(** A daily, monthly or lifetime scope. [sc_key] is [date], [month] or
    [startDate]. *)
Record Scope := mkScope {
  sc_key : JSString;
  sc_counters : Counters;
  sc_modelBreakdown : gmap JSString Counters
}.

Record Minutely := mkMinutely {
  mn_timestamp : Z;
  mn_requests : list Z
}.

(** [this.usage] *)
Record Usage := mkUsage {
  daily : Scope;
  monthly : Scope;
  minutely : Minutely;
  lifetime : Scope
}.

(** The fields of a [RateLimiter] object. [usage] is [None] while it is
    [null]. *)
Record RateLimiter := mkRateLimiter {
  models : gmap JSString ModelConfig;
  limits : Limits;
  usage : option Usage;
  initialized : bool
}.

Inductive LogEntry :=
| Warn (msg : JSString)
| Error (msg : JSString)
| Log (msg : JSString).

(** The limiter, the value stored under [storageKey] in
    [chrome.storage.local] ([None] when nothing is stored), and the
    console. *)
Record World := mkWorld {
  rl : RateLimiter;
  storage : option Usage;
  console : list LogEntry
}.

Inductive LimitType :=
| rate
| daily_tokens | daily_requests | daily_cost
| monthly_tokens | monthly_requests | monthly_cost
| context.

(** [retryAfter]: a number of seconds, or [Infinity]. *)
Inductive RetryAfter := Seconds (s : Z) | Forever.

(** The result of an admission check. [Pass] is the bare
    [{allowed: true}] of the three partial checks. *)
Inductive CheckResult :=
| Pass
| Allowed (estimatedTokens : Tokens) (estimatedCost : Qc)
| Denied (reason : JSString) (limitType : LimitType)
         (retryAfter : option RetryAfter).

Definition allowed (r : CheckResult) : bool :=
  match r with
  | Denied _ _ _ => false
  | _ => true
  end.

Definition limitType_of (r : CheckResult) : option LimitType :=
  match r with
  | Denied _ k _ => Some k
  | _ => None
  end.

(** The default pricing table and limits of the constructor. *)
Definition Qc_of (n : Z) (d : positive) : Qc := Q2Qc (n # d).

Definition default_models : gmap JSString ModelConfig :=
  <[js "gpt-4" := mkModelConfig (Qc_of 3 100) (Qc_of 6 100) 8192]>
  (<[js "gpt-4-turbo" := mkModelConfig (Qc_of 1 100) (Qc_of 3 100) 128000]>
  (<[js "gpt-3.5-turbo" := mkModelConfig (Qc_of 5 10000) (Qc_of 15 10000) 16385]>
  (<[js "claude-3-opus" := mkModelConfig (Qc_of 15 1000) (Qc_of 75 1000) 200000]>
  (<[js "claude-3-sonnet" := mkModelConfig (Qc_of 3 1000) (Qc_of 15 1000) 200000]>
  (<[js "claude-3-haiku" := mkModelConfig (Qc_of 25 100000) (Qc_of 125 100000) 200000]>
   ∅))))).

Definition default_limits : Limits :=
  mkLimits
    (mkPeriodLimits (LNum 100000) (LNum 1000) (LNum (Qc_of 10 1)))
    (mkPeriodLimits (LNum 2000000) (LNum 20000) (LNum (Qc_of 200 1)))
    (LNum 20).

(** [new RateLimiter(config)] *)
Definition constructor (config_models : option (gmap JSString ModelConfig))
    (config_limits : option Limits) : RateLimiter :=
  mkRateLimiter (default default_models config_models)
                (default default_limits config_limits)
                None false.

End RL.

Export RL.

(** ** Rate limiter: operations *)

Section RateLimiterOps.

Context `{Platform}.

Definition Z2Qc (n : Z) : Qc := Q2Qc (inject_Z n).

(** [getDateString(date)]: [date.toISOString().split('T')[0]] *)
Definition getDateString (now : Z) : JSString :=
  hd [] (split_on 84%N (toISOString now)).

(** [getMonthString(date)]: [date.toISOString().slice(0, 7)] *)
Definition getMonthString (now : Z) : JSString :=
  slice_to 7 (toISOString now).

Definition zero_tokens : Tokens := mkTokens 0 0 0.
Definition zero_counters : Counters := mkCounters zero_tokens 0 0%Qc.

(** The fresh scope object that [createEmptyUsage], [resetUsage] and
    [checkAndResetPeriods] all build. *)
Definition empty_scope (key : JSString) : Scope :=
  mkScope key zero_counters ∅.

(** [createEmptyUsage()] *)
Definition createEmptyUsage (now : Z) : Usage :=
  mkUsage (empty_scope (getDateString now))
          (empty_scope (getMonthString now))
          (mkMinutely now [])
          (empty_scope (toISOString now)).

(** [countTokens(text)]. The source evaluates the expression in doubles.
    For word and character counts of any realistic size this yields the
    same integer: where the exact value is an integer the doubles are
    exact, and elsewhere the exact value is at least 1/40 away from the
    next integer, far more than the rounding errors. *)
Definition countTokens (text : JSString) : Z :=
  if bool_decide (text = []) then 0
  else
    let words := Z.of_nat (length (split_ws text)) in
    let chars := len text in
    let wordBasedEstimate := (inject_Z words * (13 # 10))%Q in
    let charBasedEstimate := (inject_Z chars / inject_Z 4)%Q in
    Qceiling ((wordBasedEstimate + charBasedEstimate) / inject_Z 2)%Q.

(** [calculateCost(model, promptTokens, completionTokens)]: the cost and
    what it writes to the console. *)
Definition calculateCost (ms : gmap JSString ModelConfig)
    (model : JSString) (promptTokens completionTokens : Z)
  : Qc * list LogEntry :=
  match ms !! model with
  | None =>
      (0%Qc,
       [Warn (js "Unknown model: " ++ model ++ js ". Using default pricing.")])
  | Some modelConfig =>
      let promptCost :=
        (Z2Qc promptTokens / Z2Qc 1000 * mc_prompt modelConfig)%Qc in
      let completionCost :=
        (Z2Qc completionTokens / Z2Qc 1000 * mc_completion modelConfig)%Qc in
      ((promptCost + completionCost)%Qc, [])
  end.

(** Truthiness of a limit, as in [limits.tokens && ...]: [null],
    [undefined] and [0] are falsy. *)
Definition truthyZ (l : Limit Z) : option Z :=
  match l with
  | LNum n => if bool_decide (n = 0) then None else Some n
  | _ => None
  end.

Definition truthyQc (l : Limit Qc) : option Qc :=
  match l with
  | LNum q => if bool_decide (q = 0%Qc) then None else Some q
  | _ => None
  end.

(** How a template literal prints a limit. *)
Definition show_limit (l : Limit Z) : JSString :=
  match l with
  | LNull => js "null"
  | LUndefined => js "undefined"
  | LNum n => of_Z n
  end.

(** [Math.min(...requests)] of a non-empty list. *)
Definition list_min (x : Z) (l : list Z) : Z := foldr Z.min x l.

(** [checkMinuteLimit()]. The comparison [currentRequests >= limit]
    converts [null] to [0] and [undefined] to [NaN]. *)
Definition checkMinuteLimit (now : Z) (lims : Limits) (u : Usage)
  : CheckResult :=
  let currentRequests := Z.of_nat (length (mn_requests (minutely u))) in
  let over :=
    match lim_perMinute lims with
    | LNull => bool_decide (0 <= currentRequests)
    | LUndefined => false
    | LNum n => bool_decide (n <= currentRequests)
    end in
  if over then
    Denied (js "Rate limit exceeded: " ++ of_Z currentRequests ++ js "/"
              ++ show_limit (lim_perMinute lims) ++ js " requests per minute")
           rate
           (Some match mn_requests (minutely u) with
                 | [] => Forever
                 | t :: ts => Seconds (60 - (now - list_min t ts) / 1000)
                 end)
  else Pass.

(** [limit && value > limit] *)
Definition overZ (l : Limit Z) (value : Z) : bool :=
  match truthyZ l with
  | Some n => bool_decide (n < value)
  | None => false
  end.

Definition overQc (l : Limit Qc) (value : Qc) : bool :=
  match truthyQc l with
  | Some q => bool_decide (q < value)%Qc
  | None => false
  end.

Definition show_cost_limit (l : Limit Qc) : JSString :=
  match l with
  | LNum q => toFixed2 q
  | _ => []
  end.

(** The common body of [checkDailyLimits] and [checkMonthlyLimits];
    [Name] is ["Daily"] or ["Monthly"]. *)
Definition checkPeriodLimits (Name : JSString)
    (k_tokens k_requests k_cost : LimitType)
    (scope : Scope) (lims : PeriodLimits) (tokens : Z) (cost : Qc)
  : CheckResult :=
  let cs := sc_counters scope in
  if overZ (lim_tokens lims) (tk_total (c_tokens cs) + tokens) then
    Denied (Name ++ js " token limit exceeded: "
              ++ of_Z (tk_total (c_tokens cs) + tokens)
              ++ js "/" ++ show_limit (lim_tokens lims))
           k_tokens None
  else if overZ (lim_requests lims) (c_requests cs + 1) then
    Denied (Name ++ js " request limit exceeded: "
              ++ of_Z (c_requests cs + 1)
              ++ js "/" ++ show_limit (lim_requests lims))
           k_requests None
  else if overQc (lim_cost lims) (c_cost cs + cost)%Qc then
    Denied (Name ++ js " cost limit exceeded: $"
              ++ toFixed2 (c_cost cs + cost)%Qc
              ++ js "/$" ++ show_cost_limit (lim_cost lims))
           k_cost None
  else Pass.

(** [checkDailyLimits(tokens, cost)] *)
Definition checkDailyLimits (lims : Limits) (u : Usage)
    (tokens : Z) (cost : Qc) : CheckResult :=
  checkPeriodLimits (js "Daily") daily_tokens daily_requests daily_cost
                    (daily u) (lim_daily lims) tokens cost.

(** [checkMonthlyLimits(tokens, cost)] *)
Definition checkMonthlyLimits (lims : Limits) (u : Usage)
    (tokens : Z) (cost : Qc) : CheckResult :=
  checkPeriodLimits (js "Monthly") monthly_tokens monthly_requests
                    monthly_cost (monthly u) (lim_monthly lims) tokens cost.

(** The argument of [checkRequest]; [estimatedCompletion] defaults to
    [500] when absent. *)
Record RequestInfo := mkRequestInfo {
  ri_model : JSString;
  ri_prompt : JSString;
  ri_estimatedCompletion : option Z
}.

(** The argument of [recordUsage]. *)
Record UsageInfo := mkUsageInfo {
  ui_model : JSString;
  ui_promptTokens : Z;
  ui_completionTokens : Z
}.

(** [checkRequest(requestInfo)] after its [await this.initialize()]. *)
Definition checkRequest_body (now : Z) (r : RateLimiter) (u : Usage)
    (requestInfo : RequestInfo) : CheckResult * list LogEntry :=
  let model := ri_model requestInfo in
  let estimatedCompletion := default 500 (ri_estimatedCompletion requestInfo) in
  let promptTokens := countTokens (ri_prompt requestInfo) in
  let totalTokens := promptTokens + estimatedCompletion in
  let '(estimatedCost, out) :=
    calculateCost (models r) model promptTokens estimatedCompletion in
  let minuteCheck := checkMinuteLimit now (limits r) u in
  if negb (allowed minuteCheck) then (minuteCheck, out)
  else
    let dailyCheck := checkDailyLimits (limits r) u totalTokens estimatedCost in
    if negb (allowed dailyCheck) then (dailyCheck, out)
    else
      let monthlyCheck :=
        checkMonthlyLimits (limits r) u totalTokens estimatedCost in
      if negb (allowed monthlyCheck) then (monthlyCheck, out)
      else
        match models r !! model with
        | Some modelConfig =>
            if bool_decide (mc_contextWindow modelConfig < promptTokens) then
              (Denied (js "Prompt exceeds model context window ("
                         ++ of_Z promptTokens ++ js " > "
                         ++ of_Z (mc_contextWindow modelConfig) ++ js ")")
                      context None, out)
            else
              (Allowed (mkTokens promptTokens estimatedCompletion totalTokens)
                       estimatedCost, out)
        | None =>
            (Allowed (mkTokens promptTokens estimatedCompletion totalTokens)
                     estimatedCost, out)
        end.

(** The five [+=] on a counter block. *)
Definition add_counters (promptTokens completionTokens totalTokens : Z)
    (cost : Qc) (cs : Counters) : Counters :=
  mkCounters
    (mkTokens (tk_prompt (c_tokens cs) + promptTokens)
              (tk_completion (c_tokens cs) + completionTokens)
              (tk_total (c_tokens cs) + totalTokens))
    (c_requests cs + 1)
    (c_cost cs + cost)%Qc.

(** The update of one scope and of its [modelBreakdown[model]], which is
    created zeroed when missing. *)
Definition add_to_scope (model : JSString)
    (promptTokens completionTokens totalTokens : Z) (cost : Qc)
    (s : Scope) : Scope :=
  let entry := default zero_counters (sc_modelBreakdown s !! model) in
  mkScope (sc_key s)
          (add_counters promptTokens completionTokens totalTokens cost
                        (sc_counters s))
          (<[model :=
               add_counters promptTokens completionTokens totalTokens cost
                            entry]> (sc_modelBreakdown s)).

(** [recordUsage(usageInfo)] between its two [await]s. *)
Definition recordUsage_body (now : Z) (ms : gmap JSString ModelConfig)
    (usageInfo : UsageInfo) (u : Usage) : Usage * list LogEntry :=
  let model := ui_model usageInfo in
  let promptTokens := ui_promptTokens usageInfo in
  let completionTokens := ui_completionTokens usageInfo in
  let totalTokens := promptTokens + completionTokens in
  let '(cost, out) := calculateCost ms model promptTokens completionTokens in
  let add := add_to_scope model promptTokens completionTokens totalTokens cost in
  let oneMinuteAgo := now - 60000 in
  (mkUsage (add (daily u))
           (add (monthly u))
           (mkMinutely (mn_timestamp (minutely u))
              (filter (λ timestamp, oneMinuteAgo < timestamp)
                      (mn_requests (minutely u) ++ [now])))
           (add (lifetime u)),
   out).

(** [checkAndResetPeriods()] up to its [await]: the ledger and
    [needsSave]. *)
Definition checkAndResetPeriods_body (now : Z) (u : Usage) : Usage * bool :=
  let currentDate := getDateString now in
  let currentMonth := getMonthString now in
  let '(u1, needsSave1) :=
    if bool_decide (sc_key (daily u) ≠ currentDate) then
      (mkUsage (empty_scope currentDate) (monthly u) (minutely u) (lifetime u),
       true)
    else (u, false) in
  if bool_decide (sc_key (monthly u1) ≠ currentMonth) then
    (mkUsage (daily u1) (empty_scope currentMonth) (minutely u1) (lifetime u1),
     true)
  else (u1, needsSave1).

Inductive Period := P_daily | P_monthly | P_other.

(** [resetUsage(period)] between its two [await]s. *)
Definition resetUsage_body (now : Z) (period : Period) (u : Usage) : Usage :=
  match period with
  | P_daily =>
      mkUsage (empty_scope (getDateString now)) (monthly u) (minutely u)
              (lifetime u)
  | P_monthly =>
      mkUsage (daily u) (empty_scope (getMonthString now)) (minutely u)
              (lifetime u)
  | P_other => u
  end.

(** *** Asynchronous methods, cut at their [await]s

    A step runs one call from a suspension point to the next. [now] is
    the clock during the step; [ok] tells whether the storage operation
    that the step starts (if any) will succeed. [chrome.storage.local]
    serves operations in the order they are started, so the effect of an
    operation is taken at the moment it is started and its outcome is
    kept in the program point until the call is resumed. *)

Definition set_usage (u : option Usage) (w : World) : World :=
  mkWorld (mkRateLimiter (models (rl w)) (limits (rl w)) u
                         (initialized (rl w)))
          (storage w) (console w).

Definition set_initialized (w : World) : World :=
  mkWorld (mkRateLimiter (models (rl w)) (limits (rl w)) (usage (rl w)) true)
          (storage w) (console w).

Definition print (out : list LogEntry) (w : World) : World :=
  mkWorld (rl w) (storage w) (console w ++ out).

(** [saveUsage()]: starts [chrome.storage.local.set({[storageKey]:
    {usage: this.usage}})]. *)
Definition saveUsage (ok : bool) (w : World) : World :=
  if ok then mkWorld (rl w) (usage (rl w)) (console w) else w.

(** Program points of [initialize()]. *)
Inductive InitPc :=
| InitGet (result : option (option Usage))
    (** awaiting [getFromStorage]; [None] when it is rejected *)
| InitReset (saved : bool)
    (** awaiting [checkAndResetPeriods()]; [false] when its save is
        rejected *)
| InitSaveEmpty (saved : bool)
    (** awaiting [saveUsage()] of the empty ledger *).

(** The [catch] block of [initialize()]. *)
Definition initialize_catch (now : Z) (w : World) : World :=
  set_initialized
    (set_usage (Some (createEmptyUsage now))
               (print [Error (js "Failed to initialize rate limiter:")] w)).

(** [initialize()] from the call to its first [await]; [None] when it
    returns at once. *)
Definition initialize_call (ok : bool) (w : World) : option InitPc :=
  if initialized (rl w) then None
  else Some (InitGet (if ok then Some (storage w) else None)).

(** [initialize()] from one [await] to the next; [None] when done. *)
Definition initialize_resume (now : Z) (ok : bool) (pc : InitPc) (w : World)
  : option InitPc * World :=
  match pc with
  | InitGet None => (None, initialize_catch now w)
  | InitGet (Some (Some stored)) =>
      let '(u, needsSave) := checkAndResetPeriods_body now stored in
      let w1 := set_usage (Some u) w in
      if needsSave then (Some (InitReset ok), saveUsage ok w1)
      else (Some (InitReset true), w1)
  | InitGet (Some None) =>
      let w1 := set_usage (Some (createEmptyUsage now)) w in
      (Some (InitSaveEmpty ok), saveUsage ok w1)
  | InitReset true | InitSaveEmpty true => (None, set_initialized w)
  | InitReset false | InitSaveEmpty false => (None, initialize_catch now w)
  end.

(** Program points of [recordUsage(usageInfo)]. *)
Inductive RUPc :=
| RU_Call                      (** not called yet *)
| RU_Init (pc : InitPc)        (** inside [await this.initialize()] *)
| RU_Body                      (** [initialize()] has returned *)
| RU_Save (saved : bool)       (** awaiting [saveUsage()] *)
| RU_Done (fulfilled : bool).  (** settled *)

Definition after_init (o : option InitPc) : RUPc :=
  match o with
  | Some pc => RU_Init pc
  | None => RU_Body
  end.

Definition recordUsage_step (now : Z) (ok : bool) (usageInfo : UsageInfo)
    (pc : RUPc) (w : World) : RUPc * World :=
  match pc with
  | RU_Call => (after_init (initialize_call ok w), w)
  | RU_Init ipc =>
      let '(o, w1) := initialize_resume now ok ipc w in (after_init o, w1)
  | RU_Body =>
      match usage (rl w) with
      | Some u =>
          let '(u1, out) := recordUsage_body now (models (rl w)) usageInfo u in
          (RU_Save ok, saveUsage ok (set_usage (Some u1) (print out w)))
      | None => (RU_Done false, w)
      end
  | RU_Save saved => (RU_Done saved, w)
  | RU_Done b => (RU_Done b, w)
  end.

(** Program points of [checkRequest(requestInfo)]. *)
Inductive CRPc :=
| CR_Call
| CR_Init (pc : InitPc)
| CR_Body
| CR_Done (result : option CheckResult).

Definition after_init_cr (o : option InitPc) : CRPc :=
  match o with
  | Some pc => CR_Init pc
  | None => CR_Body
  end.

Definition checkRequest_step (now : Z) (ok : bool)
    (requestInfo : RequestInfo) (pc : CRPc) (w : World) : CRPc * World :=
  match pc with
  | CR_Call => (after_init_cr (initialize_call ok w), w)
  | CR_Init ipc =>
      let '(o, w1) := initialize_resume now ok ipc w in (after_init_cr o, w1)
  | CR_Body =>
      match usage (rl w) with
      | Some u =>
          let '(res, out) := checkRequest_body now (rl w) u requestInfo in
          (CR_Done (Some res), print out w)
      | None => (CR_Done None, w)
      end
  | CR_Done r => (CR_Done r, w)
  end.

(** Program points of [resetUsage(period)]. *)
Inductive RSPc :=
| RS_Call
| RS_Init (pc : InitPc)
| RS_Body
| RS_Save (saved : bool)
| RS_Done (fulfilled : bool).

Definition after_init_rs (o : option InitPc) : RSPc :=
  match o with
  | Some pc => RS_Init pc
  | None => RS_Body
  end.

Definition resetUsage_step (now : Z) (ok : bool) (period : Period)
    (pc : RSPc) (w : World) : RSPc * World :=
  match pc with
  | RS_Call => (after_init_rs (initialize_call ok w), w)
  | RS_Init ipc =>
      let '(o, w1) := initialize_resume now ok ipc w in (after_init_rs o, w1)
  | RS_Body =>
      match usage (rl w) with
      | Some u =>
          (RS_Save ok,
           saveUsage ok (set_usage (Some (resetUsage_body now period u)) w))
      | None => (RS_Done false, w)
      end
  | RS_Save saved => (RS_Done saved, w)
  | RS_Done b => (RS_Done b, w)
  end.

(** A call that runs alone, with the clock at [now] throughout: every
    step is taken in turn until the call has settled (five steps
    suffice). *)
Definition run_alone {Pc : Type} (step : Pc -> World -> Pc * World)
    (pc : Pc) (w : World) : Pc * World :=
  Nat.iter 5 (λ s, step (fst s) (snd s)) (pc, w).

Definition recordUsage (now : Z) (ok : bool) (usageInfo : UsageInfo)
    (w : World) : RUPc * World :=
  run_alone (recordUsage_step now ok usageInfo) RU_Call w.

Definition checkRequest (now : Z) (ok : bool) (requestInfo : RequestInfo)
    (w : World) : CRPc * World :=
  run_alone (checkRequest_step now ok requestInfo) CR_Call w.

Definition resetUsage (now : Z) (ok : bool) (period : Period)
    (w : World) : RSPc * World :=
  run_alone (resetUsage_step now ok period) RS_Call w.

(** The result that a settled [checkRequest] resolved to. *)
Definition check_result (pc : CRPc) : option CheckResult :=
  match pc with
  | CR_Done r => r
  | _ => None
  end.

(** *** Interleaved calls of [recordUsage] *)

Record Sys := mkSys {
  world : World;
  calls : list (UsageInfo * RUPc)
}.

(** One entry of a schedule: which call takes its next step, the clock,
    and the fate of the storage operation the step starts. *)
Record Turn := mkTurn { turn_call : nat; turn_now : Z; turn_ok : bool }.

Definition sys_step (s : Sys) (t : Turn) : Sys :=
  match calls s !! turn_call t with
  | Some (usageInfo, pc) =>
      let '(pc1, w1) :=
        recordUsage_step (turn_now t) (turn_ok t) usageInfo pc (world s) in
      mkSys w1 (<[turn_call t := (usageInfo, pc1)]> (calls s))
  | None => s
  end.

Definition sys_run (schedule : list Turn) (s : Sys) : Sys :=
  foldl sys_step s schedule.

Definition settled (pc : RUPc) : bool :=
  match pc with
  | RU_Done _ => true
  | _ => false
  end.

Definition all_settled (s : Sys) : bool :=
  forallb (λ c, settled (snd c)) (calls s).

End RateLimiterOps.

(** ** Streaming coordinator: data model *)

Module Stream.

(** A JavaScript error object: [name] and [message]. *)
Record JSError := mkJSError { err_name : JSString; err_message : JSString }.

(** [new Error(message)] *)
Definition new_Error (message : JSString) : JSError :=
  mkJSError (js "Error") message.

(** How one [reader.read()] settles. *)
Inductive ReadResult :=
| ReadValue (text : JSString)   (** [{done: false, value}], decoded *)
| ReadDone                      (** [{done: true}] *)
| ReadRejected (e : JSError).   (** the read is rejected, as it is with an
                                    [AbortError] when the controller is
                                    aborted *)

(** One turn of the read loop as the environment determines it.
    [busy] is the time in milliseconds between the last assignment of
    [lastChunkTime] and the test at the head of the loop; [wait] is the
    time until the read settles, [None] when it never does. *)
Record Read := mkRead {
  busy : Z;
  wait : option Z;
  result : ReadResult
}.

(** How the [fetch] settles. For a response that is not [ok],
    [error_body] is what [(await response.json()).error?.message] reads:
    [None] when the body cannot be read, [Some None] when the message is
    missing or falsy. *)
Inductive FetchOutcome :=
| FetchRejected (e : JSError)
| FetchPending
| FetchResponse (status : Z) (error_body : option (option JSString))
                (reads : list Read).

(** The callbacks and the controller that a caller passes, each of which
    may be missing. *)
Record StreamOptions := mkStreamOptions {
  has_onChunk : bool;
  has_onError : bool;
  has_onComplete : bool;
  has_abortController : bool
}.

(** Invocations of the callbacks, in the order they are made. *)
Inductive Event :=
| OnChunk (chunk_content accumulated : JSString)
| OnError (error : JSError)
| OnComplete (response : JSString) (usage : TokenUsage).

Inductive Outcome :=
| Returned (result_content : JSString) (result_usage : TokenUsage)
| Threw (e : JSError)
| Pending.   (** the call never settles *)

(** What [callOpenAIStream] did: callbacks invoked, console output,
    outcome. *)
Record Run := mkRun {
  events : list Event;
  output : list LogEntry;
  outcome : Outcome
}.

(** Local variables of the read loop. *)
Record Decoder := mkDecoder {
  accumulatedContent : JSString;
  tokenUsage : TokenUsage;
  buffer : JSString;
  emitted : list Event;
  printed : list LogEntry
}.

Record PageContent := mkPageContent {
  pc_title : JSString;
  pc_url : JSString;
  pc_contentType : JSString;
  pc_wordCount : Z;
  pc_content : JSString
}.

Record Conversation := mkConversation {
  messages : list Message;
  pageContent : option PageContent;
  startTime : Z
}.

(** The fields of the [AIAvatarService] object. *)
Record Service := mkService {
  conversations : gmap Z Conversation;
  apiKey : option JSString;
  rateLimiter : World;
  activeStreams : gset JSString
}.

(** What [generateResponseStream] resolves to. *)
Inductive GenResult :=
| GenRejected (e : JSError)
    (** the promise is rejected *)
| GenRateLimited (error : JSString) (limitType : LimitType)
                 (retryAfter : option RetryAfter)
| GenStreaming
    (** [{success: true, streaming: true}] *)
| GenFailed (error : JSString)
    (** [{success: false, error}] *)
| GenPending.

(** Messages that the listener sends to the popup: the three stream
    actions, and the response to the request ([{success: true, streaming:
    true, streamId}] once the stream has been started, the result of
    [generateResponseStream] otherwise). *)
Inductive Sent :=
| StreamChunk (streamId : JSString) (tabId : Z)
              (chunk_content accumulated : JSString)
| StreamError (streamId : JSString) (tabId : Z) (error : JSString)
| StreamComplete (streamId : JSString) (tabId : Z) (response : JSString)
                 (conversationLength : Z) (tokenUsage : TokenUsage)
| ResponseStreaming (streamId : JSString)
| Response (r : GenResult).

End Stream.

Export Stream.

(** ** Streaming coordinator: operations *)

Section StreamingOps.

Context `{Platform}.

(** [const timeout = 30000] *)
Definition timeout : Z := 30000.

Definition decoder_init : Decoder :=
  mkDecoder [] (mkTokenUsage 0 0 (Some 0)) [] [] [].

(** [if (callback) callback(...)] *)
Definition emit (present : bool) (e : Event) (d : Decoder) : Decoder :=
  if present then
    mkDecoder (accumulatedContent d) (tokenUsage d) (buffer d)
              (emitted d ++ [e]) (printed d)
  else d.

Definition say (l : LogEntry) (d : Decoder) : Decoder :=
  mkDecoder (accumulatedContent d) (tokenUsage d) (buffer d)
            (emitted d) (printed d ++ [l]).

Definition set_accumulated (s : JSString) (d : Decoder) : Decoder :=
  mkDecoder s (tokenUsage d) (buffer d) (emitted d) (printed d).

Definition set_tokenUsage (u : TokenUsage) (d : Decoder) : Decoder :=
  mkDecoder (accumulatedContent d) u (buffer d) (emitted d) (printed d).

Definition set_buffer (b : JSString) (d : Decoder) : Decoder :=
  mkDecoder (accumulatedContent d) (tokenUsage d) b (emitted d) (printed d).

(** The three [if]s on a parsed frame: content, finish reason, usage. *)
Definition handle_frame (opts : StreamOptions) (parsed : Frame)
    (d : Decoder) : Decoder :=
  let d1 :=
    match delta_content parsed with
    | Some chunk =>
        if bool_decide (chunk = []) then d
        else
          let acc := accumulatedContent d ++ chunk in
          emit (has_onChunk opts) (OnChunk chunk acc) (set_accumulated acc d)
    | None => d
    end in
  let d2 :=
    match finish_reason parsed with
    | Some finishReason =>
        if bool_decide (finishReason = js "length") then
          say (Warn (js "Response truncated due to max_tokens limit")) d1
        else d1
    | None => d1
    end in
  match frame_usage parsed with
  | Some u => set_tokenUsage u d2
  | None => d2
  end.

(** The body of [for (const line of lines)]. *)
Definition process_line (opts : StreamOptions) (d : Decoder)
    (line : JSString) : Decoder :=
  if bool_decide (trim line = []) then d
  else if startsWith (js ":") line then d
  else if startsWith (js "data: ") line then
    let data := trim (slice_from 6 line) in
    if bool_decide (data = js "[DONE]") then d
    else
      match JSON_parse data with
      | Some parsed => handle_frame opts parsed d
      | None => say (Error (js "Error parsing SSE data:")) d
      end
  else d.

(** What the loop does with the text of one read: split the buffer into
    lines, keep the last, incomplete one, process the others. *)
Definition process_chunk (opts : StreamOptions) (d : Decoder)
    (text : JSString) : Decoder :=
  let lines := split_on 10%N (buffer d ++ text) in
  foldl (process_line opts) (set_buffer (List.last lines []) d)
        (removelast lines).

Inductive LoopExit :=
| ExitDone
| ExitThrow (e : JSError)
| ExitPending.

(** How the awaited read settles. With an [abortController] the read is
    raced against a timer of [timeout] milliseconds, which wins when the
    read takes longer than that; without one the read is awaited as it
    is. [None]: the [await] never returns. *)
Definition await_read (opts : StreamOptions) (r : Read) : option ReadResult :=
  if has_abortController opts then
    match wait r with
    | Some t =>
        if bool_decide (timeout < t) then
          Some (ReadRejected (new_Error (js "Read timeout")))
        else Some (result r)
    | None => Some (ReadRejected (new_Error (js "Read timeout")))
    end
  else
    match wait r with
    | Some _ => Some (result r)
    | None => None
    end.

(** The read that is awaited once the environment has said nothing more:
    it never settles. *)
Definition silent_read : Read := mkRead 0 None ReadDone.

(** One turn of [while (true)] up to the processing of the text. *)
Definition loop_turn (opts : StreamOptions) (r : Read)
  : LoopExit + JSString :=
  if bool_decide (timeout < busy r) then
    inl (ExitThrow
           (new_Error (js "Stream timeout - no data received for 30 seconds")))
  else
    match await_read opts r with
    | None => inl ExitPending
    | Some (ReadRejected e) => inl (ExitThrow e)
    | Some ReadDone => inl ExitDone
    | Some (ReadValue text) => inr text
    end.

(** [while (true) { ... }] *)
Fixpoint read_loop (opts : StreamOptions) (reads : list Read) (d : Decoder)
  : Decoder * LoopExit :=
  match reads with
  | [] =>
      match loop_turn opts silent_read with
      | inl e => (d, e)
      | inr _ => (d, ExitPending)
      end
  | r :: rest =>
      match loop_turn opts r with
      | inl e => (d, e)
      | inr text => read_loop opts rest (process_chunk opts d text)
      end
  end.

(** "Process any remaining buffer": only a usage record is looked for. *)
Definition process_remaining (d : Decoder) : Decoder :=
  if negb (bool_decide (trim (buffer d) = []))
     && startsWith (js "data: ") (buffer d) then
    let data := trim (slice_from 6 (buffer d)) in
    if bool_decide (data = js "[DONE]") then d
    else
      match JSON_parse data with
      | Some parsed =>
          match frame_usage parsed with
          | Some u => set_tokenUsage u d
          | None => d
          end
      | None => say (Error (js "Error parsing final SSE data:")) d
      end
  else d.

(** "Estimate token usage if not provided by the API" *)
Definition estimate_usage (msgs : list Message) (accumulated : JSString)
    (u : TokenUsage) : TokenUsage :=
  match total_tokens u with
  | Some t =>
      if bool_decide (t = 0) then
        let p := countTokens (JSON_stringify msgs) in
        let c := countTokens accumulated in
        mkTokenUsage p c (Some (p + c))
      else u
  | None =>
      let p := countTokens (JSON_stringify msgs) in
      let c := countTokens accumulated in
      mkTokenUsage p c (Some (p + c))
  end.

(** The code after the loop, up to [return]. *)
Definition complete (msgs : list Message) (opts : StreamOptions)
    (d : Decoder) : Run :=
  let d1 := process_remaining d in
  let u := estimate_usage msgs (accumulatedContent d1) (tokenUsage d1) in
  let d2 :=
    emit (has_onComplete opts) (OnComplete (accumulatedContent d1) u) d1 in
  mkRun (emitted d2) (printed d2) (Returned (accumulatedContent d1) u).

(** The [catch] block of [callOpenAIStream]. *)
Definition friendly (error : JSError) : JSError :=
  if includes (js "Failed to fetch") (err_message error) then
    new_Error
      (js "Network error. Please check your connection and try again.")
  else if includes (js "timeout") (err_message error) then
    new_Error (js "Request timed out. Please try again.")
  else error.

Definition catch_error (opts : StreamOptions) (error : JSError)
    (d : Decoder) : Run :=
  let d1 :=
    if bool_decide (err_name error = js "AbortError") then
      emit (has_onError opts)
           (OnError (new_Error (js "Stream aborted by user")))
           (say (Log (js "Stream aborted by user")) d)
    else
      emit (has_onError opts) (OnError (friendly error))
           (say (Error (js "Stream error:")) d) in
  mkRun (emitted d1) (printed d1) (Threw error).

(** The message of the error thrown for a response that is not [ok]. *)
Definition http_error_message (status : Z)
    (error_body : option (option JSString)) : JSString :=
  match error_body with
  | Some message =>
      if bool_decide (status = 429) then
        js "Rate limit exceeded. Please try again later."
      else if bool_decide (status = 401) then
        js "Invalid API key. Please check your settings."
      else if bool_decide (status = 500 ∨ status = 502 ∨ status = 503) then
        js "OpenAI service is temporarily unavailable. Please try again."
      else
        match message with
        | Some m => if bool_decide (m = []) then js "API request failed" else m
        | None => js "API request failed"
        end
  | None => js "API request failed with status " ++ of_Z status
  end.

(** [response.ok] *)
Definition response_ok (status : Z) : bool :=
  bool_decide (200 <= status <= 299).

(** [callOpenAIStream(messages, options)] *)
Definition callOpenAIStream (msgs : list Message) (opts : StreamOptions)
    (net : FetchOutcome) : Run :=
  match net with
  | FetchRejected e => catch_error opts e decoder_init
  | FetchPending => mkRun [] [] Pending
  | FetchResponse status error_body reads =>
      if response_ok status then
        match read_loop opts reads decoder_init with
        | (d, ExitDone) => complete msgs opts d
        | (d, ExitThrow e) => catch_error opts e d
        | (d, ExitPending) => mkRun (emitted d) (printed d) Pending
        end
      else
        catch_error opts (new_Error (http_error_message status error_body))
                    decoder_init
  end.

(** [createSystemMessage(pageContent)] *)
Definition createSystemMessage (p : PageContent) : Message :=
  mkMessage (js "system")
    (js "You are an intelligent AI avatar assistant that helps users understand and analyze webpage content. You have access to the following webpage content:

**Page Title:** " ++ pc_title p ++ js "
**URL:** " ++ pc_url p ++ js "
**Content Type:** " ++ pc_contentType p ++ js "
**Word Count:** " ++ of_Z (pc_wordCount p) ++ js "

**Page Content (in Markdown format):**
" ++ pc_content p ++ js "

**Your Role:**
- Help users understand and analyze this webpage content
- Answer questions about the content accurately and helpfully
- Provide summaries, explanations, and insights
- Engage in natural conversation about the topics covered
- Be concise but thorough in your responses
- If asked about information not in the content, clearly state that

**Conversation Style:**
- Be friendly, helpful, and engaging
- Use a conversational tone appropriate for the content type
- Provide specific examples and quotes from the content when relevant
- Ask clarifying questions when needed

Please introduce yourself briefly and let the user know you've analyzed the page content and are ready to discuss it.").

(** Invocations of the callbacks passed to [generateResponseStream]. *)
Inductive Notice :=
| NChunk (chunk_content accumulated : JSString)
| NError (error : JSError)
| NComplete (response : JSString) (conversationLength : Z)
            (tokenUsage : TokenUsage).

Definition set_rateLimiter (w : World) (svc : Service) : Service :=
  mkService (conversations svc) (apiKey svc) w (activeStreams svc).

Definition set_conversations (cs : gmap Z Conversation) (svc : Service)
  : Service :=
  mkService cs (apiKey svc) (rateLimiter svc) (activeStreams svc).

(** The conversation that the call works on: the object stored for the
    tab or a new one, with the system message replaced when page content
    is given and the user message pushed. *)
Definition prepare_conversation (now : Z) (svc : Service) (tabId : Z)
    (userMessage : JSString) (page : option PageContent) : Conversation :=
  let conversation :=
    default (mkConversation [] None now) (conversations svc !! tabId) in
  let conversation1 :=
    match page with
    | Some p =>
        mkConversation [createSystemMessage p] (Some p)
                       (startTime conversation)
    | None => conversation
    end in
  mkConversation (messages conversation1 ++ [mkMessage (js "user") userMessage])
                 (pageContent conversation1) (startTime conversation1).

(** The callbacks of [streamOptions] as they see the callbacks invoked by
    [callOpenAIStream]; the completion is dealt with apart. *)
Definition forward (streamOptions : StreamOptions) (e : Event) : list Notice :=
  match e with
  | OnChunk c a => if has_onChunk streamOptions then [NChunk c a] else []
  | OnError err => [NError err]
  | OnComplete _ _ => []
  end.

Definition notify (present : bool) (n : Notice) : list Notice :=
  if present then [n] else [].

(** The options that [generateResponseStream] passes on: its own
    [onChunk] and [onComplete], the caller's [onError] and controller. *)
Definition inner_options (streamOptions : StreamOptions) : StreamOptions :=
  mkStreamOptions true (has_onError streamOptions) true
                  (has_abortController streamOptions).

(** The request that [generateResponseStream] submits for admission. *)
Definition stream_request (msgs : list Message) : RequestInfo :=
  mkRequestInfo (js "gpt-4") (JSON_stringify msgs) (Some 1000).

(** A conversation already stored for the tab is the object that was
    modified. *)
Definition store_in_place (tabId : Z) (conversation : Conversation)
    (svc : Service) : Service :=
  match conversations svc !! tabId with
  | Some _ =>
      set_conversations (<[tabId := conversation]> (conversations svc)) svc
  | None => svc
  end.

(** [generateResponseStream] once [callOpenAIStream] has run: the
    completion callback (push the answer, store the conversation,
    [await recordUsage], notify) or the [catch] block. *)
Definition settle_stream (now_end : Z) (ok : bool)
    (streamOptions : StreamOptions) (tabId : Z) (conversation : Conversation)
    (run : Run) (svc : Service) : Service * list Notice * GenResult :=
  let heard := concat (map (forward streamOptions) (events run)) in
  match outcome run with
  | Returned result_content result_usage =>
      let conversation2 :=
        mkConversation
          (messages conversation
             ++ [mkMessage (js "assistant") result_content])
          (pageContent conversation) (startTime conversation) in
      let svc3 :=
        set_conversations
          (<[tabId := conversation2]> (conversations svc)) svc in
      let '(ru, w2) :=
        recordUsage now_end ok
          (mkUsageInfo (js "gpt-4") (prompt_tokens result_usage)
                       (completion_tokens result_usage))
          (rateLimiter svc) in
      (set_rateLimiter w2 svc3,
       heard ++
         match ru with
         | RU_Done true =>
             notify (has_onComplete streamOptions)
               (NComplete result_content
                  (Z.of_nat (length (messages conversation2)))
                  result_usage)
         | _ => []
         end,
       GenStreaming)
  | Threw e =>
      (svc,
       heard ++ notify (has_onError streamOptions) (NError e),
       GenFailed (err_message e))
  | Pending => (svc, heard, GenPending)
  end.

(** [generateResponseStream(tabId, userMessage, pageContent,
    streamOptions)]. [now] is the clock when the call is made, [now_end]
    when the completion callback records the usage. *)
Definition generateResponseStream (now now_end : Z) (ok : bool)
    (svc : Service) (tabId : Z) (userMessage : JSString)
    (page : option PageContent) (streamOptions : StreamOptions)
    (net : FetchOutcome) : Service * list Notice * GenResult :=
  if bool_decide (default [] (apiKey svc) = []) then
    (svc, [], GenRejected (new_Error (js "OpenAI API key not configured")))
  else
    let conversation := prepare_conversation now svc tabId userMessage page in
    let '(cr, w1) :=
      checkRequest now ok (stream_request (messages conversation))
                   (rateLimiter svc) in
    let svc2 := set_rateLimiter w1 (store_in_place tabId conversation svc) in
    match check_result cr with
    | None =>
        let error :=
          mkJSError (js "TypeError")
                    (js "Cannot read properties of null (reading 'minutely')") in
        (svc2, notify (has_onError streamOptions) (NError error),
         GenFailed (err_message error))
    | Some (Denied reason limitType retryAfter) =>
        let error := js "Rate limit exceeded: " ++ reason in
        (svc2, notify (has_onError streamOptions) (NError (new_Error error)),
         GenRateLimited error limitType retryAfter)
    | Some _ =>
        settle_stream now_end ok streamOptions tabId conversation
          (callOpenAIStream (messages conversation)
                            (inner_options streamOptions) net)
          svc2
    end.

(** [abortStream(streamId)] *)
Definition abortStream (streamId : JSString) (svc : Service)
  : Service * bool :=
  if bool_decide (streamId ∈ activeStreams svc) then
    (mkService (conversations svc) (apiKey svc) (rateLimiter svc)
               (activeStreams svc ∖ {[streamId]}), true)
  else (svc, false).

(** The message that the listener sends for a callback. *)
Definition send (streamId : JSString) (tabId : Z) (n : Notice) : Sent :=
  match n with
  | NChunk c a => StreamChunk streamId tabId c a
  | NError e => StreamError streamId tabId (err_message e)
  | NComplete r l u => StreamComplete streamId tabId r l u
  end.

Definition is_complete (n : Notice) : bool :=
  match n with
  | NComplete _ _ _ => true
  | _ => false
  end.

Definition is_terminal (n : Notice) : bool :=
  match n with
  | NChunk _ _ => false
  | _ => true
  end.

(** The listener's case ['generateResponseStream']: the messages sent to
    the popup. The response to the request is sent when
    [generateResponseStream] settles, which is before the completion
    callback has recorded the usage. *)
Definition on_generateResponseStream (now now_end : Z) (ok : bool)
    (svc : Service) (tabId : Z) (request_streamId : option JSString)
    (message : JSString) (page : option PageContent) (net : FetchOutcome)
  : Service * list Sent :=
  let streamId :=
    match request_streamId with
    | Some s => if bool_decide (s = []) then of_Z tabId ++ js "-" ++ of_Z now
                else s
    | None => of_Z tabId ++ js "-" ++ of_Z now
    end in
  let svc1 :=
    mkService (conversations svc) (apiKey svc) (rateLimiter svc)
              ({[streamId]} ∪ activeStreams svc) in
  let '(svc2, notices, res) :=
    generateResponseStream now now_end ok svc1 tabId message page
      (mkStreamOptions true true true true) net in
  let before := filter (λ n, is_complete n = false) notices in
  let after := filter (λ n, is_complete n = true) notices in
  let answer :=
    match res with
    | GenRejected e => [Response (GenFailed (err_message e))]
    | GenPending => []
    | GenStreaming => [ResponseStreaming streamId]
    | r => [Response r]
    end in
  let svc3 :=
    if existsb is_terminal notices
       || match res with GenRejected _ => true | _ => false end
    then fst (abortStream streamId svc2) else svc2 in
  (svc3,
   map (send streamId tabId) before ++ answer
     ++ map (send streamId tabId) after).

End StreamingOps.

(** ** A concrete platform

    An executable model of the built-in functions, used to run the program
    on concrete inputs. *)

Module V8.

(** *** [Date.prototype.toISOString], for years 0000 to 9999 *)

Definition civil_from_days (days : Z) : Z * Z * Z :=
  let z := days + 719468 in
  let era := z / 146097 in
  let doe := z - era * 146097 in
  let yoe := (doe - doe / 1460 + doe / 36524 - doe / 146096) / 365 in
  let doy := doe - (365 * yoe + yoe / 4 - yoe / 100) in
  let mp := (5 * doy + 2) / 153 in
  let d := doy - (153 * mp + 2) / 5 + 1 in
  let m := if mp <? 10 then mp + 3 else mp - 9 in
  let y := yoe + era * 400 + (if m <=? 2 then 1 else 0) in
  (y, m, d).

Definition toISOString (ms : Z) : JSString :=
  let '(y, m, d) := civil_from_days (ms / 86400000) in
  let t := ms mod 86400000 in
  pad 4 y ++ js "-" ++ pad 2 m ++ js "-" ++ pad 2 d ++ js "T"
    ++ pad 2 (t / 3600000) ++ js ":" ++ pad 2 (t / 60000 mod 60) ++ js ":"
    ++ pad 2 (t / 1000 mod 60) ++ js "." ++ pad 3 (t mod 1000) ++ js "Z".

(** *** [Number.prototype.toFixed(2)] *)

Definition toFixed2 (x : Qc) : JSString :=
  let cents := Qfloor (Qabs (this x) * inject_Z 100 + (1 # 2))%Q in
  (if bool_decide (x < 0)%Qc && negb (cents =? 0) then js "-" else [])
    ++ of_Z (cents / 100) ++ js "." ++ pad 2 (cents mod 100).

(** *** JSON values with integer numbers *)

#[local] Unset Elimination Schemes.
Inductive JSON :=
| JNull
| JBool (b : bool)
| JNum (n : Z)
| JStr (s : JSString)
| JArr (l : list JSON)
| JObj (l : list (JSString * JSON)).
#[local] Set Elimination Schemes.

Fixpoint skip_ws (s : JSString) : JSString :=
  match s with
  | c :: s' =>
      if ((c =? 32) || (c =? 9) || (c =? 10) || (c =? 13))%N then skip_ws s'
      else s
  | [] => []
  end.

Definition hex_value (c : N) : option N :=
  if ((48 <=? c) && (c <=? 57))%N then Some (c - 48)%N
  else if ((97 <=? c) && (c <=? 102))%N then Some (c - 87)%N
  else if ((65 <=? c) && (c <=? 70))%N then Some (c - 55)%N
  else None.

(** The characters of a string literal after its opening quote. *)
Fixpoint parse_string (s : JSString) (acc : JSString)
  : option (JSString * JSString) :=
  match s with
  | [] => None
  | 34%N :: r => Some (rev acc, r)
  | 92%N :: 117%N :: a :: b :: c :: d :: r =>
      match hex_value a, hex_value b, hex_value c, hex_value d with
      | Some a', Some b', Some c', Some d' =>
          parse_string r ((a' * 4096 + b' * 256 + c' * 16 + d')%N :: acc)
      | _, _, _, _ => None
      end
  | 92%N :: e :: r =>
      match e with
      | 34%N => parse_string r (34%N :: acc)
      | 92%N => parse_string r (92%N :: acc)
      | 47%N => parse_string r (47%N :: acc)
      | 98%N => parse_string r (8%N :: acc)
      | 102%N => parse_string r (12%N :: acc)
      | 110%N => parse_string r (10%N :: acc)
      | 114%N => parse_string r (13%N :: acc)
      | 116%N => parse_string r (9%N :: acc)
      | _ => None
      end
  | c :: r => if (c <? 32)%N then None else parse_string r (c :: acc)
  end.

Definition is_digit (c : N) : bool := ((48 <=? c) && (c <=? 57))%N.

Fixpoint parse_digits (s : JSString) (acc : Z) : Z * JSString :=
  match s with
  | c :: r =>
      if is_digit c then parse_digits r (10 * acc + Z.of_N (c - 48))
      else (acc, s)
  | [] => (acc, [])
  end.

(** An integer literal; a fraction or an exponent is not accepted. *)
Definition parse_number (s : JSString) : option (Z * JSString) :=
  let '(neg, s1) :=
    match s with
    | 45%N :: r => (true, r)
    | _ => (false, s)
    end in
  match s1 with
  | c :: r =>
      if is_digit c then
        if (c =? 48)%N && match r with d :: _ => is_digit d | [] => false end
        then None
        else
          let '(n, rest) := parse_digits s1 0 in
          match rest with
          | 46%N :: _ | 101%N :: _ | 69%N :: _ => None
          | _ => Some (if neg then - n else n, rest)
          end
      else None
  | [] => None
  end.

Fixpoint parse_value (fuel : nat) (s : JSString) : option (JSON * JSString) :=
  match fuel with
  | O => None
  | S f =>
      let elements :=
        fix elements (n : nat) (s : JSString) (acc : list JSON)
          : option (list JSON * JSString) :=
          match n with
          | O => None
          | S n' =>
              match parse_value f s with
              | Some (v, r) =>
                  match skip_ws r with
                  | 44%N :: r' => elements n' r' (v :: acc)
                  | 93%N :: r' => Some (rev (v :: acc), r')
                  | _ => None
                  end
              | None => None
              end
          end in
      let members :=
        fix members (n : nat) (s : JSString) (acc : list (JSString * JSON))
          : option (list (JSString * JSON) * JSString) :=
          match n with
          | O => None
          | S n' =>
              match skip_ws s with
              | 34%N :: r =>
                  match parse_string r [] with
                  | Some (k, r1) =>
                      match skip_ws r1 with
                      | 58%N :: r2 =>
                          match parse_value f r2 with
                          | Some (v, r3) =>
                              match skip_ws r3 with
                              | 44%N :: r' => members n' r' ((k, v) :: acc)
                              | 125%N :: r' => Some (rev ((k, v) :: acc), r')
                              | _ => None
                              end
                          | None => None
                          end
                      | _ => None
                      end
                  | None => None
                  end
              | _ => None
              end
          end in
      match skip_ws s with
      | 110%N :: 117%N :: 108%N :: 108%N :: r => Some (JNull, r)
      | 116%N :: 114%N :: 117%N :: 101%N :: r => Some (JBool true, r)
      | 102%N :: 97%N :: 108%N :: 115%N :: 101%N :: r => Some (JBool false, r)
      | 34%N :: r =>
          match parse_string r [] with
          | Some (str, r') => Some (JStr str, r')
          | None => None
          end
      | 91%N :: r =>
          match skip_ws r with
          | 93%N :: r' => Some (JArr [], r')
          | _ =>
              match elements (length r) r [] with
              | Some (l, r') => Some (JArr l, r')
              | None => None
              end
          end
      | 123%N :: r =>
          match skip_ws r with
          | 125%N :: r' => Some (JObj [], r')
          | _ =>
              match members (length r) r [] with
              | Some (l, r') => Some (JObj l, r')
              | None => None
              end
          end
      | s' =>
          match parse_number s' with
          | Some (n, r) => Some (JNum n, r)
          | None => None
          end
      end
  end.

(** [JSON.parse(text)]; [None] for a [SyntaxError]. *)
Definition parse (text : JSString) : option JSON :=
  match parse_value (S (length text)) text with
  | Some (v, r) =>
      match skip_ws r with
      | [] => Some v
      | _ => None
      end
  | None => None
  end.

(** *** Property reads on a parsed value; [None] is [undefined] *)

(** [o[key]] on a value that is not [null]; the last of several members
    with the same key is the one kept by [JSON.parse]. *)
Definition get (key : JSString) (v : JSON) : option JSON :=
  match v with
  | JObj l => snd <$> List.find (λ kv, eqb (fst kv) key) (rev l)
  | _ => None
  end.

(** [v[0]] *)
Definition get0 (v : JSON) : option JSON :=
  match v with
  | JArr (x :: _) => Some x
  | JStr (c :: _) => Some (JStr [c])
  | JObj _ => get (js "0") v
  | _ => None
  end.

(** [v?.key] *)
Definition opt_get (key : JSString) (v : option JSON) : option JSON :=
  match v with
  | Some JNull | None => None
  | Some v' => get key v'
  end.

Definition truthy (v : option JSON) : bool :=
  match v with
  | None | Some JNull | Some (JBool false) | Some (JNum 0) | Some (JStr []) =>
      false
  | Some _ => true
  end.

Definition as_string (v : option JSON) : option (option JSString) :=
  match v with
  | Some (JStr s) => Some (Some s)
  | v' => if truthy v' then None else Some None
  end.

Definition as_count (v : option JSON) : option Z :=
  match v with
  | Some (JNum n) => Some n
  | _ => None
  end.

(** The usage record of a frame. It is within the model when its token
    counts are integers; the first two may be anything when
    [total_tokens] is falsy, since they are then overwritten before they
    are read. *)
Definition usage_of (v : option JSON) : option (option TokenUsage) :=
  if truthy v then
    match v with
    | Some (JObj l) =>
        let total := get (js "total_tokens") (JObj l) in
        if truthy total then
          match as_count total, as_count (get (js "prompt_tokens") (JObj l)),
                as_count (get (js "completion_tokens") (JObj l)) with
          | Some t, Some p, Some c => Some (Some (mkTokenUsage p c (Some t)))
          | _, _, _ => None
          end
        else
          match total with
          | Some (JNum _) => Some (Some (mkTokenUsage 0 0 (Some 0)))
          | Some JNull | None => Some (Some (mkTokenUsage 0 0 None))
          | _ => None
          end
    | _ => None
    end
  else Some None.

(** [JSON.parse(data)] and the reads of the decode loop. A value outside
    the model (a content that is not a string, a token count that is not
    an integer) is answered like a syntax error. *)
Definition JSON_parse (data : JSString) : option Frame :=
  match parse data with
  | Some JNull | None => None
  | Some parsed =>
      let choices := get (js "choices") parsed in
      let first := if truthy choices then choices ≫= get0 else None in
      match as_string (opt_get (js "content") (opt_get (js "delta") first)),
            as_string (opt_get (js "finish_reason") first),
            usage_of (get (js "usage") parsed) with
      | Some c, Some f, Some u => Some (mkFrame c f u)
      | _, _, _ => None
      end
  end.

(** *** [JSON.stringify] of a message list *)

Definition hex_digit (n : N) : N :=
  if (n <? 10)%N then (48 + n)%N else (87 + n)%N.

Definition escape_u (c : N) : JSString :=
  [92; 117; hex_digit (c / 4096); hex_digit (c / 256 mod 16);
   hex_digit (c / 16 mod 16); hex_digit (c mod 16)]%N.

Definition is_high (c : N) : bool := ((55296 <=? c) && (c <=? 56319))%N.
Definition is_low (c : N) : bool := ((56320 <=? c) && (c <=? 57343))%N.

Fixpoint quote_chars (s : JSString) : JSString :=
  match s with
  | [] => []
  | c :: r =>
      if (c =? 34)%N then [92; 34]%N ++ quote_chars r
      else if (c =? 92)%N then [92; 92]%N ++ quote_chars r
      else if (c =? 8)%N then [92; 98]%N ++ quote_chars r
      else if (c =? 12)%N then [92; 102]%N ++ quote_chars r
      else if (c =? 10)%N then [92; 110]%N ++ quote_chars r
      else if (c =? 13)%N then [92; 114]%N ++ quote_chars r
      else if (c =? 9)%N then [92; 116]%N ++ quote_chars r
      else if (c <? 32)%N then escape_u c ++ quote_chars r
      else if is_high c then
        match r with
        | l :: r' =>
            if is_low l then c :: l :: quote_chars r'
            else escape_u c ++ quote_chars r
        | [] => escape_u c
        end
      else if is_low c then escape_u c ++ quote_chars r
      else c :: quote_chars r
  end.

Definition quote (s : JSString) : JSString := [34%N] ++ quote_chars s ++ [34%N].

Definition stringify_message (m : Message) : JSString :=
  js "{" ++ quote (js "role") ++ js ":" ++ quote (role m) ++ js ","
     ++ quote (js "content") ++ js ":" ++ quote (content m) ++ js "}".

Fixpoint join (sep : JSString) (l : list JSString) : JSString :=
  match l with
  | [] => []
  | [x] => x
  | x :: r => x ++ sep ++ join sep r
  end.

Definition JSON_stringify (msgs : list Message) : JSString :=
  js "[" ++ join (js ",") (map stringify_message msgs) ++ js "]".

#[export] Instance platform : Platform :=
  Build_Platform toISOString JSON_parse JSON_stringify toFixed2.

(** A literal in which an apostrophe stands for a double quote. *)
Definition jsq (s : string) : JSString :=
  map (λ c, if (c =? 39)%N then 34%N else c) (js s).

End V8.

(** ** Properties: vocabulary *)

Section Vocabulary.

Context `{Platform}.

(** *** The token invariant *)

Definition tokens_ok (t : Tokens) : Prop :=
  tk_total t = tk_prompt t + tk_completion t.

Definition scope_ok (s : Scope) : Prop :=
  tokens_ok (c_tokens (sc_counters s)) ∧
  ∀ model cs, sc_modelBreakdown s !! model = Some cs → tokens_ok (c_tokens cs).

Definition usage_ok (u : Usage) : Prop :=
  scope_ok (daily u) ∧ scope_ok (monthly u) ∧ scope_ok (lifetime u).

(** Ledgers built from the empty one by the operations on the ledger. *)
Inductive reachable : Usage → Prop :=
| reach_empty now :
    reachable (createEmptyUsage now)
| reach_recordUsage now ms usageInfo u :
    reachable u → reachable (fst (recordUsage_body now ms usageInfo u))
| reach_rollover now u :
    reachable u → reachable (fst (checkAndResetPeriods_body now u))
| reach_resetUsage now period u :
    reachable u → reachable (resetUsage_body now period u).

(** The ledger in memory and the one in storage. *)
Definition world_ok (w : World) : Prop :=
  (∀ u, usage (rl w) = Some u → usage_ok u) ∧
  (∀ u, storage w = Some u → usage_ok u).

Definition initpc_ok (pc : InitPc) : Prop :=
  match pc with
  | InitGet (Some (Some stored)) => usage_ok stored
  | _ => True
  end.

(** Worlds that a new limiter over an empty store gets to by calls of its
    methods, one after the other. *)
Inductive reachable_world : World → Prop :=
| rw_new config_models config_limits :
    reachable_world (mkWorld (constructor config_models config_limits) None [])
| rw_checkRequest now ok requestInfo w :
    reachable_world w →
    reachable_world (snd (checkRequest now ok requestInfo w))
| rw_recordUsage now ok usageInfo w :
    reachable_world w →
    reachable_world (snd (recordUsage now ok usageInfo w))
| rw_resetUsage now ok period w :
    reachable_world w →
    reachable_world (snd (resetUsage now ok period w)).

Definition rupc_ok (pc : RUPc) : Prop :=
  match pc with
  | RU_Init ipc => initpc_ok ipc
  | _ => True
  end.

Definition crpc_ok (pc : CRPc) : Prop :=
  match pc with
  | CR_Init ipc => initpc_ok ipc
  | _ => True
  end.

Definition rspc_ok (pc : RSPc) : Prop :=
  match pc with
  | RS_Init ipc => initpc_ok ipc
  | _ => True
  end.

(** *** The order of the admission checks

    The checks in the order the specification gives them, each with the
    test that makes it deny. The two tables differ in which limits are in
    force: every limit that is a number, or only those that the code
    treats as set. *)





(** The kind of the first check that is violated, if any. *)
Definition first_violated (checks : list (LimitType * bool))
  : option LimitType :=
  fst <$> List.find snd checks.



(** Prices that are not negative. *)
Definition nonneg_prices (mc : ModelConfig) : Prop :=
  (0 <= mc_prompt mc)%Qc ∧ (0 <= mc_completion mc)%Qc.

Definition with_models (ms : gmap JSString ModelConfig) (r : RateLimiter)
  : RateLimiter :=
  mkRateLimiter ms (limits r) (usage r) (initialized r).

(** *** Chunks of a stream *)

(** The deltas of the emitted chunks, in emission order. *)
Definition deltas (es : list Event) : list JSString :=
  omap (λ e, match e with OnChunk c _ => Some c | _ => None end) es.

(** The emitted chunks: delta and accumulated text. *)
Definition chunks (es : list Event) : list (JSString * JSString) :=
  omap (λ e, match e with OnChunk c a => Some (c, a) | _ => None end) es.

Definition ndeltas (ns : list Notice) : list JSString :=
  omap (λ n, match n with NChunk c _ => Some c | _ => None end) ns.

Definition nchunks (ns : list Notice) : list (JSString * JSString) :=
  omap (λ n, match n with NChunk c a => Some (c, a) | _ => None end) ns.

(** Each delta paired with the text accumulated up to and including it,
    starting from [acc]. *)
Fixpoint running (acc : JSString) (ds : list JSString)
  : list (JSString * JSString) :=
  match ds with
  | [] => []
  | d :: ds' => (d, acc ++ d) :: running (acc ++ d) ds'
  end.

(** The delta that the loop takes from a line: the content of a data line
    that is not the end sentinel and parses to a frame with a content that
    is not empty. *)
Definition line_delta (line : JSString) : option JSString :=
  if bool_decide (trim line = []) then None
  else if startsWith (js ":") line then None
  else if startsWith (js "data: ") line then
    let data := trim (slice_from 6 line) in
    if bool_decide (data = js "[DONE]") then None
    else
      match JSON_parse data with
      | Some parsed =>
          match delta_content parsed with
          | Some chunk => if bool_decide (chunk = []) then None else Some chunk
          | None => None
          end
      | None => None
      end
  else None.

(** The lines of a body that are ended by a newline. *)
Definition complete_lines (body : JSString) : list JSString :=
  removelast (split_on 10%N body).

(** A text without a newline, as the buffer of the loop is. *)
Definition sep_free (s : JSString) : Prop := 10%N ∉ s.

(** The texts that a sequence of reads delivers. *)
Definition texts (reads : list Read) : list JSString :=
  omap (λ r, match result r with ReadValue t => Some t | _ => None end) reads.

(** *** The usage fallback *)

(** The estimate as the specification words it. *)
Definition heuristic_estimate (msgs : list Message) (accumulated : JSString)
  : TokenUsage :=
  mkTokenUsage (countTokens (JSON_stringify msgs)) (countTokens accumulated)
               (Some (countTokens (JSON_stringify msgs)
                      + countTokens accumulated)).

(** [total_tokens] is missing or [0]. *)
Definition no_total (u : TokenUsage) : Prop :=
  total_tokens u = None ∨ total_tokens u = Some 0.

(** The usage record captured by the end of the stream: by the read loop
    and by the look at the remaining buffer. *)
Definition captured_usage (opts : StreamOptions) (reads : list Read)
  : TokenUsage :=
  tokenUsage (process_remaining (fst (read_loop opts reads decoder_init))).

(** *** Failures and cancellation *)

(** The error object that the [catch] block of [callOpenAIStream] passes
    to [onError]. *)
Definition surfaced (e : JSError) : JSError :=
  if bool_decide (err_name e = js "AbortError") then
    new_Error (js "Stream aborted by user")
  else friendly e.

(** The id under which the listener registers a stream:
    [request.streamId || `${tabId}-${Date.now()}`]. *)
Definition listener_stream_id (now tabId : Z)
    (request_streamId : option JSString) : JSString :=
  match request_streamId with
  | Some s => if bool_decide (s = []) then of_Z tabId ++ js "-" ++ of_Z now
              else s
  | None => of_Z tabId ++ js "-" ++ of_Z now
  end.

(** A [streamChunk] message. *)
Definition is_stream_chunk (m : Sent) : bool :=
  match m with
  | StreamChunk _ _ _ _ => true
  | _ => false
  end.

(** The [error] fields of the [streamError] messages sent, in order. *)
Definition stream_errors (sent : list Sent) : list JSString :=
  omap (λ m, match m with StreamError _ _ err => Some err | _ => None end) sent.

(** The failure kinds of the specification. *)
Definition failure_kinds : list JSString :=
  [js "transport"; js "auth"; js "remote_overload"; js "remote_error";
   js "timeout"; js "cancelled"].

Definition is_chunk (e : Event) : bool :=
  match e with
  | OnChunk _ _ => true
  | _ => false
  end.

(** The ledger has recorded one more request: what any [recordUsage]
    leaves behind. *)
Definition recorded_once (before after : World) : Prop :=
  ∃ u u', usage (rl before) = Some u ∧ usage (rl after) = Some u' ∧
          c_requests (sc_counters (lifetime u'))
          = c_requests (sc_counters (lifetime u)) + 1.

(** What the decode loop maintains: the emitted chunks carry the running
    concatenation of the deltas, which is the accumulated content. *)
Definition decoder_inv (d : Decoder) : Prop :=
  chunks (emitted d) = running [] (deltas (emitted d)) ∧
  concat (deltas (emitted d)) = accumulatedContent d.

(** Only chunks have been emitted. *)
Definition chunks_only (d : Decoder) : Prop :=
  Forall (λ e, is_chunk e = true) (emitted d).

(** A read that the loop sees in time: the head test passes and the read
    settles within the timeout. *)
Definition in_time (r : Read) : Prop :=
  busy r <= timeout ∧ ∃ t, wait r = Some t ∧ t <= timeout.

Definition has_text (r : Read) : Prop :=
  ∃ text, result r = ReadValue text.

(** A read that the timer on the read cuts short: the head test passes,
    and the read takes longer than the timeout or never settles. *)
Definition too_slow (r : Read) : Prop :=
  busy r <= timeout ∧
  match wait r with
  | Some t => timeout < t
  | None => True
  end.


(** *** Interleaved recordings *)

(** [daily.tokens.total] of the ledger in memory. *)
Definition daily_total (w : World) : option Z :=
  (λ u, tk_total (c_tokens (sc_counters (daily u)))) <$> usage (rl w).

(** Two calls of [recordUsage], each with [promptTokens = 100] and no
    completion tokens, neither started yet. *)
Definition two_calls : list (UsageInfo * RUPc) :=
  [ (mkUsageInfo (js "gpt-4") 100 0, RU_Call);
    (mkUsageInfo (js "gpt-4") 100 0, RU_Call) ].

(** The call has run the section that updates the counters. *)
Definition ran_body (pc : RUPc) : bool :=
  match pc with
  | RU_Save _ | RU_Done _ => true
  | _ => false
  end.

Definition contribution (c : UsageInfo * RUPc) : Z :=
  if ran_body (snd c) then
    ui_promptTokens (fst c) + ui_completionTokens (fst c)
  else 0.

(** The tokens of the calls that have updated the counters. *)
Definition recorded (cs : list (UsageInfo * RUPc)) : Z :=
  foldr (λ c acc, contribution c + acc) 0 cs.

Definition outside_initialize (pc : RUPc) : Prop :=
  match pc with
  | RU_Init _ => False
  | _ => True
  end.

(** What every interleaving keeps on an initialised limiter: the daily
    total is the initial one plus the tokens of the calls that have
    updated the counters. *)
Definition sys_inv (t0 : Z) (s : Sys) : Prop :=
  initialized (rl (world s)) = true ∧
  daily_total (world s) = Some (t0 + recorded (calls s)) ∧
  Forall (λ c, outside_initialize (snd c)) (calls s).

End Vocabulary.

(** ** Concrete inputs *)

Module Scenario.

Import V8.

(** 2024-01-01T00:00:00.000Z and 2024-01-02T00:00:01.000Z *)
Definition day1 : Z := 1704067200000.
Definition day2 : Z := 1704153601000.

(** A new limiter over an empty store. *)
Definition fresh : World := mkWorld (constructor None None) None [].

(** A limiter with the default ledger limits, initialised on [day1],
    with an empty ledger. *)
Definition ready : World :=
  mkWorld (mkRateLimiter default_models default_limits
                         (Some (createEmptyUsage day1)) true)
          (Some (createEmptyUsage day1)) [].

(** Limits with a daily token limit of 100. *)
Definition tight_limits : Limits :=
  mkLimits (mkPeriodLimits (LNum 100) (LNum 1000) (LNum (Qc_of 10 1)))
           (lim_monthly default_limits) (LNum 20).


Definition tight : World :=
  mkWorld (constructor None (Some tight_limits)) None [].

(** The limiter [tight] after one recording of 90 + 5 tokens on [day1]:
    initialised, daily usage 95. *)
Definition after_day1 : World :=
  snd (recordUsage day1 true (mkUsageInfo (js "gpt-4") 90 5) tight).

(** The same limits and store in a limiter object created anew, as after
    a restart of the service worker. *)
Definition restarted : World :=
  mkWorld (constructor None (Some tight_limits)) (storage after_day1) [].

(** A request of 2 prompt tokens and 5 estimated completion tokens. *)
Definition small_request : RequestInfo :=
  mkRequestInfo (js "gpt-4") (js "hello") (Some 5).


Definition unpriced_request : RequestInfo :=
  mkRequestInfo (js "gpt-5") (js "hello") (Some 5).

Definition some_price : ModelConfig :=
  mkModelConfig (Qc_of 1 100) (Qc_of 2 100) 1000.

(** A ledger with a daily usage of 95 tokens. *)
Definition used_95 : Usage :=
  fst (recordUsage_body day1 default_models (mkUsageInfo (js "gpt-4") 90 5)
                        (createEmptyUsage day1)).

Definition service : Service :=
  mkService ∅ (Some (js "sk-test")) ready ∅.

Definition all_callbacks : StreamOptions := mkStreamOptions true true true true.

Definition frame_Hel : JSString :=
  jsq "data: {'choices':[{'index':0,'delta':{'content':'Hel'}}]}
".

Definition frame_lo : JSString :=
  jsq "data: {'choices':[{'index':0,'delta':{'content':'lo'},'finish_reason':'stop'}]}
".

Definition frame_zero_usage : JSString :=
  jsq "data: {'choices':[],'usage':{'prompt_tokens':0,'completion_tokens':0,'total_tokens':0}}
".

Definition frame_done : JSString :=
  js "data: [DONE]
".

Definition abort_error : JSError :=
  mkJSError (js "AbortError") (js "The user aborted a request.").

(** One chunk, then the caller aborts. *)
Definition cancelled : FetchOutcome :=
  FetchResponse 200 None
    [ mkRead 0 (Some 120) (ReadValue frame_Hel);
      mkRead 0 (Some 50) (ReadRejected abort_error) ].



(** Two chunks, an all-zero usage record, the end sentinel. *)
Definition complete_stream : FetchOutcome :=
  FetchResponse 200 None
    [ mkRead 0 (Some 120) (ReadValue frame_Hel);
      mkRead 0 (Some 80) (ReadValue (frame_lo ++ frame_zero_usage));
      mkRead 0 (Some 5) (ReadValue frame_done);
      mkRead 0 (Some 1) ReadDone ].

Definition unauthorized : FetchOutcome :=
  FetchResponse 401 (Some (Some (js "Incorrect API key provided."))) [].

Definition user_says_hi : list Message := [mkMessage (js "user") (js "Hi")].

(** The two calls on a new limiter over an empty store. *)
Definition racing : Sys := mkSys fresh two_calls.

(** The two calls on an initialised limiter with an empty ledger. *)
Definition queued : Sys := mkSys ready two_calls.

(** An interleaving in which the second call is made while the first is
    saving the empty ledger it has just created, and reads that ledger
    back after the first call has updated the counters. *)
Definition lost_update : list Turn :=
  [ mkTurn 0 day1 true;        (* first: call, starts reading the store *)
    mkTurn 0 (day1 + 1) true;  (* first: store empty, creates and saves *)
    mkTurn 1 (day1 + 2) true;  (* second: call, starts reading the store *)
    mkTurn 0 (day1 + 3) true;  (* first: saved, initialized = true *)
    mkTurn 0 (day1 + 3) true;  (* first: updates the counters, saves *)
    mkTurn 1 (day1 + 4) true;  (* second: installs the ledger it read *)
    mkTurn 1 (day1 + 4) true;  (* second: initialized = true *)
    mkTurn 1 (day1 + 4) true;  (* second: updates the counters, saves *)
    mkTurn 0 (day1 + 5) true;  (* first: settled *)
    mkTurn 1 (day1 + 6) true   (* second: settled *) ].

(** An interleaving of the two calls, step by step in turn. *)
Definition alternating : list Turn :=
  [ mkTurn 0 day1 true; mkTurn 1 day1 true;
    mkTurn 0 (day1 + 1) true; mkTurn 1 (day1 + 1) true;
    mkTurn 0 (day1 + 2) true; mkTurn 1 (day1 + 3) true ].

End Scenario.

(** ** Rate limiter: the remaining methods *)

Section RateLimiterMore.

Context `{Platform}.

(** [initialize()] run alone, with the clock at [now] throughout. *)
Definition initialize (now : Z) (ok : bool) (w : World) : World :=
  match initialize_call ok w with
  | None => w
  | Some pc =>
      match initialize_resume now ok pc w with
      | (None, w1) => w1
      | (Some pc1, w1) => snd (initialize_resume now ok pc1 w1)
      end
  end.

(** The argument of [updateLimits]: the groups that the object has. *)
Record NewLimits := mkNewLimits {
  nl_daily : option PeriodLimits;
  nl_monthly : option PeriodLimits;
  nl_perMinute : option (Limit Z)
}.

(** [updateLimits(newLimits)]: [this.limits = {...this.limits,
    ...newLimits}]. The configuration that it then saves under
    ['rateLimiterConfig'] is never read back. *)
Definition updateLimits (newLimits : NewLimits) (w : World) : World :=
  mkWorld
    (mkRateLimiter (models (rl w))
       (mkLimits (default (lim_daily (limits (rl w))) (nl_daily newLimits))
                 (default (lim_monthly (limits (rl w))) (nl_monthly newLimits))
                 (default (lim_perMinute (limits (rl w)))
                          (nl_perMinute newLimits)))
       (usage (rl w)) (initialized (rl w)))
    (storage w) (console w).

(** The limits that the settings panel of the popup sends
    ([saveSettings]): a [daily] group with the fields that were filled
    in. *)
Definition settings_limits (dailyTokenLimit : option Z)
    (dailyCostLimit : option Qc) : NewLimits :=
  mkNewLimits
    (Some (mkPeriodLimits
             (from_option LNum LUndefined dailyTokenLimit)
             LUndefined
             (from_option LNum LUndefined dailyCostLimit)))
    None None.

(** The object that [exportData] returns and [importData] takes; a field
    of the argument may be missing. *)
Record ExportData := mkExportData {
  ex_usage : option Usage;
  ex_limits : option Limits;
  ex_models : option (gmap JSString ModelConfig);
  ex_exportDate : JSString;
  ex_version : JSString
}.

(** [exportData()] *)
Definition exportData (now : Z) (ok : bool) (w : World)
  : ExportData * World :=
  let w1 := initialize now ok w in
  (mkExportData (usage (rl w1)) (Some (limits (rl w1))) (Some (models (rl w1)))
                (toISOString now) (js "1.0.0"),
   w1).

Inductive ImportResult :=
| Imported                       (** fulfilled *)
| ImportRejected                 (** a save was rejected *)
| ImportThrew (message : JSString).

(** [importData(data)]; [data] is [None] when it is [null]. [ok_usage]
    and [ok_config] are the fates of its two saves; the second one is
    started only when the first has succeeded. *)
Definition importData (ok_usage ok_config : bool) (data : option ExportData)
    (w : World) : ImportResult * World :=
  match data ≫= ex_usage with
  | None => (ImportThrew (js "Invalid import data"), w)
  | Some u =>
      let d := default (mkExportData None None None [] []) data in
      let r :=
        mkRateLimiter (default (models (rl w)) (ex_models d))
                      (default (limits (rl w)) (ex_limits d))
                      (Some u) (initialized (rl w)) in
      (if ok_usage && ok_config then Imported else ImportRejected,
       saveUsage ok_usage (mkWorld r (storage w) (console w)))
  end.

(** [x / y * 100] of [getUsageStats], where the limit [y] is truthy. *)
Definition percentage (x y : Qc) : Qc := (x / y * Z2Qc 100)%Qc.

(** The [percentages] of [getUsageStats(period)] for the daily and the
    monthly period: [null] ([None]) where the limit is falsy. *)
Record Percentages := mkPercentages {
  pct_tokens : option Qc;
  pct_requests : option Qc;
  pct_cost : option Qc
}.

Definition percentages (lims : PeriodLimits) (s : Scope) : Percentages :=
  mkPercentages
    ((λ l, percentage (Z2Qc (tk_total (c_tokens (sc_counters s)))) (Z2Qc l))
       <$> truthyZ (lim_tokens lims))
    ((λ l, percentage (Z2Qc (c_requests (sc_counters s))) (Z2Qc l))
       <$> truthyZ (lim_requests lims))
    ((λ l, percentage (c_cost (sc_counters s)) l) <$> truthyQc (lim_cost lims)).

End RateLimiterMore.

(** ** Service worker: the remaining methods *)

Section ServiceMore.

Context `{Platform}.

(** How the [fetch] of [callOpenAI] and the reading of its body go: an
    error thrown on the way, a response that is not [ok] with the message
    of its error body ([None] when missing), or a response with content
    and usage ([None] when [data.usage] is missing). *)
Inductive CallOutcome :=
| CallThrew (e : JSError)
| CallNotOk (message : option JSString)
| CallOk (content : JSString) (usage : option TokenUsage).

(** [callOpenAI(messages)] *)
Definition callOpenAI (out : CallOutcome)
  : JSError + JSString * option TokenUsage :=
  match out with
  | CallThrew e => inl e
  | CallNotOk message =>
      inl (new_Error
             match message with
             | Some m => if bool_decide (m = []) then js "API request failed"
                         else m
             | None => js "API request failed"
             end)
  | CallOk content usage => inr (content, usage)
  end.

(** What [generateResponse] resolves to. *)
Inductive Reply :=
| ReplyRejected (e : JSError)
| ReplyRateLimited (error : JSString) (limitType : LimitType)
                   (retryAfter : option RetryAfter)
| ReplySuccess (response : JSString) (conversationLength : Z)
               (tokenUsage : TokenUsage)
| ReplyFailed (error : JSString).

(** [generateResponse(tabId, userMessage, pageContent)]. [now_end] is the
    clock when the usage is recorded, [save_error] the error that a
    rejected save carries. *)
Definition generateResponse (now now_end : Z) (ok : bool)
    (save_error : JSError) (svc : Service) (tabId : Z)
    (userMessage : JSString) (page : option PageContent) (out : CallOutcome)
  : Service * Reply :=
  if bool_decide (default [] (apiKey svc) = []) then
    (svc, ReplyRejected (new_Error (js "OpenAI API key not configured")))
  else
    let conversation := prepare_conversation now svc tabId userMessage page in
    let '(cr, w1) :=
      checkRequest now ok (stream_request (messages conversation))
                   (rateLimiter svc) in
    let svc2 := set_rateLimiter w1 (store_in_place tabId conversation svc) in
    match check_result cr with
    | None =>
        (svc2,
         ReplyFailed (js "Cannot read properties of null (reading 'minutely')"))
    | Some (Denied reason limitType retryAfter) =>
        (svc2,
         ReplyRateLimited (js "Rate limit exceeded: " ++ reason) limitType
                          retryAfter)
    | Some _ =>
        match callOpenAI out with
        | inl e => (svc2, ReplyFailed (err_message e))
        | inr (answer, reported) =>
            let conversation2 :=
              mkConversation
                (messages conversation ++ [mkMessage (js "assistant") answer])
                (pageContent conversation) (startTime conversation) in
            let svc3 :=
              set_conversations
                (<[tabId := conversation2]> (conversations svc2)) svc2 in
            match reported with
            | None =>
                (svc3,
                 ReplyFailed
                   (js "Cannot read properties of undefined (reading 'prompt_tokens')"))
            | Some u =>
                let '(ru, w2) :=
                  recordUsage now_end ok
                    (mkUsageInfo (js "gpt-4") (prompt_tokens u)
                                 (completion_tokens u)) w1 in
                (set_rateLimiter w2 svc3,
                 match ru with
                 | RU_Done true =>
                     ReplySuccess answer
                       (Z.of_nat (length (messages conversation2))) u
                 | _ =>
                     ReplyFailed
                       match usage (rl w1) with
                       | Some _ => err_message save_error
                       | None =>
                           js "Cannot read properties of null (reading 'daily')"
                       end
                 end)
            end
        end
    end.

(** What [getConversationSummary] returns; of the two methods of that
    name in the class body the second is the one in effect. *)
Record Summary := mkSummary {
  messageCount : Z;
  summary_startTime : Z;
  lastMessage : option Message
}.

(** [getConversationSummary(tabId)]; [None] is [null]. *)
Definition getConversationSummary (tabId : Z) (svc : Service)
  : option Summary :=
  (λ conversation,
     mkSummary (Z.of_nat (length (messages conversation)))
               (startTime conversation)
               (last (messages conversation)))
    <$> conversations svc !! tabId.

(** [clearConversation(tabId)] *)
Definition clearConversation (tabId : Z) (svc : Service) : Service :=
  set_conversations (delete tabId (conversations svc)) svc.

(** [createStream(tabId)] *)
Definition createStream (now : Z) (tabId : Z) (svc : Service)
  : Service * JSString :=
  let streamId := of_Z tabId ++ js "-" ++ of_Z now in
  (mkService (conversations svc) (apiKey svc) (rateLimiter svc)
             ({[streamId]} ∪ activeStreams svc),
   streamId).

(** [abortTabStreams(tabId)] *)
Definition abortTabStreams (tabId : Z) (svc : Service) : Service :=
  mkService (conversations svc) (apiKey svc) (rateLimiter svc)
    (filter (λ streamId, startsWith (of_Z tabId ++ js "-") streamId = false)
            (activeStreams svc)).

(** The listener of [chrome.tabs.onRemoved]. *)
Definition on_tab_removed (tabId : Z) (svc : Service) : Service :=
  abortTabStreams tabId (clearConversation tabId svc).

(** The clean-up that runs every ten minutes: conversations started more
    than an hour ago are deleted. *)
Definition cleanup_conversations (now : Z) (svc : Service) : Service :=
  set_conversations
    (filter (λ kv, ¬ (startTime (snd kv) < now - 60 * 60 * 1000))
            (conversations svc))
    svc.

(** The stream id that the popup sends with its request:
    [Date.now().toString()]. *)
Definition popup_stream_id (now : Z) : JSString := of_Z now.

End ServiceMore.

(** ** Service worker: the status of the streams *)

Module Status.

(** The value of a character as a digit of the radix, if it is one. *)
Definition digit_value (radix : Z) (c : N) : option Z :=
  let v :=
    if ((48 <=? c) && (c <=? 57))%N then Some (Z.of_N c - 48)
    else if ((97 <=? c) && (c <=? 122))%N then Some (Z.of_N c - 87)
    else if ((65 <=? c) && (c <=? 90))%N then Some (Z.of_N c - 55)
    else None in
  match v with
  | Some d => if d <? radix then Some d else None
  | None => None
  end.

(** The value of the longest prefix of digits; [acc] is the value read
    so far, [None] while no digit has been read. *)
Fixpoint parse_radix (radix : Z) (acc : option Z) (s : JSString) : option Z :=
  match s with
  | [] => acc
  | c :: s' =>
      match digit_value radix c with
      | Some d => parse_radix radix (Some (radix * default 0 acc + d)) s'
      | None => acc
      end
  end.

(** [parseInt(s)] without a radix; [None] is [NaN]. Leading white space
    is skipped, then a sign and a [0x] or [0X] prefix are read. The
    source yields a double, which is this integer up to 2^53. *)
Definition parseInt (s : JSString) : option Z :=
  let s0 := drop_ws s in
  let '(sign, s1) :=
    match s0 with
    | 45%N :: r => (-1, r)
    | 43%N :: r => (1, r)
    | _ => (1, s0)
    end in
  let '(radix, s2) :=
    match s1 with
    | 48%N :: 120%N :: r => (16, r)
    | 48%N :: 88%N :: r => (16, r)
    | _ => (10, s1)
    end in
  (λ n, sign * n) <$> parse_radix radix None s2.

(** An entry of the list that [getActiveStreams] returns; a number that is
    [NaN] is [None]. *)
Record StreamStatus := mkStreamStatus {
  status_streamId : JSString;
  status_tabId : option Z;
  status_startTime : option Z;
  status_duration : option Z
}.

(** The body of the loop of [getActiveStreams()]: the entry pushed for
    one stream id. The parts of an id that are missing are [undefined],
    which [parseInt] reads as the text of that name. *)
Definition getActiveStreams_entry (now : Z) (streamId : JSString)
  : StreamStatus :=
  let pieces := split_on 45%N streamId in
  let parse (piece : option JSString) :=
    parseInt (default (js "undefined") piece) in
  mkStreamStatus streamId
                 (parse (pieces !! 0%nat))
                 (parse (pieces !! 1%nat))
                 ((λ timestamp, now - timestamp) <$> parse (pieces !! 1%nat)).

End Status.

Export Status.

(** ** Service worker: start *)

(** The limiter of a service worker that is started again:
    [new AIAvatarService()] creates it with [new RateLimiter()], over the
    store as it is. *)
Definition restart (w : World) : World :=
  mkWorld (constructor None None) (storage w) [].

(** ** Further vocabulary *)

Section Observations.

Context `{Platform}.

(** The world after a run of admission checks, each with its own clock,
    storage fate and request. *)
Definition after_checks (cs : list (Z * bool * RequestInfo)) (w : World)
  : World :=
  foldl (λ w c, snd (checkRequest c.1.1 c.1.2 c.2 w)) w cs.

(** The sum of an integer counter over the entries of a
    [modelBreakdown]. *)
Definition breakdown_sum (f : Counters → Z) (m : gmap JSString Counters) : Z :=
  map_fold (λ _ c acc, f c + acc) 0 m.

(** The counts of a scope are the sums of the counts of its
    [modelBreakdown]. *)
Definition breakdown_agrees (s : Scope) : Prop :=
  breakdown_sum c_requests (sc_modelBreakdown s)
  = c_requests (sc_counters s) ∧
  breakdown_sum (λ c, tk_prompt (c_tokens c)) (sc_modelBreakdown s)
  = tk_prompt (c_tokens (sc_counters s)) ∧
  breakdown_sum (λ c, tk_completion (c_tokens c)) (sc_modelBreakdown s)
  = tk_completion (c_tokens (sc_counters s)) ∧
  breakdown_sum (λ c, tk_total (c_tokens c)) (sc_modelBreakdown s)
  = tk_total (c_tokens (sc_counters s)).

(** The request counts of a ledger: none is negative, the lifetime count
    bounds the daily and the monthly one and the length of the per-minute
    window. *)
Definition requests_bounded (u : Usage) : Prop :=
  let n s := c_requests (sc_counters s) in
  0 <= n (daily u) <= n (lifetime u) ∧
  0 <= n (monthly u) <= n (lifetime u) ∧
  Z.of_nat (length (mn_requests (minutely u))) <= n (lifetime u).

(** A scope is within the limits that are in force for it. *)
Definition within (ls : PeriodLimits) (s : Scope) : Prop :=
  (∀ n, truthyZ (lim_tokens ls) = Some n →
        tk_total (c_tokens (sc_counters s)) <= n) ∧
  (∀ n, truthyZ (lim_requests ls) = Some n →
        c_requests (sc_counters s) <= n) ∧
  (∀ q, truthyQc (lim_cost ls) = Some q → (c_cost (sc_counters s) <= q)%Qc).

(** A message that ends a stream for the popup: [streamError] or
    [streamComplete]. *)
Definition is_settlement (m : Sent) : bool :=
  match m with
  | StreamError _ _ _ | StreamComplete _ _ _ _ _ => true
  | _ => false
  end.

(** The number that a string of decimal digits denotes. *)
Definition decimal_value (s : JSString) : Z :=
  foldl (λ acc c, 10 * acc + (Z.of_N c - 48)) 0 s.

(** The character [-]. *)
Definition hyphen : N := 45%N.

(** A decimal digit. *)
Definition is_decimal (c : N) : Prop := (48 <= c <= 57)%N.

End Observations.

(** ** Further concrete inputs *)

Module Cases.

Import V8 Scenario.

(** The default limits with one request per minute. *)
Definition one_per_minute : Limits :=
  mkLimits (lim_daily default_limits) (lim_monthly default_limits) (LNum 1).

(** A limiter with that limit after one recording on [day1]. *)
Definition after_one : World :=
  snd (recordUsage day1 true (mkUsageInfo (js "gpt-4") 90 5)
         (mkWorld (constructor None (Some one_per_minute)) None [])).

(** The ledger of a world; the empty ledger of time 0 where it has
    none. *)
Definition ledger (w : World) : Usage :=
  default (createEmptyUsage 0) (usage (rl w)).

(** The service of [Scenario] with the limiter [after_one], whose
    per-minute window is full. *)
Definition throttled : Service :=
  mkService ∅ (Some (js "sk-test")) after_one ∅.

(** A service with a conversation of two messages for tab 7, started on
    [day1]. *)
Definition chatting : Service :=
  mkService
    {[ 7 := mkConversation
              [mkMessage (js "user") (js "Hi");
               mkMessage (js "assistant") (js "Hello")]
              None day1 ]}
    (Some (js "sk-test")) ready ∅.

(** A service with one stream registered under an id of the popup. *)
Definition streaming : Service :=
  mkService ∅ (Some (js "sk-test")) ready {[popup_stream_id day1]}.

(** An answer of the model with its usage record. *)
Definition hello_usage : TokenUsage := mkTokenUsage 9 2 (Some 11).
Definition answered : CallOutcome := CallOk (js "Hello") (Some hello_usage).

(** A response that is not ok, with the message of its error body. *)
Definition overloaded : CallOutcome :=
  CallNotOk (Some (js "The server is overloaded.")).

Definition storage_error : JSError :=
  mkJSError (js "Error") (js "QUOTA_BYTES quota exceeded").

(** One read in time, then a read of forty seconds. *)
Definition slow_second_read : list Read :=
  [ mkRead 0 (Some 120) (ReadValue frame_Hel);
    mkRead 0 (Some 40000) (ReadValue frame_lo) ].

(** A service without an API key. *)
Definition keyless : Service := mkService ∅ None ready ∅.

End Cases.

(** ** Properties of the usage ledger *)

Section LedgerInvariant.

Context `{Platform}.

Lemma empty_scope_ok key : scope_ok (empty_scope key).
Proof.
  split; [reflexivity|].
  intros model cs Hl. cbn in Hl. rewrite lookup_empty in Hl. discriminate.
Qed.

Lemma createEmptyUsage_ok now : usage_ok (createEmptyUsage now).
Proof. split; [|split]; apply empty_scope_ok. Qed.

Lemma add_counters_ok p c cost cs :
  tokens_ok (c_tokens cs) →
  tokens_ok (c_tokens (add_counters p c (p + c) cost cs)).
Proof. unfold tokens_ok. cbn. lia. Qed.

Lemma add_to_scope_ok model p c cost s :
  scope_ok s → scope_ok (add_to_scope model p c (p + c) cost s).
Proof.
  intros [Hs Hm]. split.
  - apply add_counters_ok, Hs.
  - intros m cs. cbn. rewrite lookup_insert_Some.
    intros [[_ <-] | [_ Hl]]; [|by eapply Hm].
    apply add_counters_ok.
    destruct (sc_modelBreakdown s !! model) as [e|] eqn:He; cbn.
    + by eapply Hm.
    + reflexivity.
Qed.

Lemma recordUsage_body_ok now ms usageInfo u :
  usage_ok u → usage_ok (fst (recordUsage_body now ms usageInfo u)).
Proof.
  intros (Hd & Hm & Hl). unfold recordUsage_body.
  destruct (calculateCost _ _ _ _) as [cost out]. cbn.
  split; [|split]; cbn; apply add_to_scope_ok; assumption.
Qed.

Lemma checkAndResetPeriods_body_ok now u :
  usage_ok u → usage_ok (fst (checkAndResetPeriods_body now u)).
Proof.
  intros (Hd & Hm & Hl). unfold checkAndResetPeriods_body.
  repeat case_bool_decide; cbn; (split; [|split]); cbn;
    solve [assumption | apply empty_scope_ok].
Qed.

Lemma resetUsage_body_ok now period u :
  usage_ok u → usage_ok (resetUsage_body now period u).
Proof.
  intros (Hd & Hm & Hl).
  destruct period; cbn; (split; [|split]); cbn;
    solve [assumption | apply empty_scope_ok].
Qed.

Lemma set_usage_ok u w :
  usage_ok u → world_ok w → world_ok (set_usage (Some u) w).
Proof.
  intros Hu [_ Hs]. split; cbn; [|exact Hs].
  intros u' [= <-]. exact Hu.
Qed.

Lemma set_initialized_ok w : world_ok w → world_ok (set_initialized w).
Proof. intros [Hm Hs]. split; cbn; assumption. Qed.

Lemma print_ok out w : world_ok w → world_ok (print out w).
Proof. intros [Hm Hs]. split; cbn; assumption. Qed.

Lemma saveUsage_ok ok w : world_ok w → world_ok (saveUsage ok w).
Proof.
  intros [Hm Hs]. unfold saveUsage. destruct ok; [|by split].
  split; cbn; assumption.
Qed.

Lemma initialize_catch_ok now w :
  world_ok w → world_ok (initialize_catch now w).
Proof.
  intros Hw. unfold initialize_catch.
  apply set_initialized_ok, set_usage_ok, print_ok, Hw.
  apply createEmptyUsage_ok.
Qed.

Lemma initialize_call_ok ok w pc :
  world_ok w → initialize_call ok w = Some pc → initpc_ok pc.
Proof.
  intros [_ Hs]. unfold initialize_call.
  destruct (initialized (rl w)); [discriminate|].
  intros [= <-]. destruct ok; cbn; [|exact I].
  destruct (storage w) as [u|] eqn:E; [|exact I]. by apply Hs.
Qed.

Lemma initialize_resume_ok now ok pc w :
  world_ok w → initpc_ok pc →
  world_ok (snd (initialize_resume now ok pc w)) ∧
  ∀ pc', fst (initialize_resume now ok pc w) = Some pc' → initpc_ok pc'.
Proof.
  intros Hw Hpc.
  destruct pc as [[[stored|]|]|[]|[]]; cbn.
  - pose proof (checkAndResetPeriods_body_ok now stored Hpc) as Hr.
    destruct (checkAndResetPeriods_body now stored) as [u needsSave].
    cbn in Hr. destruct needsSave; cbn.
    + split; [|by intros pc' [= <-]].
      by apply saveUsage_ok, set_usage_ok.
    + split; [|by intros pc' [= <-]]. by apply set_usage_ok.
  - split; [|by intros pc' [= <-]].
    apply saveUsage_ok, set_usage_ok; [apply createEmptyUsage_ok|exact Hw].
  - split; [|discriminate]. by apply initialize_catch_ok.
  - split; [|discriminate]. by apply set_initialized_ok.
  - split; [|discriminate]. by apply initialize_catch_ok.
  - split; [|discriminate]. by apply set_initialized_ok.
  - split; [|discriminate]. by apply initialize_catch_ok.
Qed.

Lemma recordUsage_step_ok now ok usageInfo pc w :
  world_ok w → rupc_ok pc →
  world_ok (snd (recordUsage_step now ok usageInfo pc w)) ∧
  rupc_ok (fst (recordUsage_step now ok usageInfo pc w)).
Proof.
  intros Hw Hpc. destruct pc as [|ipc| | |]; cbn; try (split; [exact Hw|exact I]).
  - split; [exact Hw|].
    destruct (initialize_call ok w) as [pc'|] eqn:E; cbn; [|exact I].
    by eapply initialize_call_ok.
  - destruct (initialize_resume_ok now ok ipc w Hw Hpc) as [H1 H2].
    destruct (initialize_resume now ok ipc w) as [o w1]. cbn in *.
    split; [exact H1|]. destruct o; cbn; [by apply H2|exact I].
  - destruct (usage (rl w)) as [u|] eqn:E; [|by split].
    pose proof (recordUsage_body_ok now (models (rl w)) usageInfo u) as Hr.
    destruct (recordUsage_body now (models (rl w)) usageInfo u) as [u1 out].
    cbn in *. split; [|exact I].
    apply saveUsage_ok, set_usage_ok, print_ok, Hw.
    apply Hr. destruct Hw as [Hm _]. by apply Hm.
Qed.

Lemma checkRequest_step_ok now ok requestInfo pc w :
  world_ok w → crpc_ok pc →
  world_ok (snd (checkRequest_step now ok requestInfo pc w)) ∧
  crpc_ok (fst (checkRequest_step now ok requestInfo pc w)).
Proof.
  intros Hw Hpc. destruct pc as [|ipc| |]; cbn; try (split; [exact Hw|exact I]).
  - split; [exact Hw|].
    destruct (initialize_call ok w) as [pc'|] eqn:E; cbn; [|exact I].
    by eapply initialize_call_ok.
  - destruct (initialize_resume_ok now ok ipc w Hw Hpc) as [H1 H2].
    destruct (initialize_resume now ok ipc w) as [o w1]. cbn in *.
    split; [exact H1|]. destruct o; cbn; [by apply H2|exact I].
  - destruct (usage (rl w)) as [u|] eqn:E; [|by split].
    destruct (checkRequest_body now (rl w) u requestInfo) as [res out].
    cbn. split; [|exact I]. by apply print_ok.
Qed.

Lemma resetUsage_step_ok now ok period pc w :
  world_ok w → rspc_ok pc →
  world_ok (snd (resetUsage_step now ok period pc w)) ∧
  rspc_ok (fst (resetUsage_step now ok period pc w)).
Proof.
  intros Hw Hpc. destruct pc as [|ipc| | |]; cbn; try (split; [exact Hw|exact I]).
  - split; [exact Hw|].
    destruct (initialize_call ok w) as [pc'|] eqn:E; cbn; [|exact I].
    by eapply initialize_call_ok.
  - destruct (initialize_resume_ok now ok ipc w Hw Hpc) as [H1 H2].
    destruct (initialize_resume now ok ipc w) as [o w1]. cbn in *.
    split; [exact H1|]. destruct o; cbn; [by apply H2|exact I].
  - destruct (usage (rl w)) as [u|] eqn:E; [|by split].
    cbn. split; [|exact I].
    apply saveUsage_ok, set_usage_ok; [|exact Hw].
    apply resetUsage_body_ok. destruct Hw as [Hm _]. by apply Hm.
Qed.

Lemma run_alone_ok {Pc : Type} (pc_ok : Pc → Prop)
    (step : Pc → World → Pc * World) :
  (∀ pc w, world_ok w → pc_ok pc →
           world_ok (snd (step pc w)) ∧ pc_ok (fst (step pc w))) →
  ∀ pc w, world_ok w → pc_ok pc → world_ok (snd (run_alone step pc w)).
Proof.
  intros Hstep pc w Hw Hpc. unfold run_alone.
  enough (∀ n, world_ok (snd (Nat.iter n (λ s, step (fst s) (snd s)) (pc, w)))
               ∧ pc_ok (fst (Nat.iter n (λ s, step (fst s) (snd s)) (pc, w))))
    as Hn by apply Hn.
  induction n as [|n [IH1 IH2]]; cbn; [by split|].
  by apply Hstep.
Qed.

Lemma reachable_ok u : reachable u → usage_ok u.
Proof.
  induction 1.
  - apply createEmptyUsage_ok.
  - by apply recordUsage_body_ok.
  - by apply checkAndResetPeriods_body_ok.
  - by apply resetUsage_body_ok.
Qed.

Lemma reachable_world_ok w : reachable_world w → world_ok w.
Proof.
  induction 1.
  - split; cbn; discriminate.
  - apply (run_alone_ok crpc_ok); auto using checkRequest_step_ok. exact I.
  - apply (run_alone_ok rupc_ok); auto using recordUsage_step_ok. exact I.
  - apply (run_alone_ok rspc_ok); auto using resetUsage_step_ok. exact I.
Qed.

(** C3. In every ledger reachable from the empty one, each of the daily,
    monthly and lifetime scopes and every entry of their modelBreakdown
    maps has tokens.total = tokens.prompt + tokens.completion: the empty
    ledger has it, and recordUsage, the period rollover and resetUsage
    keep it, both on the ledger alone and on the limiter with its
    store. *)
Theorem C3_token_invariant :
  (∀ now, usage_ok (createEmptyUsage now)) ∧
  (∀ now ms usageInfo u,
     usage_ok u → usage_ok (fst (recordUsage_body now ms usageInfo u))) ∧
  (∀ now u, usage_ok u → usage_ok (fst (checkAndResetPeriods_body now u))) ∧
  (∀ now period u, usage_ok u → usage_ok (resetUsage_body now period u)) ∧
  (∀ u, reachable u → usage_ok u) ∧
  (∀ w, reachable_world w → world_ok w).
Proof.
  split; [exact createEmptyUsage_ok|].
  split; [exact recordUsage_body_ok|].
  split; [exact checkAndResetPeriods_body_ok|].
  split; [exact resetUsage_body_ok|].
  split; [exact reachable_ok|exact reachable_world_ok].
Qed.

End LedgerInvariant.

(** ** Properties of the admission check *)

Section Admission.

Context `{Platform}.

Lemma checkPeriodLimits_kind Name kt kr kc s ls tokens cost :
  limitType_of (checkPeriodLimits Name kt kr kc s ls tokens cost) =
  first_violated
    [ (kt, overZ (lim_tokens ls)
                 (tk_total (c_tokens (sc_counters s)) + tokens));
      (kr, overZ (lim_requests ls) (c_requests (sc_counters s) + 1));
      (kc, overQc (lim_cost ls) (c_cost (sc_counters s) + cost)%Qc) ].
Proof.
  unfold checkPeriodLimits, first_violated. cbn.
  repeat (destruct (overZ _ _) || destruct (overQc _ _)); reflexivity.
Qed.





Lemma checkRequest_body_allowed now r u requestInfo :
  let promptTokens := countTokens (ri_prompt requestInfo) in
  let completion := default 500 (ri_estimatedCompletion requestInfo) in
  let cost :=
    fst (calculateCost (models r) (ri_model requestInfo) promptTokens
                       completion) in
  allowed (fst (checkRequest_body now r u requestInfo)) =
  allowed (checkMinuteLimit now (limits r) u)
  && allowed (checkDailyLimits (limits r) u (promptTokens + completion) cost)
  && allowed (checkMonthlyLimits (limits r) u (promptTokens + completion) cost)
  && match models r !! ri_model requestInfo with
     | Some modelConfig =>
         negb (bool_decide (mc_contextWindow modelConfig < promptTokens))
     | None => true
     end.
Proof.
  cbn zeta. unfold checkRequest_body.
  destruct (calculateCost _ _ _ _) as [cost out]. cbn [fst].
  destruct (allowed (checkMinuteLimit now (limits r) u)) eqn:Em; cbn.
  2:{ exact Em. }
  destruct (allowed (checkDailyLimits _ _ _ _)) eqn:Ed; cbn.
  2:{ exact Ed. }
  destruct (allowed (checkMonthlyLimits _ _ _ _)) eqn:Emo; cbn.
  2:{ exact Emo. }
  destruct (models r !! ri_model requestInfo); [|reflexivity].
  destruct (bool_decide _); reflexivity.
Qed.


(** *** Cost *)

Lemma Z2Qc_nonneg n : 0 <= n → (0 <= Z2Qc n)%Qc.
Proof.
  intros Hn. unfold Z2Qc, Qcle. cbn.
  apply Qle_trans with (inject_Z n).
  - change (inject_Z 0 <= inject_Z n)%Q. rewrite <- Zle_Qle. exact Hn.
  - apply Qle_lteq. right. symmetry. apply Qred_correct.
Qed.

Lemma per_thousand_nonneg n : 0 <= n → (0 <= Z2Qc n / Z2Qc 1000)%Qc.
Proof.
  intros Hn. unfold Qcdiv. apply Qcmult_nonneg_nonneg.
  - by apply Z2Qc_nonneg.
  - unfold Qcle. vm_compute. discriminate.
Qed.

Lemma countTokens_nonneg text : 0 <= countTokens text.
Proof.
  unfold countTokens. case_bool_decide; [lia|].
  rewrite <- (Qceiling_Z 0). apply Qceiling_resp_le.
  assert (inject_Z 0 <= inject_Z (Z.of_nat (length (split_ws text))))%Q
    as Hw by (rewrite <- Zle_Qle; lia).
  assert (inject_Z 0 <= inject_Z (len text))%Q
    as Hc by (rewrite <- Zle_Qle; unfold len; lia).
  change (inject_Z 0) with 0%Q in *.
  change (inject_Z 4) with 4%Q. change (inject_Z 2) with 2%Q.
  generalize dependent (inject_Z (Z.of_nat (length (split_ws text)))).
  generalize dependent (inject_Z (len text)).
  intros c Hc w Hw.
  apply Qle_shift_div_l; [reflexivity|].
  apply Qle_trans with (0 + 0)%Q; [apply Qle_refl|].
  apply Qplus_le_compat.
  - apply Qmult_le_0_compat; [exact Hw|discriminate].
  - apply Qle_shift_div_l; [reflexivity|]. exact Hc.
Qed.

Lemma calculateCost_nonneg ms model p c :
  (∀ mc, ms !! model = Some mc → nonneg_prices mc) →
  0 <= p → 0 <= c → (0 <= fst (calculateCost ms model p c))%Qc.
Proof.
  intros Hmc Hp Hc. unfold calculateCost.
  destruct (ms !! model) as [mc|]; cbn; [|apply Qcle_refl].
  destruct (Hmc mc eq_refl) as [H1 H2].
  apply Qcplus_nonneg_nonneg; apply Qcmult_nonneg_nonneg;
    auto using per_thousand_nonneg.
Qed.

Lemma overQc_mono l v v' :
  (v <= v')%Qc → overQc l v' = false → overQc l v = false.
Proof.
  unfold overQc. destruct (truthyQc l) as [q|]; [|done].
  rewrite !bool_decide_eq_false. intros Hle Hn Hlt. apply Hn.
  eapply Qclt_le_trans; eassumption.
Qed.

Lemma checkPeriodLimits_mono Name kt kr kc s ls tokens cost cost' :
  (cost <= cost')%Qc →
  allowed (checkPeriodLimits Name kt kr kc s ls tokens cost') = true →
  allowed (checkPeriodLimits Name kt kr kc s ls tokens cost) = true.
Proof.
  intros Hle. unfold checkPeriodLimits.
  destruct (overZ (lim_tokens ls) _); [done|].
  destruct (overZ (lim_requests ls) _); [done|].
  destruct (overQc (lim_cost ls) (_ + cost')%Qc) eqn:E; [done|].
  intros _. erewrite overQc_mono; [done| |exact E].
  by apply Qcplus_le_mono_l.
Qed.

(** C6. For a model in the pricing table the cost is promptTokens/1000
    times its prompt rate plus completionTokens/1000 times its completion
    rate, and nothing is logged; rates 0.03 and 0.06 with 1000 prompt and
    500 completion tokens give 0.06. For a model that is not in the table
    the cost is 0 and a warning is logged. The absence of a price never
    makes the admission check deny: a request that is allowed once a
    price (not negative) is added for its model is allowed without it. *)
Theorem C6_cost :
  (∀ ms model modelConfig promptTokens completionTokens,
     ms !! model = Some modelConfig →
     calculateCost ms model promptTokens completionTokens =
     ((Z2Qc promptTokens / Z2Qc 1000 * mc_prompt modelConfig
       + Z2Qc completionTokens / Z2Qc 1000 * mc_completion modelConfig)%Qc,
      [])) ∧
  (∀ ms model contextWindow,
     ms !! model
     = Some (mkModelConfig (Qc_of 3 100) (Qc_of 6 100) contextWindow) →
     fst (calculateCost ms model 1000 500) = Qc_of 6 100) ∧
  (∀ ms model promptTokens completionTokens,
     ms !! model = None →
     calculateCost ms model promptTokens completionTokens =
     (0%Qc,
      [Warn (js "Unknown model: " ++ model ++ js ". Using default pricing.")]))
  ∧
  (∀ now r u requestInfo modelConfig,
     models r !! ri_model requestInfo = None →
     nonneg_prices modelConfig →
     0 <= default 500 (ri_estimatedCompletion requestInfo) →
     allowed (fst (checkRequest_body now
                     (with_models (<[ri_model requestInfo := modelConfig]>
                                     (models r)) r)
                     u requestInfo)) = true →
     allowed (fst (checkRequest_body now r u requestInfo)) = true).
Proof.
  split; [|split; [|split]].
  - intros ms model mc p c Hl. unfold calculateCost. by rewrite Hl.
  - intros ms model cw Hl. unfold calculateCost. rewrite Hl. cbn.
    apply Qc_is_canon. reflexivity.
  - intros ms model p c Hl. unfold calculateCost. by rewrite Hl.
  - intros now r u requestInfo mc Hnone Hmc Hc.
    rewrite !checkRequest_body_allowed. cbn [models limits with_models].
    rewrite Hnone, lookup_insert_eq.
    set (p := countTokens (ri_prompt requestInfo)).
    set (c := default 500 (ri_estimatedCompletion requestInfo)).
    assert (fst (calculateCost (models r) (ri_model requestInfo) p c)
            <= fst (calculateCost (<[ri_model requestInfo := mc]> (models r))
                      (ri_model requestInfo) p c))%Qc as Hle.
    { unfold calculateCost at 1. rewrite Hnone. cbn [fst].
      apply calculateCost_nonneg; [|apply countTokens_nonneg|exact Hc].
      intros mc'. rewrite lookup_insert_eq. by intros [= <-]. }
    rewrite !andb_true_iff. intros [[[Hmin Hd] Hmo] _].
    repeat split; [exact Hmin| |].
    + unfold checkDailyLimits in *. eapply checkPeriodLimits_mono; eassumption.
    + unfold checkMonthlyLimits in *.
      eapply checkPeriodLimits_mono; eassumption.
Qed.

End Admission.

(** ** Properties of the stream decoder *)

Section Decoder.

Context `{Platform}.

Lemma running_snoc acc ds d :
  running acc (ds ++ [d]) = running acc ds ++ [(d, acc ++ concat ds ++ d)].
Proof.
  revert acc. induction ds as [|x ds IH]; intros acc; cbn.
  - reflexivity.
  - rewrite IH. by rewrite <- !(assoc_L (++)).
Qed.

Lemma decoder_init_inv : decoder_inv decoder_init.
Proof. by split. Qed.

Lemma say_inv l d : decoder_inv d → decoder_inv (say l d).
Proof. by intros [H1 H2]. Qed.

Lemma set_tokenUsage_inv u d : decoder_inv d → decoder_inv (set_tokenUsage u d).
Proof. by intros [H1 H2]. Qed.

Lemma set_buffer_inv b d : decoder_inv d → decoder_inv (set_buffer b d).
Proof. by intros [H1 H2]. Qed.

Lemma handle_frame_content opts parsed d chunk :
  has_onChunk opts = true →
  delta_content parsed = Some chunk → chunk ≠ [] →
  accumulatedContent (handle_frame opts parsed d)
  = accumulatedContent d ++ chunk ∧
  emitted (handle_frame opts parsed d)
  = emitted d ++ [OnChunk chunk (accumulatedContent d ++ chunk)].
Proof.
  intros Ho Hc Hne. unfold handle_frame. rewrite Hc, Ho.
  rewrite bool_decide_eq_false_2 by exact Hne.
  destruct (finish_reason parsed) as [fr|];
    [case_bool_decide|]; destruct (frame_usage parsed); by cbn.
Qed.

Lemma handle_frame_silent opts parsed d :
  (delta_content parsed = None ∨ delta_content parsed = Some []) →
  accumulatedContent (handle_frame opts parsed d) = accumulatedContent d ∧
  emitted (handle_frame opts parsed d) = emitted d.
Proof.
  intros Hc. unfold handle_frame.
  destruct Hc as [-> | ->]; cbn;
    (destruct (finish_reason parsed) as [fr|];
     [case_bool_decide|]; destruct (frame_usage parsed); by cbn).
Qed.

Lemma handle_frame_inv opts parsed d :
  has_onChunk opts = true →
  decoder_inv d → decoder_inv (handle_frame opts parsed d).
Proof.
  intros Ho [H1 H2]. unfold decoder_inv.
  destruct (delta_content parsed) as [chunk|] eqn:Ec.
  - destruct (decide (chunk = [])) as [->|Hne].
    + destruct (handle_frame_silent opts parsed d) as [-> ->]; auto.
    + destruct (handle_frame_content opts parsed d chunk) as [-> ->]; auto.
      unfold chunks, deltas in *. rewrite !omap_app. cbn.
      rewrite running_snoc, H1, H2, concat_app. cbn.
      by rewrite H2, app_nil_r.
  - destruct (handle_frame_silent opts parsed d) as [-> ->]; auto.
Qed.

Lemma process_line_inv opts d line :
  has_onChunk opts = true →
  decoder_inv d → decoder_inv (process_line opts d line).
Proof.
  intros Ho Hd. unfold process_line.
  repeat (case_bool_decide || destruct (startsWith _ _)); try assumption.
  destruct (JSON_parse _); [by apply handle_frame_inv|by apply say_inv].
Qed.

Lemma process_chunk_inv opts d text :
  has_onChunk opts = true →
  decoder_inv d → decoder_inv (process_chunk opts d text).
Proof.
  intros Ho Hd. unfold process_chunk.
  generalize (removelast (split_on 10%N (buffer d ++ text))).
  generalize (set_buffer_inv (List.last (split_on 10%N (buffer d ++ text)) [])
                             d Hd).
  generalize (set_buffer (List.last (split_on 10%N (buffer d ++ text)) []) d).
  intros d0 Hd0 lines. revert d0 Hd0.
  induction lines as [|line lines IH]; intros d0 Hd0; cbn; [exact Hd0|].
  by apply IH, process_line_inv.
Qed.

Lemma read_loop_inv opts reads d :
  has_onChunk opts = true →
  decoder_inv d → decoder_inv (fst (read_loop opts reads d)).
Proof.
  intros Ho. revert d.
  induction reads as [|r reads IH]; intros d Hd; cbn.
  - by destruct (loop_turn opts silent_read).
  - destruct (loop_turn opts r); [exact Hd|].
    by apply IH, process_chunk_inv.
Qed.

Lemma process_remaining_same d :
  accumulatedContent (process_remaining d) = accumulatedContent d ∧
  emitted (process_remaining d) = emitted d.
Proof.
  unfold process_remaining.
  destruct (_ && _); [|done]. case_bool_decide; [done|].
  destruct (JSON_parse _) as [parsed|]; [|done].
  by destruct (frame_usage parsed).
Qed.

Lemma deltas_emit present e d :
  (∀ c a, e ≠ OnChunk c a) →
  deltas (emitted (emit present e d)) = deltas (emitted d) ∧
  chunks (emitted (emit present e d)) = chunks (emitted d).
Proof.
  intros He. unfold emit. destruct present; [|done]. cbn.
  unfold deltas, chunks. rewrite !omap_app. cbn.
  destruct e; [by edestruct He| |]; by rewrite !app_nil_r.
Qed.

Lemma complete_chunks msgs opts d :
  decoder_inv d →
  let run := complete msgs opts d in
  chunks (events run) = running [] (deltas (events run)) ∧
  ∀ result_content result_usage,
    outcome run = Returned result_content result_usage →
    concat (deltas (events run)) = result_content ∧
    (has_onComplete opts = true →
     last (events run) = Some (OnComplete result_content result_usage)).
Proof.
  intros [H1 H2]. cbn zeta. unfold complete.
  destruct (process_remaining_same d) as [Ea Ee].
  set (u := estimate_usage _ _ _).
  set (e := OnComplete _ u).
  assert (∀ c a, e ≠ OnChunk c a) as He by done.
  destruct (deltas_emit (has_onComplete opts) e (process_remaining d) He)
    as [Ed Ec].
  cbn [events outcome]. rewrite Ed, Ec, Ee, Ea. split; [exact H1|].
  intros rc ru [= <- <-]. split; [exact H2|].
  intros ->. unfold emit. cbn. rewrite last_snoc. subst e.
  by rewrite Ea.
Qed.

Lemma catch_error_chunks opts error d :
  decoder_inv d →
  let run := catch_error opts error d in
  chunks (events run) = running [] (deltas (events run)) ∧
  outcome run = Threw error.
Proof.
  intros [H1 H2]. cbn zeta. unfold catch_error.
  case_bool_decide.
  - set (e := OnError _).
    assert (∀ c a, e ≠ OnChunk c a) as He by done.
    destruct (deltas_emit (has_onError opts) e
                (say (Log (js "Stream aborted by user")) d) He) as [Ed Ec].
    cbn [events outcome]. by rewrite Ed, Ec.
  - set (e := OnError _).
    assert (∀ c a, e ≠ OnChunk c a) as He by done.
    destruct (deltas_emit (has_onError opts) e
                (say (Error (js "Stream error:")) d) He) as [Ed Ec].
    cbn [events outcome]. by rewrite Ed, Ec.
Qed.

Lemma callOpenAIStream_chunks msgs opts net :
  has_onChunk opts = true →
  let run := callOpenAIStream msgs opts net in
  chunks (events run) = running [] (deltas (events run)) ∧
  ∀ result_content result_usage,
    outcome run = Returned result_content result_usage →
    concat (deltas (events run)) = result_content ∧
    (has_onComplete opts = true →
     last (events run) = Some (OnComplete result_content result_usage)).
Proof.
  intros Ho. cbn zeta. unfold callOpenAIStream.
  destruct net as [e| |status body reads].
  - destruct (catch_error_chunks opts e decoder_init decoder_init_inv)
      as [Hc Hout].
    split; [exact Hc|]. intros c u. rewrite Hout. discriminate.
  - split; [reflexivity|discriminate].
  - destruct (response_ok status).
    + pose proof (read_loop_inv opts reads decoder_init Ho decoder_init_inv)
        as Hinv.
      destruct (read_loop opts reads decoder_init) as [d [|e|]]; cbn in Hinv.
      * by apply complete_chunks.
      * destruct (catch_error_chunks opts e d Hinv) as [Hc Hout].
        split; [exact Hc|]. intros c u. rewrite Hout. discriminate.
      * split; [apply Hinv|discriminate].
    + destruct (catch_error_chunks opts
                  (new_Error (http_error_message status body))
                  decoder_init decoder_init_inv) as [Hc Hout].
      split; [exact Hc|]. intros c u. rewrite Hout. discriminate.
Qed.

Lemma loop_turn_in_time_text opts r text :
  in_time r → result r = ReadValue text → loop_turn opts r = inr text.
Proof.
  intros (Hb & t & Hw & Ht) Hr. unfold loop_turn, await_read.
  rewrite bool_decide_eq_false_2 by lia. rewrite Hw, Hr.
  rewrite bool_decide_eq_false_2 by lia.
  by destruct (has_abortController opts).
Qed.

Lemma loop_turn_in_time_done opts r :
  in_time r → result r = ReadDone → loop_turn opts r = inl ExitDone.
Proof.
  intros (Hb & t & Hw & Ht) Hr. unfold loop_turn, await_read.
  rewrite bool_decide_eq_false_2 by lia. rewrite Hw, Hr.
  rewrite bool_decide_eq_false_2 by lia.
  by destruct (has_abortController opts).
Qed.

(** *** Lines across reads *)

Lemma split_on_nonempty sep s : split_on sep s ≠ [].
Proof.
  destruct s as [|c s]; cbn; [done|].
  destruct (c =? sep)%N; [done|]. by destruct (split_on sep s).
Qed.

Lemma removelast_app_nonempty {A} (l1 l2 : list A) :
  l2 ≠ [] → removelast (l1 ++ l2) = l1 ++ removelast l2.
Proof. intros Hne. by apply removelast_app. Qed.

Lemma last_app_nonempty {A} (l1 l2 : list A) (x : A) :
  l2 ≠ [] → List.last (l1 ++ l2) x = List.last l2 x.
Proof.
  intros Hne. induction l1 as [|a l1 IH]; [done|].
  cbn. rewrite IH. destruct (l1 ++ l2) eqn:E; [|done].
  apply app_eq_nil in E as [_ ->]. done.
Qed.

(** Splitting a text that arrives in two parts: the lines completed by
    the first part, then the split of what it left over followed by the
    second part. *)
Lemma split_on_app sep a b :
  split_on sep (a ++ b)
  = removelast (split_on sep a)
    ++ split_on sep (List.last (split_on sep a) [] ++ b).
Proof.
  induction a as [|c a IH]; [done|].
  cbn [app split_on]. rewrite IH.
  destruct (split_on sep a) as [|p ps] eqn:E;
    [by apply split_on_nonempty in E|].
  destruct (c =? sep)%N eqn:Ec; [reflexivity|].
  destruct ps as [|p' ps]; [|reflexivity].
  cbn. by rewrite Ec.
Qed.

Lemma last_split_on_no_sep sep s : sep ∉ List.last (split_on sep s) [].
Proof.
  induction s as [|c s IH]; cbn; [apply not_elem_of_nil|].
  destruct (split_on sep s) as [|p ps] eqn:E;
    [by apply split_on_nonempty in E|].
  destruct (c =? sep)%N eqn:Ec; [exact IH|].
  destruct ps as [|p' ps]; [|exact IH].
  cbn in *. rewrite not_elem_of_cons. split; [|exact IH].
  intros ->. by rewrite N.eqb_refl in Ec.
Qed.

Lemma split_on_no_sep sep s : sep ∉ s → split_on sep s = [s].
Proof.
  induction s as [|c s IH]; [done|].
  rewrite not_elem_of_cons. intros [Hc Hs]. cbn.
  rewrite (IH Hs). destruct (c =? sep)%N eqn:Ec; [|done].
  apply N.eqb_eq in Ec. congruence.
Qed.

(** The lines that the loop completes over several texts are the complete
    lines of their concatenation, and what it keeps in the buffer is the
    incomplete last line. *)
Lemma complete_lines_app buffer text rest :
  complete_lines (buffer ++ text ++ rest)
  = complete_lines (buffer ++ text)
    ++ complete_lines (List.last (split_on 10%N (buffer ++ text)) [] ++ rest).
Proof.
  unfold complete_lines.
  rewrite (assoc_L (++)), split_on_app.
  apply removelast_app_nonempty, split_on_nonempty.
Qed.


Lemma handle_frame_buffer opts parsed d :
  buffer (handle_frame opts parsed d) = buffer d.
Proof.
  unfold handle_frame, emit.
  destruct (delta_content parsed) as [chunk|];
    [case_bool_decide; [|destruct (has_onChunk opts)]|];
    (destruct (finish_reason parsed) as [fr|];
     [case_bool_decide|]; destruct (frame_usage parsed); by cbn).
Qed.

Lemma process_line_delta opts d line :
  has_onChunk opts = true →
  deltas (emitted (process_line opts d line))
  = deltas (emitted d) ++ option_list (line_delta line) ∧
  buffer (process_line opts d line) = buffer d.
Proof.
  intros Ho. unfold process_line, line_delta.
  repeat (case_bool_decide || destruct (startsWith _ _));
    try (by rewrite app_nil_r).
  destruct (JSON_parse _) as [parsed|]; [|by rewrite app_nil_r].
  split; [|apply handle_frame_buffer].
  destruct (delta_content parsed) as [chunk|] eqn:Ec.
  - case_bool_decide as Hne.
    + subst chunk.
      destruct (handle_frame_silent opts parsed d) as [_ ->]; [by right|].
      by rewrite app_nil_r.
    + destruct (handle_frame_content opts parsed d chunk Ho Ec Hne) as [_ ->].
      unfold deltas. by rewrite omap_app.
  - destruct (handle_frame_silent opts parsed d) as [_ ->]; [by left|].
    by rewrite app_nil_r.
Qed.

Lemma process_lines_delta opts d lines :
  has_onChunk opts = true →
  deltas (emitted (foldl (process_line opts) d lines))
  = deltas (emitted d) ++ omap line_delta lines ∧
  buffer (foldl (process_line opts) d lines) = buffer d.
Proof.
  intros Ho. revert d. induction lines as [|line lines IH]; intros d.
  - by rewrite app_nil_r.
  - cbn [foldl]. destruct (IH (process_line opts d line)) as [-> ->].
    destruct (process_line_delta opts d line Ho) as [-> ->].
    split; [|done]. rewrite <- (assoc_L (++)). f_equal.
    cbn. by destruct (line_delta line).
Qed.

Lemma process_chunk_delta opts d text :
  has_onChunk opts = true →
  deltas (emitted (process_chunk opts d text))
  = deltas (emitted d) ++ omap line_delta (complete_lines (buffer d ++ text)) ∧
  buffer (process_chunk opts d text)
  = List.last (split_on 10%N (buffer d ++ text)) [].
Proof.
  intros Ho. unfold process_chunk, complete_lines.
  by destruct (process_lines_delta opts
                 (set_buffer (List.last (split_on 10%N (buffer d ++ text)) []) d)
                 (removelast (split_on 10%N (buffer d ++ text))) Ho)
    as [-> ->].
Qed.

(** Texts read in time and then the end of the stream: the loop ends, and
    has emitted the deltas of the complete lines of the body, however the
    body is cut into reads. *)
Lemma read_loop_lines opts before r_done rest d :
  has_onChunk opts = true →
  Forall (λ r, in_time r ∧ has_text r) before →
  in_time r_done → result r_done = ReadDone →
  sep_free (buffer d) →
  snd (read_loop opts (before ++ r_done :: rest) d) = ExitDone ∧
  deltas (emitted (fst (read_loop opts (before ++ r_done :: rest) d)))
  = deltas (emitted d)
    ++ omap line_delta (complete_lines (buffer d ++ concat (texts before))).
Proof.
  intros Ho Hbefore Hr Hdone. revert d.
  induction Hbefore as [|r0 before [H0 [text Ht]] Hb IH]; intros d Hfree.
  - cbn. rewrite (loop_turn_in_time_done _ _ Hr Hdone). cbn.
    split; [done|]. rewrite !app_nil_r. unfold complete_lines.
    by rewrite (split_on_no_sep _ _ Hfree), app_nil_r.
  - cbn [app read_loop]. rewrite (loop_turn_in_time_text _ _ _ H0 Ht).
    destruct (process_chunk_delta opts d text Ho) as [Hd Hbuf].
    destruct (IH (process_chunk opts d text)) as [-> ->].
    { rewrite Hbuf. apply last_split_on_no_sep. }
    split; [done|]. rewrite Hd, Hbuf, <- (assoc_L (++)). f_equal.
    unfold texts. cbn. rewrite Ht. cbn. fold (texts before).
    by rewrite complete_lines_app, omap_app.
Qed.

Lemma callOpenAIStream_lines msgs opts status error_body before r_done rest :
  response_ok status = true → has_onChunk opts = true →
  Forall (λ r, in_time r ∧ has_text r) before →
  in_time r_done → result r_done = ReadDone →
  let run :=
    callOpenAIStream msgs opts
      (FetchResponse status error_body (before ++ r_done :: rest)) in
  let emitted_deltas :=
    omap line_delta (complete_lines (concat (texts before))) in
  deltas (events run) = emitted_deltas ∧
  ∃ result_usage,
    outcome run = Returned (concat emitted_deltas) result_usage.
Proof.
  intros Hok Ho Hbefore Hr Hdone. cbn zeta.
  pose proof (callOpenAIStream_chunks msgs opts
                (FetchResponse status error_body (before ++ r_done :: rest)) Ho)
    as [_ Hret].
  unfold callOpenAIStream in *. rewrite Hok in *.
  destruct (read_loop_lines opts before r_done rest decoder_init Ho Hbefore
              Hr Hdone) as [Hexit Hdeltas]; [apply not_elem_of_nil|].
  destruct (read_loop _ _ _) as [d ex]. cbn [fst snd] in *. subst ex.
  cbn in Hdeltas.
  unfold complete in *. cbn [events outcome] in *.
  destruct (Hret _ _ eq_refl) as [Hcat _].
  set (e := OnComplete _ _) in *.
  assert (∀ c a, e ≠ OnChunk c a) as He by done.
  destruct (deltas_emit (has_onComplete opts) e (process_remaining d) He)
    as [Ed _].
  destruct (process_remaining_same d) as [Ea Ee].
  rewrite Ed, Ee in *. rewrite Hdeltas in *. split; [done|].
  eexists. by rewrite <- Hcat.
Qed.

(** *** The session around the decoder *)

Lemma heard_chunks streamOptions es :
  has_onChunk streamOptions = true →
  nchunks (concat (map (forward streamOptions) es)) = chunks es ∧
  ndeltas (concat (map (forward streamOptions) es)) = deltas es ∧
  ∀ r l u, NComplete r l u ∉ concat (map (forward streamOptions) es).
Proof.
  intros Ho. induction es as [|e es (IH1 & IH2 & IH3)]; cbn.
  - split; [done|]. split; [done|]. intros r l u Hin.
    by apply elem_of_nil in Hin.
  - unfold nchunks, ndeltas in *. rewrite !omap_app, IH1, IH2.
    split; [|split].
    + destruct e; cbn; by rewrite ?Ho.
    + destruct e; cbn; by rewrite ?Ho.
    + intros r l u. rewrite elem_of_app. intros [Hin | Hin]; [|by eapply IH3].
      destruct e as [c a|err|c us]; cbn in Hin; rewrite ?Ho in Hin.
      * apply list_elem_of_singleton in Hin. discriminate.
      * apply list_elem_of_singleton in Hin. discriminate.
      * by apply elem_of_nil in Hin.
Qed.

Lemma notify_no_chunk present n ns :
  is_terminal n = true →
  nchunks (ns ++ notify present n) = nchunks ns ∧
  ndeltas (ns ++ notify present n) = ndeltas ns.
Proof.
  intros Hn. unfold nchunks, ndeltas, notify. rewrite !omap_app.
  destruct present; cbn; [|by rewrite !app_nil_r].
  destruct n; [discriminate| |]; by rewrite !app_nil_r.
Qed.

Lemma settle_stream_chunks now_end ok streamOptions tabId conversation msgs
    net svc :
  has_onChunk streamOptions = true →
  let '(svc', notices, res) :=
    settle_stream now_end ok streamOptions tabId conversation
      (callOpenAIStream msgs (inner_options streamOptions) net) svc in
  nchunks notices = running [] (ndeltas notices) ∧
  ∀ response conversationLength usage,
    NComplete response conversationLength usage ∈ notices →
    concat (ndeltas notices) = response.
Proof.
  intros Ho. unfold settle_stream.
  destruct (callOpenAIStream_chunks msgs (inner_options streamOptions) net
              eq_refl) as [Hc Hret].
  set (run := callOpenAIStream msgs (inner_options streamOptions) net) in *.
  destruct (heard_chunks streamOptions (events run) Ho) as (H1 & H2 & H3).
  destruct (outcome run) as [rc ru|e|] eqn:Eo.
  - destruct (recordUsage _ _ _ _) as [pc w2].
    destruct (Hret rc ru eq_refl) as [Hcat _].
    assert (∀ tail, (tail = [] ∨ ∃ p, tail = notify p
                       (NComplete rc
                          (Z.of_nat (length (messages conversation ++
                             [mkMessage (js "assistant") rc]))) ru)) →
              nchunks (concat (map (forward streamOptions) (events run)) ++ tail)
              = running []
                  (ndeltas (concat (map (forward streamOptions) (events run))
                            ++ tail)) ∧
              ∀ r l u,
                NComplete r l u
                ∈ concat (map (forward streamOptions) (events run)) ++ tail →
                concat (ndeltas (concat (map (forward streamOptions)
                                           (events run)) ++ tail)) = r)
      as Htail.
    { intros tail [-> | [p ->]].
      - rewrite app_nil_r, H1, H2. split; [exact Hc|].
        intros r l u Hin. by apply H3 in Hin.
      - destruct (notify_no_chunk p
                    (NComplete rc
                       (Z.of_nat (length (messages conversation ++
                          [mkMessage (js "assistant") rc]))) ru)
                    (concat (map (forward streamOptions) (events run)))
                    eq_refl) as [-> ->].
        rewrite H1, H2. split; [exact Hc|].
        intros r l u. rewrite elem_of_app. intros [Hin | Hin].
        + by apply H3 in Hin.
        + unfold notify in Hin. destruct p; [|by apply elem_of_nil in Hin].
          apply list_elem_of_singleton in Hin. by injection Hin as <- _ _. }
    destruct pc as [| | | |[]]; apply Htail; eauto.
  - destruct (notify_no_chunk (has_onError streamOptions) (NError e)
                (concat (map (forward streamOptions) (events run))) eq_refl)
      as [-> ->].
    rewrite H1, H2. split; [exact Hc|].
    intros r l u. rewrite elem_of_app. intros [Hin | Hin].
    + by apply H3 in Hin.
    + unfold notify in Hin. destruct (has_onError streamOptions);
        [apply list_elem_of_singleton in Hin; discriminate
        |by apply elem_of_nil in Hin].
  - rewrite H1, H2. split; [exact Hc|].
    intros r l u Hin. by apply H3 in Hin.
Qed.

(** C7. In a stream session every content-delta frame that the read loop
    decodes appends its delta to the accumulated text and is emitted at
    once with the text accumulated so far; the emitted chunks carry the
    running concatenation of the deltas, and the concatenation of all
    emitted deltas, in emission order, is the final text handed over at
    settlement: the one [callOpenAIStream] returns and passes to the
    completion callback, and the one the caller of
    [generateResponseStream] is notified of. For a stream read to its end,
    the frames decoded are those on the newline-terminated lines of the
    body, however the body is cut into reads. *)
Theorem C7_chunks_concatenate :
  (∀ opts parsed d chunk,
     has_onChunk opts = true →
     delta_content parsed = Some chunk → chunk ≠ [] →
     accumulatedContent (handle_frame opts parsed d)
     = accumulatedContent d ++ chunk ∧
     emitted (handle_frame opts parsed d)
     = emitted d ++ [OnChunk chunk (accumulatedContent d ++ chunk)]) ∧
  (∀ msgs opts net,
     has_onChunk opts = true →
     let run := callOpenAIStream msgs opts net in
     chunks (events run) = running [] (deltas (events run)) ∧
     ∀ result_content result_usage,
       outcome run = Returned result_content result_usage →
       concat (deltas (events run)) = result_content ∧
       (has_onComplete opts = true →
        last (events run) = Some (OnComplete result_content result_usage))) ∧
  (∀ now now_end ok svc tabId userMessage page streamOptions net,
     has_onChunk streamOptions = true →
     let '(svc', notices, res) :=
       generateResponseStream now now_end ok svc tabId userMessage page
                              streamOptions net in
     nchunks notices = running [] (ndeltas notices) ∧
     ∀ response conversationLength usage,
       NComplete response conversationLength usage ∈ notices →
       concat (ndeltas notices) = response) ∧
  (∀ msgs opts status error_body before r_done rest,
     response_ok status = true → has_onChunk opts = true →
     Forall (λ r, in_time r ∧ has_text r) before →
     in_time r_done → result r_done = ReadDone →
     let run :=
       callOpenAIStream msgs opts
         (FetchResponse status error_body (before ++ r_done :: rest)) in
     let emitted_deltas :=
       omap line_delta (complete_lines (concat (texts before))) in
     deltas (events run) = emitted_deltas ∧
     ∃ result_usage,
       outcome run = Returned (concat emitted_deltas) result_usage).
Proof.
  split; [exact handle_frame_content|].
  split; [exact callOpenAIStream_chunks|].
  split; [|exact callOpenAIStream_lines].
  intros now now_end ok svc tabId userMessage page streamOptions net Ho.
  unfold generateResponseStream.
  assert (∀ present e,
            nchunks (notify present (NError e))
            = running [] (ndeltas (notify present (NError e))) ∧
            ∀ r l u, NComplete r l u ∈ notify present (NError e) →
                     concat (ndeltas (notify present (NError e))) = r)
    as Herr.
  { intros [] e; cbn; (split; [done|]); intros r l u Hin.
    - apply list_elem_of_singleton in Hin. discriminate.
    - by apply elem_of_nil in Hin. }
  case_bool_decide.
  { split; [done|]. intros r l u Hin. by apply elem_of_nil in Hin. }
  destruct (checkRequest _ _ _ _) as [cr w1].
  destruct (check_result cr) as [[| |reason k retry]|]; try apply Herr.
  - by apply settle_stream_chunks.
  - by apply settle_stream_chunks.
Qed.

Lemma generateResponseStream_allowed now now_end ok svc tabId userMessage
    page streamOptions net r :
  default [] (apiKey svc) ≠ [] →
  let conversation := prepare_conversation now svc tabId userMessage page in
  let admission :=
    checkRequest now ok (stream_request (messages conversation))
                 (rateLimiter svc) in
  check_result (fst admission) = Some r → allowed r = true →
  generateResponseStream now now_end ok svc tabId userMessage page
                         streamOptions net
  = settle_stream now_end ok streamOptions tabId conversation
      (callOpenAIStream (messages conversation)
                        (inner_options streamOptions) net)
      (set_rateLimiter (snd admission)
                       (store_in_place tabId conversation svc)).
Proof.
  intros Hkey. cbn zeta. intros Hr Ha. unfold generateResponseStream.
  rewrite bool_decide_eq_false_2 by exact Hkey.
  destruct (checkRequest _ _ _ _) as [cr w1]. cbn [fst snd] in *.
  rewrite Hr. destruct r; [reflexivity|reflexivity|discriminate].
Qed.

Lemma estimate_usage_no_total msgs accumulated u :
  no_total u → estimate_usage msgs accumulated u
               = heuristic_estimate msgs accumulated.
Proof.
  unfold estimate_usage, no_total.
  intros [-> | ->]; [reflexivity|]. by rewrite bool_decide_eq_true_2.
Qed.

Lemma callOpenAIStream_fallback msgs opts status error_body reads :
  response_ok status = true →
  snd (read_loop opts reads decoder_init) = ExitDone →
  no_total (captured_usage opts reads) →
  let run :=
    callOpenAIStream msgs opts (FetchResponse status error_body reads) in
  let text := accumulatedContent (fst (read_loop opts reads decoder_init)) in
  outcome run = Returned text (heuristic_estimate msgs text) ∧
  (has_onComplete opts = true →
   last (events run) = Some (OnComplete text (heuristic_estimate msgs text))).
Proof.
  intros Hok Hdone Hno. cbn zeta. unfold callOpenAIStream, captured_usage in *.
  rewrite Hok. destruct (read_loop opts reads decoder_init) as [d ex].
  cbn [fst snd] in *. subst ex. unfold complete.
  destruct (process_remaining_same d) as [Ea Ee].
  rewrite (estimate_usage_no_total _ _ _ Hno), Ea. cbn [outcome events].
  split; [reflexivity|]. intros ->. unfold emit. cbn. by rewrite last_snoc.
Qed.

(** C10. At the end of a stream, when the captured usage record has no
    total_tokens or a total_tokens of 0 (an all-zero record sent by the
    server included), the usage that [callOpenAIStream] returns and hands
    to the completion callback is the estimate: prompt tokens are
    countTokens of the JSON-serialised message list, completion tokens
    are countTokens of the accumulated text, and the total is their sum;
    [generateResponseStream] records exactly these two counts with
    recordUsage and reports the estimate to its caller. *)
Theorem C10_usage_fallback :
  (∀ msgs opts status error_body reads,
     response_ok status = true →
     snd (read_loop opts reads decoder_init) = ExitDone →
     no_total (captured_usage opts reads) →
     let run :=
       callOpenAIStream msgs opts (FetchResponse status error_body reads) in
     let text := accumulatedContent (fst (read_loop opts reads decoder_init)) in
     outcome run = Returned text (heuristic_estimate msgs text) ∧
     (has_onComplete opts = true →
      last (events run)
      = Some (OnComplete text (heuristic_estimate msgs text)))) ∧
  (∀ now now_end ok svc tabId userMessage page streamOptions status
     error_body reads r,
     default [] (apiKey svc) ≠ [] →
     let conversation := prepare_conversation now svc tabId userMessage page in
     let admission :=
       checkRequest now ok (stream_request (messages conversation))
                    (rateLimiter svc) in
     let opts := inner_options streamOptions in
     check_result (fst admission) = Some r → allowed r = true →
     response_ok status = true →
     snd (read_loop opts reads decoder_init) = ExitDone →
     no_total (captured_usage opts reads) →
     let text := accumulatedContent (fst (read_loop opts reads decoder_init)) in
     let estimate := heuristic_estimate (messages conversation) text in
     let '(svc', notices, res) :=
       generateResponseStream now now_end ok svc tabId userMessage page
         streamOptions (FetchResponse status error_body reads) in
     rateLimiter svc'
     = snd (recordUsage now_end ok
              (mkUsageInfo (js "gpt-4") (prompt_tokens estimate)
                           (completion_tokens estimate))
              (snd admission)) ∧
     ∀ response conversationLength usage,
       NComplete response conversationLength usage ∈ notices →
       usage = estimate).
Proof.
  split; [exact callOpenAIStream_fallback|].
  intros now now_end ok svc tabId userMessage page streamOptions status
    error_body reads r Hkey. cbn zeta. intros Hr Ha Hok Hdone Hno.
  rewrite (generateResponseStream_allowed _ _ _ _ _ _ _ _ _ r Hkey Hr Ha).
  destruct (callOpenAIStream_fallback
              (messages (prepare_conversation now svc tabId userMessage page))
              (inner_options streamOptions) status error_body reads
              Hok Hdone Hno) as [Hout _].
  unfold settle_stream. rewrite Hout. cbn [rateLimiter set_rateLimiter].
  destruct (recordUsage _ _ _ _) as [pc w2] eqn:Er. cbn [rateLimiter snd].
  split; [reflexivity|].
  intros response l usage. rewrite elem_of_app. intros [Hin | Hin].
  - exfalso. revert Hin. clear.
    induction (events _) as [|e es IH]; cbn.
    + apply not_elem_of_nil.
    + rewrite elem_of_app. intros [Hin | Hin]; [|by apply IH].
      destruct e; cbn in Hin.
      * destruct (has_onChunk streamOptions);
          [apply list_elem_of_singleton in Hin; discriminate
          |by apply elem_of_nil in Hin].
      * apply list_elem_of_singleton in Hin. discriminate.
      * by apply elem_of_nil in Hin.
  - destruct pc as [| | | |[]]; try (by apply elem_of_nil in Hin).
    unfold notify in Hin.
    destruct (has_onComplete streamOptions); [|by apply elem_of_nil in Hin].
    apply list_elem_of_singleton in Hin. by injection Hin as _ _ ->.
Qed.

End Decoder.

(** ** Properties of failing and cancelled sessions *)

Section Failures.

Context `{Platform}.

(** *** Calls on a limiter that is already initialised *)

Lemma run_alone_unroll {Pc : Type} (step : Pc → World → Pc * World) pc w :
  run_alone step pc w
  = let s1 := step pc w in
    let s2 := step (fst s1) (snd s1) in
    let s3 := step (fst s2) (snd s2) in
    let s4 := step (fst s3) (snd s3) in
    step (fst s4) (snd s4).
Proof. reflexivity. Qed.

Lemma checkRequest_initialized now ok requestInfo w u :
  initialized (rl w) = true → usage (rl w) = Some u →
  checkRequest now ok requestInfo w
  = (CR_Done (Some (fst (checkRequest_body now (rl w) u requestInfo))),
     print (snd (checkRequest_body now (rl w) u requestInfo)) w).
Proof.
  intros Hi Hu. unfold checkRequest. rewrite run_alone_unroll.
  assert (checkRequest_step now ok requestInfo CR_Call w = (CR_Body, w))
    as -> by (cbn; unfold initialize_call; by rewrite Hi).
  cbn zeta. cbn [fst snd].
  assert (checkRequest_step now ok requestInfo CR_Body w
          = (CR_Done (Some (fst (checkRequest_body now (rl w) u requestInfo))),
             print (snd (checkRequest_body now (rl w) u requestInfo)) w))
    as ->.
  { cbn. rewrite Hu. by destruct (checkRequest_body _ _ _ _). }
  reflexivity.
Qed.

Lemma recordUsage_initialized now ok usageInfo w u :
  initialized (rl w) = true → usage (rl w) = Some u →
  recordUsage now ok usageInfo w
  = (RU_Done ok,
     saveUsage ok
       (set_usage
          (Some (fst (recordUsage_body now (models (rl w)) usageInfo u)))
          (print (snd (recordUsage_body now (models (rl w)) usageInfo u)) w))).
Proof.
  intros Hi Hu. unfold recordUsage. rewrite run_alone_unroll.
  assert (recordUsage_step now ok usageInfo RU_Call w = (RU_Body, w))
    as -> by (cbn; unfold initialize_call; by rewrite Hi).
  cbn zeta. cbn [fst snd].
  assert (recordUsage_step now ok usageInfo RU_Body w
          = (RU_Save ok,
             saveUsage ok
               (set_usage
                  (Some (fst (recordUsage_body now (models (rl w)) usageInfo u)))
                  (print (snd (recordUsage_body now (models (rl w))
                                 usageInfo u)) w))))
    as ->.
  { cbn. rewrite Hu. by destruct (recordUsage_body _ _ _ _). }
  reflexivity.
Qed.

Lemma checkRequest_keeps_ledger now ok requestInfo w :
  initialized (rl w) = true →
  rl (snd (checkRequest now ok requestInfo w)) = rl w ∧
  storage (snd (checkRequest now ok requestInfo w)) = storage w.
Proof.
  intros Hi. destruct (usage (rl w)) as [u|] eqn:Hu.
  - by rewrite (checkRequest_initialized _ _ _ _ u Hi Hu).
  - unfold checkRequest. rewrite run_alone_unroll.
    assert (checkRequest_step now ok requestInfo CR_Call w = (CR_Body, w))
      as -> by (cbn; unfold initialize_call; by rewrite Hi).
    cbn zeta. cbn [fst snd].
    assert (checkRequest_step now ok requestInfo CR_Body w = (CR_Done None, w))
      as -> by (cbn; by rewrite Hu).
    by cbn.
Qed.

(** *** What a failing call emits *)

Lemma handle_frame_chunks_only opts parsed d :
  chunks_only d → chunks_only (handle_frame opts parsed d).
Proof.
  intros Hd. unfold handle_frame, chunks_only.
  assert (Forall (λ e, is_chunk e = true)
            (emitted
               match delta_content parsed with
               | Some chunk =>
                   if bool_decide (chunk = []) then d
                   else
                     emit (has_onChunk opts)
                       (OnChunk chunk (accumulatedContent d ++ chunk))
                       (set_accumulated (accumulatedContent d ++ chunk) d)
               | None => d
               end)) as H1.
  { destruct (delta_content parsed) as [chunk|]; [|exact Hd].
    case_bool_decide; [exact Hd|]. unfold emit.
    destruct (has_onChunk opts); [|exact Hd]. cbn.
    apply Forall_app. split; [exact Hd|]. by repeat constructor. }
  destruct (finish_reason parsed) as [fr|];
    [case_bool_decide|]; destruct (frame_usage parsed); exact H1.
Qed.

Lemma process_line_chunks_only opts d line :
  chunks_only d → chunks_only (process_line opts d line).
Proof.
  intros Hd. unfold process_line.
  repeat (case_bool_decide || destruct (startsWith _ _)); try assumption.
  destruct (JSON_parse _); [by apply handle_frame_chunks_only|exact Hd].
Qed.

Lemma process_chunk_chunks_only opts d text :
  chunks_only d → chunks_only (process_chunk opts d text).
Proof.
  intros Hd. unfold process_chunk.
  generalize (removelast (split_on 10%N (buffer d ++ text))).
  assert (chunks_only
            (set_buffer (List.last (split_on 10%N (buffer d ++ text)) []) d))
    as Hd0 by exact Hd.
  revert Hd0.
  generalize (set_buffer (List.last (split_on 10%N (buffer d ++ text)) []) d).
  intros d0 Hd0 lines. revert d0 Hd0.
  induction lines as [|line lines IH]; intros d0 Hd0; cbn; [exact Hd0|].
  by apply IH, process_line_chunks_only.
Qed.

Lemma read_loop_chunks_only opts reads d :
  chunks_only d → chunks_only (fst (read_loop opts reads d)).
Proof.
  revert d. induction reads as [|r reads IH]; intros d Hd; cbn.
  - by destruct (loop_turn opts silent_read).
  - destruct (loop_turn opts r); [exact Hd|].
    by apply IH, process_chunk_chunks_only.
Qed.

Lemma catch_error_events opts error d :
  events (catch_error opts error d)
  = emitted d ++ (if has_onError opts then [OnError (surfaced error)] else [])
  ∧ outcome (catch_error opts error d) = Threw error.
Proof.
  unfold catch_error, surfaced, emit.
  case_bool_decide; destruct (has_onError opts); cbn;
    by rewrite ?app_nil_r.
Qed.

Lemma callOpenAIStream_threw msgs opts net e :
  outcome (callOpenAIStream msgs opts net) = Threw e →
  ∃ cs, Forall (λ e, is_chunk e = true) cs ∧
        events (callOpenAIStream msgs opts net)
        = cs ++ (if has_onError opts then [OnError (surfaced e)] else []).
Proof.
  unfold callOpenAIStream.
  destruct net as [e0| |status body reads].
  - destruct (catch_error_events opts e0 decoder_init) as [-> ->].
    intros [= ->]. exists []. by split.
  - discriminate.
  - destruct (response_ok status).
    + pose proof (read_loop_chunks_only opts reads decoder_init
                    (Forall_nil_2 _)) as Hc.
      destruct (read_loop opts reads decoder_init) as [d [|e0|]];
        cbn [fst] in Hc.
      * discriminate.
      * destruct (catch_error_events opts e0 d) as [-> ->].
        intros [= ->]. by exists (emitted d).
      * discriminate.
    + destruct (catch_error_events opts
                  (new_Error (http_error_message status body)) decoder_init)
        as [-> ->].
      intros [= <-]. exists []. by split.
Qed.

Lemma forward_no_complete streamOptions es response l u :
  NComplete response l u ∉ concat (map (forward streamOptions) es).
Proof.
  induction es as [|e es IH]; cbn; [apply not_elem_of_nil|].
  rewrite elem_of_app. intros [Hin | Hin]; [|by apply IH].
  destruct e; cbn in Hin.
  - destruct (has_onChunk streamOptions);
      [apply list_elem_of_singleton in Hin; discriminate
      |by apply elem_of_nil in Hin].
  - apply list_elem_of_singleton in Hin. discriminate.
  - by apply elem_of_nil in Hin.
Qed.

Lemma forward_chunks streamOptions cs :
  Forall (λ e, is_chunk e = true) cs →
  Forall (λ n, is_terminal n = false) (concat (map (forward streamOptions) cs)).
Proof.
  induction 1 as [|e cs He Hcs IH]; cbn; [constructor|].
  apply Forall_app. split; [|exact IH].
  destruct e; try discriminate. cbn.
  destruct (has_onChunk streamOptions); by repeat constructor.
Qed.

Lemma settle_stream_threw now_end ok streamOptions tabId conversation run
    svc e :
  outcome run = Threw e →
  settle_stream now_end ok streamOptions tabId conversation run svc
  = (svc,
     concat (map (forward streamOptions) (events run))
       ++ notify (has_onError streamOptions) (NError e),
     GenFailed (err_message e)).
Proof. intros Ho. unfold settle_stream. by rewrite Ho. Qed.

(** C2, as amended. When a caller cancels a stream in flight (the
    stream call is rejected with an AbortError), the session ends with
    the error callback told "Stream aborted by user" and then the abort
    error itself, no completion is reported, and the usage ledger is not
    updated: recordUsage is not called, so the limiter is left as the
    admission check left it, which for an initialised limiter is as it
    was, in memory and in storage. *)
Theorem C2_cancel_records_nothing :
  ∀ now now_end ok svc tabId userMessage page streamOptions net r e,
    default [] (apiKey svc) ≠ [] →
    let conversation := prepare_conversation now svc tabId userMessage page in
    let admission :=
      checkRequest now ok (stream_request (messages conversation))
                   (rateLimiter svc) in
    check_result (fst admission) = Some r → allowed r = true →
    outcome (callOpenAIStream (messages conversation)
                              (inner_options streamOptions) net) = Threw e →
    err_name e = js "AbortError" →
    let '(svc', notices, res) :=
      generateResponseStream now now_end ok svc tabId userMessage page
                             streamOptions net in
    rateLimiter svc' = snd admission ∧
    (initialized (rl (rateLimiter svc)) = true →
     rl (rateLimiter svc') = rl (rateLimiter svc) ∧
     storage (rateLimiter svc') = storage (rateLimiter svc)) ∧
    res = GenFailed (err_message e) ∧
    (∀ response l u, NComplete response l u ∉ notices) ∧
    (has_onError streamOptions = true →
     ∃ heard,
       Forall (λ n, is_terminal n = false) heard ∧
       notices = heard ++ [NError (new_Error (js "Stream aborted by user"));
                           NError e]).
Proof.
  intros now now_end ok svc tabId userMessage page streamOptions net r e Hkey.
  cbn zeta. intros Hr Ha Hout Hname.
  rewrite (generateResponseStream_allowed _ _ _ _ _ _ _ _ _ r Hkey Hr Ha).
  rewrite (settle_stream_threw _ _ _ _ _ _ _ e Hout).
  cbn [rateLimiter set_rateLimiter].
  split; [reflexivity|]. split; [by apply checkRequest_keeps_ledger|].
  split; [reflexivity|].
  destruct (callOpenAIStream_threw _ _ _ _ Hout) as (cs & Hcs & ->).
  cbn [has_onError inner_options]. split.
  - intros response l u. rewrite elem_of_app. intros [Hin | Hin].
    + by apply forward_no_complete in Hin.
    + unfold notify in Hin. destruct (has_onError streamOptions).
      * apply list_elem_of_singleton in Hin. discriminate.
      * by apply elem_of_nil in Hin.
  - intros ->. exists (concat (map (forward streamOptions) cs)).
    split; [by apply forward_chunks|].
    rewrite map_app, concat_app. cbn. unfold surfaced.
    rewrite bool_decide_eq_true_2 by exact Hname.
    by rewrite <- (assoc_L (++)).
Qed.

Lemma stream_errors_chunks streamId tabId heard :
  Forall (λ n, is_terminal n = false) heard →
  stream_errors (map (send streamId tabId) heard) = [] ∧
  filter (λ n, is_complete n = false) heard = heard ∧
  filter (λ n, is_complete n = true) heard = [].
Proof.
  induction 1 as [|n heard Hn Hh (IH1 & IH2 & IH3)]; [done|].
  destruct n; try discriminate.
  split; [exact IH1|].
  rewrite filter_cons_True by done. rewrite filter_cons_False by (cbn; done).
  by rewrite IH2, IH3.
Qed.

Lemma surfaced_text e :
  err_message (surfaced e)
  = if bool_decide (err_name e = js "AbortError") then
      js "Stream aborted by user"
    else if includes (js "Failed to fetch") (err_message e) then
      js "Network error. Please check your connection and try again."
    else if includes (js "timeout") (err_message e) then
      js "Request timed out. Please try again."
    else err_message e.
Proof.
  unfold surfaced, friendly. case_bool_decide; [reflexivity|].
  destruct (includes (js "Failed to fetch") (err_message e)); [reflexivity|].
  by destruct (includes (js "timeout") (err_message e)).
Qed.

Lemma send_chunks streamId tabId heard :
  Forall (λ n, is_terminal n = false) heard →
  Forall (λ m, is_stream_chunk m = true) (map (send streamId tabId) heard).
Proof.
  induction 1 as [|n heard Hn Hh IH]; [constructor|].
  cbn [map]. constructor; [|exact IH]. by destruct n.
Qed.

(** What the listener sends and leaves behind when an allowed stream
    call throws. *)
Lemma on_generateResponseStream_threw now now_end ok svc tabId
    request_streamId message page net r e :
  let conversation := prepare_conversation now svc tabId message page in
  let admission :=
    checkRequest now ok (stream_request (messages conversation))
                 (rateLimiter svc) in
  let streamId := listener_stream_id now tabId request_streamId in
  let result :=
    on_generateResponseStream now now_end ok svc tabId request_streamId
                              message page net in
  default [] (apiKey svc) ≠ [] →
  check_result (fst admission) = Some r → allowed r = true →
  outcome (callOpenAIStream (messages conversation)
             (mkStreamOptions true true true true) net) = Threw e →
  (∃ chunks,
     Forall (λ m, is_stream_chunk m = true) chunks ∧
     snd result
     = chunks ++ [ StreamError streamId tabId (err_message (surfaced e));
                   StreamError streamId tabId (err_message e);
                   Response (GenFailed (err_message e)) ]) ∧
  rateLimiter (fst result) = snd admission ∧
  streamId ∉ activeStreams (fst result).
Proof.
  cbn zeta. intros Hkey Hr Ha Hout.
  unfold on_generateResponseStream.
  change (match request_streamId with
            | Some s => if bool_decide (s = []) then of_Z tabId ++ js "-" ++ of_Z now
                        else s
            | None => of_Z tabId ++ js "-" ++ of_Z now
            end)
      with (listener_stream_id now tabId request_streamId).
  set (streamId := listener_stream_id now tabId request_streamId).
  set (svc1 := mkService _ _ _ _).
  rewrite (generateResponseStream_allowed now now_end ok svc1 tabId
             message page (mkStreamOptions true true true true) net r
             Hkey Hr Ha).
  change (inner_options (mkStreamOptions true true true true))
    with (mkStreamOptions true true true true).
  change (prepare_conversation now svc1 tabId message page)
    with (prepare_conversation now svc tabId message page).
  change (rateLimiter svc1) with (rateLimiter svc).
  rewrite (settle_stream_threw _ _ _ _ _ _ _ e Hout).
  destruct (callOpenAIStream_threw _ _ _ _ Hout) as (cs & Hcs & ->).
  cbn [has_onError notify].
  rewrite map_app, concat_app. cbn [map concat forward app].
  set (heard := concat (map _ cs)).
  assert (Hheard : Forall (λ n, is_terminal n = false) heard)
    by (by apply forward_chunks).
  destruct (stream_errors_chunks streamId tabId heard Hheard)
    as (_ & E2 & E3).
  rewrite <- (assoc_L (++)). cbn [app].
  rewrite !filter_app, E2, E3.
  rewrite !filter_cons_True by done. rewrite !filter_cons_False by done.
  rewrite !filter_nil.
  assert (existsb is_terminal
            (heard ++ [NError (surfaced e); NError e]) = true) as ->.
  { rewrite existsb_app. cbn. apply orb_true_r. }
  cbn [orb fst snd map app]. split; [|split].
  - exists (map (send streamId tabId) heard).
    split; [by apply send_chunks|].
    by rewrite map_app, <- (assoc_L (++)).
  - unfold abortStream. by case_bool_decide.
  - unfold abortStream. case_bool_decide as Hin; cbn [fst activeStreams].
    + intros Hx. apply elem_of_difference in Hx as [_ Hx].
      apply Hx. by apply elem_of_singleton.
    + exact Hin.
Qed.

(** C9, as amended. A failure of a stream is surfaced to the caller as
    error-message strings, not as a kind of the closed set. When the
    stream call throws, the listener sends, after the chunks, two
    streamError messages and the response to the request, in this order:
    the first streamError carries "Stream aborted by user" for an
    AbortError, "Network error. Please check your connection and try
    again." when the error message contains "Failed to fetch", "Request
    timed out. Please try again." when it contains "timeout", and the
    error message itself otherwise; the second streamError and the
    response carry the error message itself. The one failure that carries
    a machine-readable kind is an admission denial: one streamError with
    "Rate limit exceeded: " followed by the reason, and a response with
    that message, the limitType and retryAfter. Without an API key the
    response with "OpenAI API key not configured" is all that is sent. *)
Theorem C9_failures_carry_messages :
  (∀ now now_end ok svc tabId request_streamId message page net r e,
     default [] (apiKey svc) ≠ [] →
     let conversation := prepare_conversation now svc tabId message page in
     let admission :=
       checkRequest now ok (stream_request (messages conversation))
                    (rateLimiter svc) in
     let streamId := listener_stream_id now tabId request_streamId in
     check_result (fst admission) = Some r → allowed r = true →
     outcome (callOpenAIStream (messages conversation)
                (mkStreamOptions true true true true) net) = Threw e →
     ∃ chunks,
       Forall (λ m, is_stream_chunk m = true) chunks ∧
       snd (on_generateResponseStream now now_end ok svc tabId
              request_streamId message page net)
       = chunks
           ++ [ StreamError streamId tabId
                  (if bool_decide (err_name e = js "AbortError") then
                     js "Stream aborted by user"
                   else if includes (js "Failed to fetch") (err_message e) then
                     js "Network error. Please check your connection and try again."
                   else if includes (js "timeout") (err_message e) then
                     js "Request timed out. Please try again."
                   else err_message e);
                StreamError streamId tabId (err_message e);
                Response (GenFailed (err_message e)) ]) ∧
  (∀ now now_end ok svc tabId request_streamId message page net reason
     limitType retryAfter,
     default [] (apiKey svc) ≠ [] →
     let conversation := prepare_conversation now svc tabId message page in
     let admission :=
       checkRequest now ok (stream_request (messages conversation))
                    (rateLimiter svc) in
     let streamId := listener_stream_id now tabId request_streamId in
     check_result (fst admission) = Some (Denied reason limitType retryAfter) →
     snd (on_generateResponseStream now now_end ok svc tabId
            request_streamId message page net)
     = [ StreamError streamId tabId (js "Rate limit exceeded: " ++ reason);
         Response (GenRateLimited (js "Rate limit exceeded: " ++ reason)
                                  limitType retryAfter) ]) ∧
  (∀ now now_end ok svc tabId request_streamId message page net,
     default [] (apiKey svc) = [] →
     snd (on_generateResponseStream now now_end ok svc tabId
            request_streamId message page net)
     = [Response (GenFailed (js "OpenAI API key not configured"))]).
Proof.
  split; [|split].
  - intros now now_end ok svc tabId request_streamId message page net r e
      Hkey. cbn zeta. intros Hr Ha Hout.
    destruct (on_generateResponseStream_threw now now_end ok svc tabId
                request_streamId message page net r e Hkey Hr Ha Hout)
      as ((chunks & Hchunks & Hsent) & _).
    exists chunks. split; [exact Hchunks|].
    by rewrite Hsent, surfaced_text.
  - intros now now_end ok svc tabId request_streamId message page net reason
      limitType retryAfter Hkey. cbn zeta. intros Hr.
    unfold on_generateResponseStream.
    change (match request_streamId with
              | Some s => if bool_decide (s = []) then of_Z tabId ++ js "-" ++ of_Z now
                          else s
              | None => of_Z tabId ++ js "-" ++ of_Z now
              end)
        with (listener_stream_id now tabId request_streamId).
    set (streamId := listener_stream_id now tabId request_streamId).
    set (svc1 := mkService _ _ _ _).
    unfold generateResponseStream.
    rewrite bool_decide_eq_false_2 by exact Hkey.
    change (prepare_conversation now svc1 tabId message page)
      with (prepare_conversation now svc tabId message page).
    change (rateLimiter svc1) with (rateLimiter svc).
    destruct (checkRequest _ _ _ _) as [cr w1]. cbn [fst] in Hr.
    rewrite Hr. reflexivity.
  - intros now now_end ok svc tabId request_streamId message page net Hkey.
    unfold on_generateResponseStream, generateResponseStream.
    cbn [apiKey]. rewrite (bool_decide_eq_true_2 _ Hkey). reflexivity.
Qed.

(** *** Where a thrown error comes from *)

Lemma loop_turn_in_time opts r :
  in_time r →
  loop_turn opts r
  = match result r with
    | ReadValue text => inr text
    | ReadDone => inl ExitDone
    | ReadRejected e => inl (ExitThrow e)
    end.
Proof.
  intros (Hb & t & Hw & Ht). unfold loop_turn, await_read.
  rewrite bool_decide_eq_false_2 by lia. rewrite Hw.
  rewrite bool_decide_eq_false_2 by lia.
  by destruct (has_abortController opts), (result r).
Qed.

(** Chunks read in time and then an aborted read: the loop throws the
    abort error. *)
Lemma read_loop_cancelled opts before r rest d e :
  Forall (λ r, in_time r ∧ has_text r) before →
  in_time r → result r = ReadRejected e →
  snd (read_loop opts (before ++ r :: rest) d) = ExitThrow e.
Proof.
  intros Hbefore Hr He. revert d.
  induction Hbefore as [|r0 before [H0 [text Ht]] Hb IH]; intros d; cbn.
  - by rewrite (loop_turn_in_time _ _ Hr), He.
  - rewrite (loop_turn_in_time _ _ H0), Ht. apply IH.
Qed.

Lemma callOpenAIStream_cancelled msgs opts status error_body before r rest e :
  response_ok status = true →
  Forall (λ r, in_time r ∧ has_text r) before →
  in_time r → result r = ReadRejected e →
  outcome (callOpenAIStream msgs opts
             (FetchResponse status error_body (before ++ r :: rest)))
  = Threw e.
Proof.
  intros Hok Hbefore Hr He. unfold callOpenAIStream. rewrite Hok.
  pose proof (read_loop_cancelled opts before r rest decoder_init e
                Hbefore Hr He) as Hexit.
  destruct (read_loop _ _ _) as [d ex]. cbn in Hexit. subst ex.
  apply catch_error_events.
Qed.

(** Without an abort controller the loop has no timer: whatever the waits,
    an error it throws is one that a read was rejected with. *)
Lemma read_loop_no_timer opts reads d e :
  has_abortController opts = false →
  Forall (λ r, busy r <= timeout) reads →
  snd (read_loop opts reads d) = ExitThrow e →
  ∃ r, r ∈ reads ∧ result r = ReadRejected e.
Proof.
  intros Hno Hbusy. revert d.
  induction Hbusy as [|r reads Hb Hrs IH]; intros d; cbn.
  - unfold loop_turn, await_read. rewrite Hno. cbn.
    rewrite bool_decide_eq_false_2 by (unfold timeout; lia). discriminate.
  - unfold loop_turn, await_read. rewrite Hno.
    rewrite bool_decide_eq_false_2 by lia.
    destruct (wait r) as [t|]; [|discriminate].
    destruct (result r) as [text| |e0] eqn:Er; cbn.
    + intros Hex. destruct (IH _ Hex) as (r' & Hin & Hr').
      exists r'. split; [by apply elem_of_cons; right|exact Hr'].
    + discriminate.
    + intros [= ->]. exists r. split; [by apply elem_of_cons; left|exact Er].
Qed.

(** On an initialised limiter [recordUsage] keeps the date and the month
    that the daily and monthly scopes are stamped with, whatever the
    clock. *)
Lemma recordUsage_keeps_period_keys now ok usageInfo w u :
  initialized (rl w) = true → usage (rl w) = Some u →
  ∃ u', usage (rl (snd (recordUsage now ok usageInfo w))) = Some u' ∧
        sc_key (daily u') = sc_key (daily u) ∧
        sc_key (monthly u') = sc_key (monthly u).
Proof.
  intros Hi Hu. rewrite (recordUsage_initialized _ _ _ _ u Hi Hu).
  exists (fst (recordUsage_body now (models (rl w)) usageInfo u)).
  split; [by destruct ok|].
  unfold recordUsage_body. by destruct (calculateCost _ _ _ _).
Qed.

(** *** A stream that falls silent *)

Lemma loop_turn_too_slow opts r :
  has_abortController opts = true → too_slow r →
  loop_turn opts r = inl (ExitThrow (new_Error (js "Read timeout"))).
Proof.
  intros Hc [Hbusy Hwait]. unfold loop_turn, await_read.
  rewrite bool_decide_eq_false_2 by lia. rewrite Hc.
  destruct (wait r) as [t|]; [|done].
  by rewrite bool_decide_eq_true_2.
Qed.



End Failures.

(** ** Properties of interleaved calls of recordUsage *)

Section Interleaving.

Context `{Platform}.

Lemma recorded_insert cs i c c' :
  cs !! i = Some c →
  recorded (<[i := c']> cs) = recorded cs - contribution c + contribution c'.
Proof.
  unfold recorded.
  revert i. induction cs as [|x cs IH]; intros [|i]; simpl; try discriminate.
  - intros [= ->]. lia.
  - intros Hl. rewrite (IH i Hl). lia.
Qed.

Lemma recordUsage_body_daily_total now ms usageInfo u :
  tk_total (c_tokens (sc_counters
                        (daily (fst (recordUsage_body now ms usageInfo u)))))
  = tk_total (c_tokens (sc_counters (daily u)))
    + (ui_promptTokens usageInfo + ui_completionTokens usageInfo).
Proof.
  unfold recordUsage_body. by destruct (calculateCost _ _ _ _).
Qed.

Lemma sys_step_inv t0 s t : sys_inv t0 s → sys_inv t0 (sys_step s t).
Proof.
  intros (Hi & Ht & Hpc). unfold sys_step.
  destruct (calls s !! turn_call t) as [[usageInfo pc]|] eqn:El;
    [|by repeat split].
  pose proof (Forall_lookup_1 _ _ _ _ Hpc El) as Hout. cbn in Hout.
  assert (∀ pc1 w1,
            initialized (rl w1) = true → outside_initialize pc1 →
            daily_total w1
            = Some (t0 + recorded (calls s) - contribution (usageInfo, pc)
                    + contribution (usageInfo, pc1)) →
            sys_inv t0 (mkSys w1 (<[turn_call t := (usageInfo, pc1)]>
                                    (calls s)))) as Hgoal.
  { intros pc1 w1 H1 H2 H3. split; [exact H1|]. split; cbn [world calls].
    - rewrite (recorded_insert _ _ _ _ El), H3. f_equal. lia.
    - by apply Forall_insert. }
  destruct pc as [|ipc| |saved|b]; cbn [recordUsage_step].
  - unfold initialize_call. rewrite Hi. cbn [after_init].
    apply Hgoal; [exact Hi|exact I|]. rewrite Ht. unfold contribution. cbn.
    f_equal. lia.
  - destruct Hout.
  - unfold daily_total in Ht.
    destruct (usage (rl (world s))) as [u|] eqn:Eu; [|discriminate].
    pose proof (recordUsage_body_daily_total (turn_now t)
                  (models (rl (world s))) usageInfo u) as Hd.
    destruct (recordUsage_body _ _ _ _) as [u1 out]. cbn [fst] in Hd.
    injection Ht as Ht.
    apply Hgoal; [by destruct (turn_ok t)|exact I|].
    unfold contribution, daily_total. cbn [ran_body fst snd].
    destruct (turn_ok t); cbn; f_equal; lia.
  - apply Hgoal; [exact Hi|exact I|]. rewrite Ht. unfold contribution. cbn.
    f_equal. lia.
  - apply Hgoal; [exact Hi|exact I|]. rewrite Ht. unfold contribution. cbn.
    f_equal. lia.
Qed.

Lemma sys_run_inv t0 schedule s :
  sys_inv t0 s → sys_inv t0 (sys_run schedule s).
Proof.
  revert s. induction schedule as [|t schedule IH]; intros s Hs; [exact Hs|].
  cbn. by apply IH, sys_step_inv.
Qed.

Lemma sys_step_infos s t :
  map fst (calls (sys_step s t)) = map fst (calls s).
Proof.
  unfold sys_step.
  destruct (calls s !! turn_call t) as [[usageInfo pc]|] eqn:El; [|done].
  destruct (recordUsage_step _ _ _ _ _) as [pc1 w1]. cbn.
  rewrite list_fmap_insert. cbn.
  apply list_insert_id. by rewrite list_lookup_fmap, El.
Qed.

Lemma sys_run_infos schedule s :
  map fst (calls (sys_run schedule s)) = map fst (calls s).
Proof.
  revert s. induction schedule as [|t schedule IH]; intros s; [done|].
  change (sys_run (t :: schedule) s) with (sys_run schedule (sys_step s t)).
  by rewrite IH, sys_step_infos.
Qed.

Lemma recorded_settled cs :
  forallb (λ c, settled (snd c)) cs = true →
  recorded cs
  = foldr (λ i acc, ui_promptTokens i + ui_completionTokens i + acc) 0
          (map fst cs).
Proof.
  unfold recorded.
  induction cs as [|[i pc] cs IH]; simpl; [done|].
  rewrite andb_true_iff. intros [Hs Hcs]. rewrite (IH Hcs).
  destruct pc; try discriminate. unfold contribution. simpl. lia.
Qed.

(** C5, as amended. Two calls of recordUsage, each with promptTokens =
    100 and no completion tokens, on a limiter that is already
    initialised and holds an empty ledger, leave daily.tokens.total at
    200 under every interleaving of their steps (cut at the awaits),
    whatever the clock and the fate of the storage writes: the counters
    are updated in one synchronous section, with no mutation queue. *)
Theorem C5_interleaved_recordings :
  ∀ schedule w now0,
    initialized (rl w) = true →
    usage (rl w) = Some (createEmptyUsage now0) →
    all_settled (sys_run schedule (mkSys w two_calls)) = true →
    daily_total (world (sys_run schedule (mkSys w two_calls))) = Some 200.
Proof.
  intros schedule w now0 Hi Hu Hall.
  assert (sys_inv 0 (mkSys w two_calls)) as Hinv.
  { split; [exact Hi|]. split.
    - unfold daily_total. cbn. by rewrite Hu.
    - by repeat constructor. }
  apply (sys_run_inv 0 schedule) in Hinv. destruct Hinv as (_ & Ht & _).
  rewrite Ht. unfold all_settled in Hall.
  rewrite (recorded_settled _ Hall), sys_run_infos. reflexivity.
Qed.

End Interleaving.

(** ** The program on concrete inputs *)

Section Runs.

Import V8 Scenario.

(** C1. The rollover is not run before every read and write: it runs
    only when [initialize] loads a stored ledger into a limiter that is
    not yet initialised. On a limiter initialised on 2024-01-01 with 95
    daily tokens used and a daily limit of 100, one day later
    [checkRequest] reads the counters of the day before and denies a
    7-token request with daily_tokens, and [recordUsage] adds 30 tokens
    to them, the daily scope still stamped 2024-01-01. The same ledger
    loaded into a limiter created anew is rolled over: the request is
    allowed and the daily scope holds 30 tokens under 2024-01-02. *)
Theorem C1_rollover_only_on_load :
  getDateString day1 = js "2024-01-01" ∧
  getDateString day2 = js "2024-01-02" ∧
  initialized (rl after_day1) = true ∧
  sc_key <$> (daily <$> usage (rl after_day1)) = Some (js "2024-01-01") ∧
  daily_total after_day1 = Some 95 ∧
  limitType_of <$> check_result (fst (checkRequest day2 true small_request
                                                   after_day1))
  = Some (Some daily_tokens) ∧
  (let w := snd (recordUsage day2 true (mkUsageInfo (js "gpt-4") 20 10)
                             after_day1) in
   sc_key <$> (daily <$> usage (rl w)) = Some (js "2024-01-01") ∧
   daily_total w = Some 125) ∧
  limitType_of <$> check_result (fst (checkRequest day2 true small_request
                                                   restarted))
  = Some None ∧
  (let w := snd (recordUsage day2 true (mkUsageInfo (js "gpt-4") 20 10)
                             restarted) in
   sc_key <$> (daily <$> usage (rl w)) = Some (js "2024-01-02") ∧
   daily_total w = Some 30).
Proof. vm_compute. repeat split. Qed.

(** C2, as stated, fails: a stream cancelled after one chunk ends with
    the two error notices, and the ledger has not recorded the request. *)
Lemma C2_counterexample :
  let '(svc', notices, res) :=
    generateResponseStream day1 (day1 + 500) true service 7 (js "Hi") None
                           all_callbacks cancelled in
  notices = [ NChunk (js "Hel") (js "Hel");
              NError (new_Error (js "Stream aborted by user"));
              NError abort_error ] ∧
  res = GenFailed (js "The user aborted a request.") ∧
  ¬ recorded_once (rateLimiter service) (rateLimiter svc').
Proof.
  destruct (generateResponseStream _ _ _ _ _ _ _ _ _)
    as [[svc' notices] res] eqn:E.
  vm_compute in E. injection E as <- <- <-.
  split; [reflexivity|]. split; [reflexivity|].
  intros (u & u' & Hu & Hu' & Hreq).
  injection Hu as <-. injection Hu' as <-. vm_compute in Hreq. discriminate.
Qed.

(** The cancelled session of the counterexample meets the hypotheses of
    C2 as amended: the limiter is as it was. *)
Lemma C2_cancel_records_nothing_witness :
  rl (rateLimiter
        (fst (fst (generateResponseStream day1 (day1 + 500) true service 7
                     (js "Hi") None all_callbacks cancelled))))
  = rl (rateLimiter service).
Proof.
  pose proof (C2_cancel_records_nothing day1 (day1 + 500) true service 7
                (js "Hi") None all_callbacks cancelled) as Hc.
  cbn zeta in Hc.
  let decision :=
    eval vm_compute in
      (check_result
         (fst (checkRequest day1 true
                 (stream_request
                    (messages (prepare_conversation day1 service 7 (js "Hi")
                                                    None)))
                 (rateLimiter service)))) in
  match decision with
  | Some ?r => specialize (Hc r abort_error)
  end.
  specialize (Hc ltac:(vm_compute; discriminate)
                 ltac:(vm_compute; reflexivity) ltac:(vm_compute; reflexivity)
                 ltac:(vm_compute; reflexivity) ltac:(reflexivity)).
  destruct (generateResponseStream _ _ _ _ _ _ _ _ _) as [[svc' notices] res].
  destruct Hc as (_ & Hkeep & _). apply Hkeep. reflexivity.
Defined.

(** The invariant on a ledger after one recording, and on a new limiter
    after one call of recordUsage. *)
Lemma C3_token_invariant_witness :
  usage_ok (fst (recordUsage_body day1 default_models
                   (mkUsageInfo (js "gpt-4") 90 5) (createEmptyUsage day1))) ∧
  world_ok (snd (recordUsage day1 true (mkUsageInfo (js "gpt-4") 90 5) fresh)).
Proof.
  destruct (C3_token_invariant (H := platform))
    as (Hempty & Hrecord & _ & _ & _ & Hworld).
  split.
  - apply Hrecord, Hempty.
  - apply Hworld, rw_recordUsage, rw_new.
Defined.



(** C5, as stated, fails: on a limiter that is not yet initialised, the
    interleaving [lost_update] settles both calls and leaves
    daily.tokens.total at 100. *)
Lemma C5_counterexample :
  all_settled (sys_run lost_update racing) = true ∧
  daily_total (world (sys_run lost_update racing)) = Some 100.
Proof. vm_compute. split; reflexivity. Qed.

(** An interleaving on an initialised limiter that settles both calls. *)
Lemma C5_interleaved_recordings_witness :
  all_settled (sys_run alternating queued) = true ∧
  daily_total (world (sys_run alternating queued)) = Some 200.
Proof.
  split; [vm_compute; reflexivity|].
  apply (C5_interleaved_recordings alternating ready day1);
    [reflexivity|reflexivity|vm_compute; reflexivity].
Defined.

(** The cost example on the default table, and a request for a model
    that has no price. *)
Lemma C6_cost_witness :
  fst (calculateCost default_models (js "gpt-4") 1000 500) = Qc_of 6 100 ∧
  allowed (fst (checkRequest_body day1 (rl ready) (createEmptyUsage day1)
                                  unpriced_request)) = true.
Proof.
  destruct (C6_cost (H := platform)) as (_ & Hexample & _ & Habsent).
  split.
  - apply (Hexample _ _ 8192). vm_compute. reflexivity.
  - apply (Habsent _ _ _ _ some_price).
    + vm_compute. reflexivity.
    + split; vm_compute; discriminate.
    + vm_compute. discriminate.
    + vm_compute. reflexivity.
Defined.

(** A stream of two chunks. *)
Lemma C7_chunks_concatenate_witness :
  let run := callOpenAIStream user_says_hi all_callbacks complete_stream in
  chunks (events run) = [(js "Hel", js "Hel"); (js "lo", js "Hello")] ∧
  concat (deltas (events run)) = js "Hello".
Proof.
  destruct (C7_chunks_concatenate (H := platform)) as (_ & Hrun & _).
  destruct (Hrun user_says_hi all_callbacks complete_stream eq_refl)
    as [Hchunks Hfinal].
  split.
  - rewrite Hchunks. vm_compute. reflexivity.
  - eapply Hfinal. vm_compute. reflexivity.
Defined.


(** C9, as stated, fails: for a response with status 401 the listener
    sends streamError messages whose error is a sentence, not one of the
    failure kinds. *)
Lemma C9_counterexample :
  stream_errors
    (snd (on_generateResponseStream day1 (day1 + 500) true service 7 None
            (js "Hi") None unauthorized))
  = [ js "Invalid API key. Please check your settings.";
      js "Invalid API key. Please check your settings." ] ∧
  js "Invalid API key. Please check your settings." ∉ failure_kinds.
Proof.
  split; [vm_compute; reflexivity|].
  unfold failure_kinds. rewrite !not_elem_of_cons.
  repeat split; try (vm_compute; discriminate). apply not_elem_of_nil.
Qed.

(** What is sent for a stream cancelled after one chunk, and for a
    request that is denied on the daily token limit. *)
Lemma C9_failures_carry_messages_witness :
  snd (on_generateResponseStream day1 (day1 + 500) true service 7 None
         (js "Hi") None cancelled)
  = [ StreamChunk (js "7-1704067200000") 7 (js "Hel") (js "Hel");
      StreamError (js "7-1704067200000") 7 (js "Stream aborted by user");
      StreamError (js "7-1704067200000") 7 (js "The user aborted a request.");
      Response (GenFailed (js "The user aborted a request.")) ] ∧
  ∃ reason,
    snd (on_generateResponseStream day1 (day1 + 500) true
           (mkService ∅ (Some (js "sk-test")) after_day1 ∅) 7 None (js "Hi")
           None complete_stream)
    = [ StreamError (js "7-1704067200000") 7
          (js "Rate limit exceeded: " ++ reason);
        Response (GenRateLimited (js "Rate limit exceeded: " ++ reason)
                                 daily_tokens None) ].
Proof.
  destruct (C9_failures_carry_messages (H := platform))
    as (Hthrew & Hdenied & _).
  split.
  - pose proof (Hthrew day1 (day1 + 500) true service 7 None (js "Hi") None
                  cancelled) as Hc.
    cbn zeta in Hc.
    let decision :=
      eval vm_compute in
        (check_result
           (fst (checkRequest day1 true
                   (stream_request
                      (messages (prepare_conversation day1 service 7 (js "Hi")
                                                      None)))
                   (rateLimiter service)))) in
    match decision with
    | Some ?r => specialize (Hc r abort_error)
    end.
    specialize (Hc ltac:(vm_compute; discriminate)
                   ltac:(vm_compute; reflexivity) ltac:(vm_compute; reflexivity)
                   ltac:(vm_compute; reflexivity)).
    destruct Hc as (chunks & Hchunks & Hsent).
    vm_compute. reflexivity.
  - pose proof (Hdenied day1 (day1 + 500) true
                  (mkService ∅ (Some (js "sk-test")) after_day1 ∅) 7 None
                  (js "Hi") None complete_stream) as Hd.
    cbn zeta in Hd.
    let decision :=
      eval vm_compute in
        (check_result
           (fst (checkRequest day1 true
                   (stream_request
                      (messages
                         (prepare_conversation day1
                            (mkService ∅ (Some (js "sk-test")) after_day1 ∅)
                            7 (js "Hi") None)))
                   after_day1))) in
    match decision with
    | Some (Denied ?reason ?limitType ?retryAfter) =>
        exists reason;
        exact (Hd reason limitType retryAfter ltac:(vm_compute; discriminate)
                  ltac:(vm_compute; reflexivity))
    end.
Defined.

(** A stream whose server reports an all-zero usage record. *)
Lemma C10_usage_fallback_witness :
  outcome (callOpenAIStream user_says_hi all_callbacks complete_stream)
  = Returned (js "Hello") (mkTokenUsage 5 2 (Some 7)).
Proof.
  destruct (C10_usage_fallback (H := platform)) as [Hcall _].
  destruct (Hcall user_says_hi all_callbacks 200 None
              [ mkRead 0 (Some 120) (ReadValue frame_Hel);
                mkRead 0 (Some 80) (ReadValue (frame_lo ++ frame_zero_usage));
                mkRead 0 (Some 5) (ReadValue frame_done);
                mkRead 0 (Some 1) ReadDone ])
    as [Hout _].
  - reflexivity.
  - vm_compute. reflexivity.
  - right. vm_compute. reflexivity.
  - exact Hout.
Defined.

End Runs.

(** ** Further properties of the usage ledger *)

Section Periods.

Context `{Platform}.

Lemma checkAndResetPeriods_body_keys now u :
  sc_key (daily (fst (checkAndResetPeriods_body now u))) = getDateString now ∧
  sc_key (monthly (fst (checkAndResetPeriods_body now u))) = getMonthString now.
Proof.
  unfold checkAndResetPeriods_body.
  destruct (decide (sc_key (daily u) = getDateString now)) as [Hd|Hd];
    destruct (decide (sc_key (monthly u) = getMonthString now)) as [Hm|Hm].
  - rewrite (bool_decide_eq_false_2 _ (λ H, H Hd)). simpl.
    by rewrite (bool_decide_eq_false_2 _ (λ H, H Hm)).
  - rewrite (bool_decide_eq_false_2 _ (λ H, H Hd)). simpl.
    by rewrite (bool_decide_eq_true_2 _ Hm).
  - rewrite (bool_decide_eq_true_2 _ Hd). simpl.
    by rewrite (bool_decide_eq_false_2 _ (λ H, H Hm)).
  - rewrite (bool_decide_eq_true_2 _ Hd). simpl.
    by rewrite (bool_decide_eq_true_2 _ Hm).
Qed.

Lemma checkAndResetPeriods_body_current now u :
  sc_key (daily u) = getDateString now →
  sc_key (monthly u) = getMonthString now →
  checkAndResetPeriods_body now u = (u, false).
Proof.
  intros Hd Hm. unfold checkAndResetPeriods_body.
  rewrite (bool_decide_eq_false_2 _ (λ H, H Hd)).
  by rewrite (bool_decide_eq_false_2 _ (λ H, H Hm)).
Qed.

Lemma checkAndResetPeriods_body_rest now u :
  minutely (fst (checkAndResetPeriods_body now u)) = minutely u ∧
  lifetime (fst (checkAndResetPeriods_body now u)) = lifetime u.
Proof.
  unfold checkAndResetPeriods_body.
  by repeat (case_bool_decide; simpl).
Qed.

(** X1. The rollover test of checkAndResetPeriods leaves the daily scope
    stamped with the current date and the monthly scope with the current
    month, does not touch the per-minute window or the lifetime scope, and
    run again at the same time it changes nothing and asks for no save. *)
Theorem X1_rollover_current now u :
  let u1 := fst (checkAndResetPeriods_body now u) in
  sc_key (daily u1) = getDateString now ∧
  sc_key (monthly u1) = getMonthString now ∧
  minutely u1 = minutely u ∧
  lifetime u1 = lifetime u ∧
  checkAndResetPeriods_body now u1 = (u1, false).
Proof.
  cbn zeta.
  destruct (checkAndResetPeriods_body_keys now u) as [Hd Hm].
  destruct (checkAndResetPeriods_body_rest now u) as [Hmin Hlife].
  repeat (split; [assumption|]).
  by apply checkAndResetPeriods_body_current.
Qed.

(** *** [initialize] *)

Lemma initialize_initialized now ok w :
  initialized (rl w) = true → initialize now ok w = w.
Proof. intros Hi. unfold initialize, initialize_call. by rewrite Hi. Qed.

(** The three ways through [initialize] on a limiter that is not
    initialised. *)
Lemma initialize_cases now ok w :
  initialized (rl w) = false →
  initialize now ok w
  = if ok then
      match storage w with
      | Some stored =>
          let u := fst (checkAndResetPeriods_body now stored) in
          set_initialized
            (if snd (checkAndResetPeriods_body now stored)
             then saveUsage true (set_usage (Some u) w)
             else set_usage (Some u) w)
      | None =>
          set_initialized
            (saveUsage true (set_usage (Some (createEmptyUsage now)) w))
      end
    else initialize_catch now w.
Proof.
  intros Hi. unfold initialize, initialize_call. rewrite Hi.
  destruct ok; [|reflexivity].
  destruct (storage w) as [stored|]; [|reflexivity].
  cbn [initialize_resume].
  destruct (checkAndResetPeriods_body now stored) as [u [|]]; reflexivity.
Qed.

Lemma initialize_sets_flag now ok w :
  initialized (rl (initialize now ok w)) = true.
Proof.
  destruct (initialized (rl w)) eqn:Hi.
  - by rewrite initialize_initialized.
  - rewrite initialize_cases by done.
    destruct ok; [|reflexivity].
    destruct (storage w); reflexivity.
Qed.

Lemma initialize_keeps_config now ok w :
  models (rl (initialize now ok w)) = models (rl w) ∧
  limits (rl (initialize now ok w)) = limits (rl w).
Proof.
  destruct (initialized (rl w)) eqn:Hi.
  - by rewrite initialize_initialized.
  - rewrite initialize_cases by done.
    destruct ok; [|by split].
    destruct (storage w) as [stored|]; [|by split].
    cbn zeta. by destruct (snd (checkAndResetPeriods_body now stored)).
Qed.

Lemma initialize_current now ok w :
  initialized (rl w) = false →
  ∃ u, usage (rl (initialize now ok w)) = Some u ∧
       sc_key (daily u) = getDateString now ∧
       sc_key (monthly u) = getMonthString now.
Proof.
  intros Hi. rewrite initialize_cases by done.
  destruct ok.
  - destruct (storage w) as [stored|].
    + exists (fst (checkAndResetPeriods_body now stored)).
      split; [|apply checkAndResetPeriods_body_keys].
      cbn zeta. by destruct (snd (checkAndResetPeriods_body now stored)).
    + by exists (createEmptyUsage now).
  - by exists (createEmptyUsage now).
Qed.

(** X2. On a limiter that is not initialised, initialize ends with the
    limiter initialised and a ledger whose daily and monthly scopes carry
    the current date and month, whatever the store holds and whether or
    not the store answers; the pricing table and the limits are kept; and
    any later call of initialize returns at once. *)
Theorem X2_initialize now ok w :
  initialized (rl w) = false →
  let w1 := initialize now ok w in
  initialized (rl w1) = true ∧
  (∃ u, usage (rl w1) = Some u ∧
        sc_key (daily u) = getDateString now ∧
        sc_key (monthly u) = getMonthString now) ∧
  models (rl w1) = models (rl w) ∧
  limits (rl w1) = limits (rl w) ∧
  ∀ now' ok', initialize now' ok' w1 = w1.
Proof.
  intros Hi w1.
  split; [apply initialize_sets_flag|].
  split; [by apply initialize_current|].
  split; [apply initialize_keeps_config|].
  split; [apply initialize_keeps_config|].
  intros now' ok'. apply initialize_initialized, initialize_sets_flag.
Qed.

(** *** The methods run [initialize] first *)

Lemma checkRequest_step_done now ok requestInfo r w :
  checkRequest_step now ok requestInfo (CR_Done r) w = (CR_Done r, w).
Proof. reflexivity. Qed.

Lemma checkRequest_step_body now ok requestInfo w :
  ∃ r, fst (checkRequest_step now ok requestInfo CR_Body w) = CR_Done r.
Proof.
  cbn. destruct (usage (rl w)) as [u|]; [|by eexists].
  destruct (checkRequest_body now (rl w) u requestInfo). by eexists.
Qed.

Lemma checkRequest_step_stay now ok requestInfo w :
  let s := checkRequest_step now ok requestInfo CR_Body w in
  checkRequest_step now ok requestInfo (fst s) (snd s) = s.
Proof.
  cbn zeta. destruct (checkRequest_step_body now ok requestInfo w) as [r Hr].
  destruct (checkRequest_step now ok requestInfo CR_Body w) as [pc w2].
  simpl in Hr. by subst pc.
Qed.

(** [checkRequest] is [initialize] followed by the checks. *)
Lemma checkRequest_via_initialize now ok requestInfo w :
  checkRequest now ok requestInfo w
  = checkRequest_step now ok requestInfo CR_Body (initialize now ok w).
Proof.
  pose proof (checkRequest_step_stay now ok requestInfo) as Hstay.
  cbn zeta in Hstay.
  unfold checkRequest. rewrite run_alone_unroll.
  destruct (initialized (rl w)) eqn:Hi.
  - rewrite initialize_initialized by done.
    assert (checkRequest_step now ok requestInfo CR_Call w = (CR_Body, w))
      as -> by (cbn; unfold initialize_call; by rewrite Hi).
    cbn zeta. cbn [fst snd]. by rewrite !Hstay.
  - rewrite initialize_cases by done.
    destruct ok.
    + assert (checkRequest_step now true requestInfo CR_Call w
              = (CR_Init (InitGet (Some (storage w))), w))
        as -> by (cbn; unfold initialize_call; by rewrite Hi).
      cbn zeta. cbn [fst snd].
      destruct (storage w) as [stored|] eqn:Hs.
      * destruct (checkAndResetPeriods_body now stored) as [u needsSave] eqn:Hr.
        cbn [fst snd].
        assert (checkRequest_step now true requestInfo
                  (CR_Init (InitGet (Some (Some stored)))) w
                = (CR_Init (InitReset true),
                   if needsSave then saveUsage true (set_usage (Some u) w)
                   else set_usage (Some u) w))
          as -> by (cbn; rewrite Hr; by destruct needsSave).
        cbn [fst snd].
        assert (∀ w', checkRequest_step now true requestInfo
                        (CR_Init (InitReset true)) w'
                      = (CR_Body, set_initialized w')) as -> by done.
        cbn [fst snd]. by rewrite !Hstay.
      * assert (checkRequest_step now true requestInfo
                  (CR_Init (InitGet (Some None))) w
                = (CR_Init (InitSaveEmpty true),
                   saveUsage true (set_usage (Some (createEmptyUsage now)) w)))
          as -> by done.
        cbn [fst snd].
        assert (∀ w', checkRequest_step now true requestInfo
                        (CR_Init (InitSaveEmpty true)) w'
                      = (CR_Body, set_initialized w')) as -> by done.
        cbn [fst snd]. by rewrite !Hstay.
    + assert (checkRequest_step now false requestInfo CR_Call w
              = (CR_Init (InitGet None), w))
        as -> by (cbn; unfold initialize_call; by rewrite Hi).
      cbn zeta. cbn [fst snd].
      assert (checkRequest_step now false requestInfo (CR_Init (InitGet None)) w
              = (CR_Body, initialize_catch now w)) as -> by done.
      cbn [fst snd]. by rewrite !Hstay.
Qed.

(** [checkRequest] run alone, in terms of [initialize]. *)
Lemma checkRequest_outcome now ok requestInfo w :
  checkRequest now ok requestInfo w
  = let w0 := initialize now ok w in
    match usage (rl w0) with
    | Some u =>
        (CR_Done (Some (fst (checkRequest_body now (rl w0) u requestInfo))),
         print (snd (checkRequest_body now (rl w0) u requestInfo)) w0)
    | None => (CR_Done None, w0)
    end.
Proof.
  rewrite checkRequest_via_initialize. cbn zeta.
  generalize (initialize now ok w). intros w0. cbn.
  destruct (usage (rl w0)) as [u|]; [|done].
  by destruct (checkRequest_body now (rl w0) u requestInfo).
Qed.

(** [recordUsage] is [initialize] followed by the update and the save. *)
Lemma recordUsage_via_initialize now ok usageInfo w :
  recordUsage now ok usageInfo w
  = let w1 := initialize now ok w in
    match usage (rl w1) with
    | Some u =>
        (RU_Done ok,
         saveUsage ok
           (set_usage
              (Some (fst (recordUsage_body now (models (rl w1)) usageInfo u)))
              (print (snd (recordUsage_body now (models (rl w1)) usageInfo u))
                     w1)))
    | None => (RU_Done false, w1)
    end.
Proof.
  assert (Hbody : ∀ w1,
            let s := recordUsage_step now ok usageInfo RU_Body w1 in
            recordUsage_step now ok usageInfo (fst s) (snd s)
            = match usage (rl w1) with
              | Some u =>
                  (RU_Done ok,
                   saveUsage ok
                     (set_usage
                        (Some (fst (recordUsage_body now (models (rl w1))
                                                     usageInfo u)))
                        (print (snd (recordUsage_body now (models (rl w1))
                                                      usageInfo u)) w1)))
              | None => (RU_Done false, w1)
              end).
  { intros w1. cbn. destruct (usage (rl w1)) as [u|]; [|done].
    by destruct (recordUsage_body now (models (rl w1)) usageInfo u). }
  assert (Hdone : ∀ w1,
            let s := recordUsage_step now ok usageInfo RU_Body w1 in
            let s' := recordUsage_step now ok usageInfo (fst s) (snd s) in
            recordUsage_step now ok usageInfo (fst s') (snd s') = s').
  { intros w1. cbn zeta. rewrite (Hbody w1).
    by destruct (usage (rl w1)). }
  cbn zeta in Hbody, Hdone.
  unfold recordUsage. rewrite run_alone_unroll.
  destruct (initialized (rl w)) eqn:Hi.
  - rewrite initialize_initialized by done.
    assert (recordUsage_step now ok usageInfo RU_Call w = (RU_Body, w))
      as -> by (cbn; unfold initialize_call; by rewrite Hi).
    cbn zeta. cbn [fst snd]. by rewrite !Hdone, Hbody.
  - rewrite initialize_cases by done.
    destruct ok.
    + assert (recordUsage_step now true usageInfo RU_Call w
              = (RU_Init (InitGet (Some (storage w))), w))
        as -> by (cbn; unfold initialize_call; by rewrite Hi).
      cbn zeta. cbn [fst snd].
      destruct (storage w) as [stored|] eqn:Hs.
      * destruct (checkAndResetPeriods_body now stored) as [u needsSave] eqn:Hr.
        cbn [fst snd].
        assert (recordUsage_step now true usageInfo
                  (RU_Init (InitGet (Some (Some stored)))) w
                = (RU_Init (InitReset true),
                   if needsSave then saveUsage true (set_usage (Some u) w)
                   else set_usage (Some u) w))
          as -> by (cbn; rewrite Hr; by destruct needsSave).
        cbn [fst snd].
        assert (∀ w', recordUsage_step now true usageInfo
                        (RU_Init (InitReset true)) w'
                      = (RU_Body, set_initialized w')) as -> by done.
        cbn [fst snd]. by rewrite Hbody.
      * assert (recordUsage_step now true usageInfo
                  (RU_Init (InitGet (Some None))) w
                = (RU_Init (InitSaveEmpty true),
                   saveUsage true (set_usage (Some (createEmptyUsage now)) w)))
          as -> by done.
        cbn [fst snd].
        assert (∀ w', recordUsage_step now true usageInfo
                        (RU_Init (InitSaveEmpty true)) w'
                      = (RU_Body, set_initialized w')) as -> by done.
        cbn [fst snd]. by rewrite Hbody.
    + assert (recordUsage_step now false usageInfo RU_Call w
              = (RU_Init (InitGet None), w))
        as -> by (cbn; unfold initialize_call; by rewrite Hi).
      cbn zeta. cbn [fst snd].
      assert (recordUsage_step now false usageInfo (RU_Init (InitGet None)) w
              = (RU_Body, initialize_catch now w)) as -> by done.
      cbn [fst snd]. by rewrite Hdone, Hbody.
Qed.

(** X3. An admission check writes nothing but the console once the
    limiter is initialised: the limiter, its ledger and the store after
    checkRequest are those that initialize alone leaves, whatever the
    request and whatever the decision. *)
Theorem X3_checkRequest_reads_only now ok requestInfo w :
  ∃ out,
    snd (checkRequest now ok requestInfo w) = print out (initialize now ok w).
Proof.
  rewrite checkRequest_via_initialize.
  generalize (initialize now ok w). intros w1. cbn.
  destruct (usage (rl w1)) as [u|].
  - destruct (checkRequest_body now (rl w1) u requestInfo) as [res out].
    by exists out.
  - exists []. unfold print. destruct w1. cbn. by rewrite app_nil_r.
Qed.

(** *** The per-minute window *)

(** X4. After recordUsage has updated the ledger at time now, the
    per-minute window holds exactly the time now and the earlier entries
    less than 60000 ms old; in particular every entry is younger than a
    minute and the window is not empty. *)
Theorem X4_minute_window now ms usageInfo u :
  let window := mn_requests (minutely (fst (recordUsage_body now ms usageInfo u))) in
  (∀ t, t ∈ window ↔
        t = now ∨ (t ∈ mn_requests (minutely u) ∧ now - 60000 < t)) ∧
  Forall (λ t, now - 60000 < t) window ∧
  last window = Some now ∧
  (length window <= S (length (mn_requests (minutely u))))%nat.
Proof.
  cbn zeta. unfold recordUsage_body.
  destruct (calculateCost ms (ui_model usageInfo) (ui_promptTokens usageInfo)
              (ui_completionTokens usageInfo)) as [cost out].
  cbn [fst minutely mn_requests].
  rewrite filter_app.
  assert (filter (λ timestamp, now - 60000 < timestamp) [now] = [now]) as ->.
  { rewrite filter_cons_True by lia. reflexivity. }
  split; [|split; [|split]].
  - intros t. rewrite elem_of_app, list_elem_of_filter, list_elem_of_singleton.
    tauto.
  - apply Forall_app. split.
    + apply Forall_forall. intros t Ht. by apply list_elem_of_filter in Ht as [? _].
    + apply Forall_singleton. lia.
  - apply last_snoc.
  - rewrite length_app. simpl.
    pose proof (length_filter (λ timestamp, now - 60000 < timestamp)
                  (mn_requests (minutely u))).
    lia.
Qed.

Lemma after_checks_keeps_ledger cs w :
  initialized (rl w) = true →
  rl (after_checks cs w) = rl w ∧ storage (after_checks cs w) = storage w.
Proof.
  revert w. induction cs as [|[[now ok] requestInfo] cs IH]; intros w Hi;
    [done|].
  change (after_checks ((now, ok, requestInfo) :: cs) w)
    with (after_checks cs (snd (checkRequest now ok requestInfo w))).
  destruct (checkRequest_keeps_ledger now ok requestInfo w Hi) as [Hrl Hst].
  destruct (IH (snd (checkRequest now ok requestInfo w))) as [Hrl' Hst'].
  { by rewrite Hrl. }
  by rewrite Hrl', Hst', Hrl, Hst.
Qed.

Lemma checkRequest_body_window_full now r u requestInfo n :
  lim_perMinute (limits r) = LNum n →
  n <= Z.of_nat (length (mn_requests (minutely u))) →
  fst (checkRequest_body now r u requestInfo) = checkMinuteLimit now (limits r) u ∧
  ∃ reason,
    checkMinuteLimit now (limits r) u
    = Denied reason rate
        (Some match mn_requests (minutely u) with
              | [] => Forever
              | t :: ts => Seconds (60 - (now - list_min t ts) / 1000)
              end).
Proof.
  intros Hl Hn.
  assert (Hm : ∃ reason,
            checkMinuteLimit now (limits r) u
            = Denied reason rate
                (Some match mn_requests (minutely u) with
                      | [] => Forever
                      | t :: ts => Seconds (60 - (now - list_min t ts) / 1000)
                      end)).
  { unfold checkMinuteLimit. rewrite Hl.
    rewrite (bool_decide_eq_true_2 _ Hn). by eexists. }
  split; [|exact Hm].
  destruct Hm as [reason Hm].
  unfold checkRequest_body.
  destruct (calculateCost _ _ _ _) as [cost out].
  by rewrite Hm.
Qed.

(** X5. checkRequest never prunes the per-minute window. Once the window
    of an initialised limiter holds as many entries as the per-minute
    limit, every admission check is denied on the rate limit, at any
    later time and after any number of further checks, until a recording
    is made; the retryAfter it reports is 60 minus the whole seconds since
    the oldest entry, which is zero or negative from the moment that
    entry is a minute old. *)
Theorem X5_rate_denial_sticky w u n cs now ok requestInfo :
  initialized (rl w) = true →
  usage (rl w) = Some u →
  lim_perMinute (limits (rl w)) = LNum n →
  n <= Z.of_nat (length (mn_requests (minutely u))) →
  ∃ reason retry,
    check_result (fst (checkRequest now ok requestInfo (after_checks cs w)))
    = Some (Denied reason rate (Some retry)) ∧
    ∀ t ts, mn_requests (minutely u) = t :: ts →
            retry = Seconds (60 - (now - list_min t ts) / 1000) ∧
            (list_min t ts + 60000 <= now →
             60 - (now - list_min t ts) / 1000 <= 0).
Proof.
  intros Hi Hu Hl Hn.
  destruct (after_checks_keeps_ledger cs w Hi) as [Hrl _].
  assert (Hi' : initialized (rl (after_checks cs w)) = true) by by rewrite Hrl.
  assert (Hu' : usage (rl (after_checks cs w)) = Some u) by by rewrite Hrl.
  rewrite (checkRequest_initialized _ _ _ _ u Hi' Hu'). cbn [fst check_result].
  rewrite Hrl.
  destruct (checkRequest_body_window_full now (rl w) u requestInfo n Hl Hn)
    as [-> [reason ->]].
  eexists _, _. split; [reflexivity|].
  intros t ts ->. split; [reflexivity|].
  intros Hold.
  assert (60 <= (now - list_min t ts) / 1000)
    by (apply Z.div_le_lower_bound; lia).
  lia.
Qed.

(** *** Counters *)

Lemma breakdown_sum_comm (f : Counters → Z) (j1 j2 : JSString) (z1 z2 : Counters)
    (y : Z) :
  f z1 + (f z2 + y) = f z2 + (f z1 + y).
Proof. lia. Qed.

Lemma breakdown_sum_insert f m k c :
  breakdown_sum f (<[k := c]> m)
  = breakdown_sum f m - from_option f 0 (m !! k) + f c.
Proof.
  unfold breakdown_sum.
  destruct (m !! k) as [c0|] eqn:Hk; cbn [from_option].
  - rewrite <- insert_delete_eq.
    rewrite map_fold_insert_L; [|intros; lia|apply lookup_delete_eq].
    rewrite (map_fold_delete_L _ _ k c0 m); [lia|intros; lia|exact Hk].
  - rewrite map_fold_insert_L; [lia|intros; lia|exact Hk].
Qed.

Lemma empty_scope_agrees key : breakdown_agrees (empty_scope key).
Proof.
  unfold breakdown_agrees, breakdown_sum, empty_scope. cbn.
  by rewrite !map_fold_empty.
Qed.

Lemma add_to_scope_agrees model p c t cost s :
  breakdown_agrees s → breakdown_agrees (add_to_scope model p c t cost s).
Proof.
  intros (Hr & Hp & Hc & Ht).
  unfold breakdown_agrees, add_to_scope. cbn [sc_modelBreakdown sc_counters].
  rewrite !breakdown_sum_insert, Hr, Hp, Hc, Ht.
  destruct (sc_modelBreakdown s !! model) as [c0|]; cbn; repeat split; lia.
Qed.

(** X6. In every ledger reachable from the empty one, the request count
    and the prompt, completion and total token counts of the daily, the
    monthly and the lifetime scope are the sums of the same counts over
    the entries of the scope's modelBreakdown. *)
Theorem X6_breakdown_sums u :
  reachable u →
  breakdown_agrees (daily u) ∧ breakdown_agrees (monthly u) ∧
  breakdown_agrees (lifetime u).
Proof.
  induction 1 as [now|now ms usageInfo u Hu (Hd & Hm & Hl)
                  |now u Hu (Hd & Hm & Hl)|now period u Hu (Hd & Hm & Hl)].
  - repeat split; apply empty_scope_agrees.
  - unfold recordUsage_body. destruct (calculateCost _ _ _ _) as [cost out].
    cbn [fst daily monthly lifetime].
    auto using add_to_scope_agrees.
  - unfold checkAndResetPeriods_body.
    repeat (case_bool_decide; cbn [fst daily monthly lifetime]);
      auto using empty_scope_agrees.
  - destruct period; cbn; auto using empty_scope_agrees.
Qed.

(** X7. In every ledger reachable from the empty one no request count is
    negative, the daily and the monthly count are at most the lifetime
    count, and the per-minute window has at most as many entries as the
    lifetime count: nothing ever lowers the lifetime scope. *)
Theorem X7_lifetime_bounds u :
  reachable u → requests_bounded u.
Proof.
  unfold requests_bounded.
  induction 1 as [now|now ms usageInfo u Hu IH|now u Hu IH|now period u Hu IH];
    cbn zeta in *.
  - cbn. lia.
  - unfold recordUsage_body. destruct (calculateCost _ _ _ _) as [cost out].
    cbn [fst daily monthly lifetime minutely mn_requests add_to_scope
         sc_counters add_counters c_requests].
    pose proof (length_filter (λ timestamp, now - 60000 < timestamp)
                  (mn_requests (minutely u) ++ [now])) as Hlen.
    rewrite length_app in Hlen. simpl in Hlen. lia.
  - unfold checkAndResetPeriods_body.
    repeat (case_bool_decide; cbn [fst daily monthly lifetime minutely]);
      cbn; lia.
  - destruct period; cbn; lia.
Qed.

(** *** Admission and recording together *)

Lemma overZ_false l v n : overZ l v = false → truthyZ l = Some n → v <= n.
Proof.
  unfold overZ. intros Ho Hl. rewrite Hl in Ho.
  apply bool_decide_eq_false in Ho. lia.
Qed.

Lemma overQc_false l v q :
  overQc l v = false → truthyQc l = Some q → (v <= q)%Qc.
Proof.
  unfold overQc. intros Ho Hl. rewrite Hl in Ho.
  apply bool_decide_eq_false in Ho. by apply Qcnot_lt_le.
Qed.

Lemma checkPeriodLimits_pass Name kt kr kc s ls tokens cost :
  allowed (checkPeriodLimits Name kt kr kc s ls tokens cost) = true →
  overZ (lim_tokens ls) (tk_total (c_tokens (sc_counters s)) + tokens) = false ∧
  overZ (lim_requests ls) (c_requests (sc_counters s) + 1) = false ∧
  overQc (lim_cost ls) (c_cost (sc_counters s) + cost)%Qc = false.
Proof.
  unfold checkPeriodLimits.
  destruct (overZ (lim_tokens ls) _); [done|].
  destruct (overZ (lim_requests ls) _); [done|].
  by destruct (overQc (lim_cost ls) _).
Qed.

Lemma add_to_scope_within ls model p c cost s tokens cost' Name kt kr kc :
  allowed (checkPeriodLimits Name kt kr kc s ls tokens cost') = true →
  p + c <= tokens → (cost <= cost')%Qc →
  within ls (add_to_scope model p c (p + c) cost s).
Proof.
  intros Hpass Ht Hc.
  destruct (checkPeriodLimits_pass _ _ _ _ _ _ _ _ Hpass) as (H1 & H2 & H3).
  unfold within, add_to_scope.
  cbn [sc_counters add_counters c_tokens tk_total c_requests c_cost].
  split; [|split].
  - intros n Hn. pose proof (overZ_false _ _ _ H1 Hn). lia.
  - intros n Hn. exact (overZ_false _ _ _ H2 Hn).
  - intros q Hq. pose proof (overQc_false _ _ _ H3 Hq) as Hle.
    eapply Qcle_trans; [|exact Hle]. by apply Qcplus_le_mono_l.
Qed.

(** X8. A request that checkRequest allows and whose recorded usage stays
    within what was estimated for it (tokens and cost) leaves the daily
    and the monthly scope within every limit that is in force: the token
    total, the request count and the cost after recordUsage are at most
    the limits. *)
Theorem X8_recording_within_estimate now now' r u requestInfo usageInfo :
  let promptTokens := countTokens (ri_prompt requestInfo) in
  let completion := default 500 (ri_estimatedCompletion requestInfo) in
  allowed (fst (checkRequest_body now r u requestInfo)) = true →
  ui_promptTokens usageInfo + ui_completionTokens usageInfo
    <= promptTokens + completion →
  (fst (calculateCost (models r) (ui_model usageInfo)
          (ui_promptTokens usageInfo) (ui_completionTokens usageInfo))
   <= fst (calculateCost (models r) (ri_model requestInfo) promptTokens
             completion))%Qc →
  let u' := fst (recordUsage_body now' (models r) usageInfo u) in
  within (lim_daily (limits r)) (daily u') ∧
  within (lim_monthly (limits r)) (monthly u').
Proof.
  intros promptTokens completion Hallowed Htokens Hcost.
  rewrite checkRequest_body_allowed in Hallowed.
  fold promptTokens completion in Hallowed.
  apply andb_true_iff in Hallowed as [Hallowed _].
  apply andb_true_iff in Hallowed as [Hallowed Hmonthly].
  apply andb_true_iff in Hallowed as [_ Hdaily].
  unfold recordUsage_body.
  destruct (calculateCost (models r) (ui_model usageInfo) _ _) as [cost out].
  cbn [fst] in Hcost. cbn [fst daily monthly].
  split.
  - eapply add_to_scope_within; [exact Hdaily|exact Htokens|exact Hcost].
  - eapply add_to_scope_within; [exact Hmonthly|exact Htokens|exact Hcost].
Qed.

(** *** The token estimate *)

Lemma split_ws_from_length cur in_ws s :
  (1 <= length (split_ws_from cur in_ws s) <= S (length s))%nat.
Proof.
  revert cur in_ws. induction s as [|c s IH]; intros cur in_ws; simpl; [lia|].
  destruct (is_ws c).
  - destruct in_ws.
    + specialize (IH cur true). lia.
    + simpl. specialize (IH [] true). lia.
  - specialize (IH (c :: cur) false). lia.
Qed.

Lemma Qceiling_fortieths z : Qceiling (z # 40) = (z + 39) / 40.
Proof.
  unfold Qceiling, Qfloor. cbn [Qopp Qnum Qden].
  change (Z.pos 40) with 40. Z.div_mod_to_equations. lia.
Qed.

Lemma countTokens_formula text :
  text ≠ [] →
  countTokens text
  = (26 * Z.of_nat (length (split_ws text)) + 5 * len text + 39) / 40.
Proof.
  intros Hne. unfold countTokens. rewrite bool_decide_eq_false_2 by done.
  rewrite <- Qceiling_fortieths. apply Qceiling_comp.
  generalize (Z.of_nat (length (split_ws text))) (len text). intros w c.
  unfold Qeq, Qdiv, Qmult, Qplus, Qinv, inject_Z. cbn. lia.
Qed.

(** X9. countTokens is 0 for the empty text. For any other text it is
    the integer (26 w + 5 c + 39) div 40, where w is the number of pieces
    that split(/\s+/) yields and c the length of the text; it is at least
    1 and at most c + 1. *)
Theorem X9_countTokens_formula :
  countTokens [] = 0 ∧
  ∀ text,
    text ≠ [] →
    countTokens text
    = (26 * Z.of_nat (length (split_ws text)) + 5 * len text + 39) / 40 ∧
    1 <= countTokens text <= len text + 1.
Proof.
  split; [reflexivity|].
  intros text Hne. rewrite (countTokens_formula text Hne).
  split; [reflexivity|].
  pose proof (split_ws_from_length [] false text) as Hw.
  fold (split_ws text) in Hw.
  assert (1 <= len text).
  { unfold len. destruct text; [done|]. simpl. lia. }
  unfold len in *. split.
  - apply Z.div_le_lower_bound; lia.
  - apply Z.lt_succ_r, Z.div_lt_upper_bound; lia.
Qed.

(** *** Manual reset *)

Lemma resetUsage_initialized now ok period w u :
  initialized (rl w) = true → usage (rl w) = Some u →
  resetUsage now ok period w
  = (RS_Done ok,
     saveUsage ok (set_usage (Some (resetUsage_body now period u)) w)).
Proof.
  intros Hi Hu. unfold resetUsage. rewrite run_alone_unroll.
  assert (resetUsage_step now ok period RS_Call w = (RS_Body, w))
    as -> by (cbn; unfold initialize_call; by rewrite Hi).
  cbn zeta. cbn [fst snd].
  assert (resetUsage_step now ok period RS_Body w
          = (RS_Save ok,
             saveUsage ok (set_usage (Some (resetUsage_body now period u)) w)))
    as -> by (cbn; by rewrite Hu).
  reflexivity.
Qed.

(** X10. resetUsage on an initialised limiter replaces the scope of the
    period named by an empty one stamped with the current date or month
    and leaves the other scopes and the per-minute window as they are;
    for any other period name the ledger is unchanged. In each case the
    ledger is saved: when the save succeeds the store holds the ledger
    in memory, and when it is rejected the call is rejected with the
    ledger in memory already changed. *)
Theorem X10_resetUsage now ok period w u :
  initialized (rl w) = true →
  usage (rl w) = Some u →
  let '(pc, w1) := resetUsage now ok period w in
  pc = RS_Done ok ∧
  usage (rl w1)
  = Some match period with
         | P_daily =>
             mkUsage (empty_scope (getDateString now)) (monthly u)
                     (minutely u) (lifetime u)
         | P_monthly =>
             mkUsage (daily u) (empty_scope (getMonthString now))
                     (minutely u) (lifetime u)
         | P_other => u
         end ∧
  storage w1 = (if ok then usage (rl w1) else storage w).
Proof.
  intros Hi Hu. rewrite (resetUsage_initialized _ _ _ _ u Hi Hu).
  split; [reflexivity|].
  destruct ok, period; by cbn.
Qed.

(** *** Changing the limits *)

(** X11. updateLimits replaces each group of limits as a whole. After
    the settings panel has saved a daily token or cost limit, the daily
    request limit is no longer in force and neither is the one of the two
    that was left blank: the daily check never denies on them, whatever
    the ledger and the request. The monthly limits, the per-minute limit,
    the ledger and the store are kept. *)
Theorem X11_settings_drop_limits dailyTokenLimit dailyCostLimit w u tokens cost :
  let after tl cl := updateLimits (settings_limits tl cl) w in
  let kind w1 := limitType_of (checkDailyLimits (limits (rl w1)) u tokens cost) in
  kind (after dailyTokenLimit dailyCostLimit) ≠ Some daily_requests ∧
  kind (after None dailyCostLimit) ≠ Some daily_tokens ∧
  kind (after dailyTokenLimit None) ≠ Some daily_cost ∧
  lim_monthly (limits (rl (after dailyTokenLimit dailyCostLimit)))
  = lim_monthly (limits (rl w)) ∧
  lim_perMinute (limits (rl (after dailyTokenLimit dailyCostLimit)))
  = lim_perMinute (limits (rl w)) ∧
  usage (rl (after dailyTokenLimit dailyCostLimit)) = usage (rl w) ∧
  storage (after dailyTokenLimit dailyCostLimit) = storage w.
Proof.
  cbn zeta. unfold checkDailyLimits. rewrite !checkPeriodLimits_kind.
  unfold updateLimits, settings_limits, first_violated.
  cbn [rl limits lim_daily lim_monthly lim_perMinute default from_option
       lim_tokens lim_requests lim_cost usage storage].
  split; [|split; [|split]]; [| | |done].
  - change (overZ LUndefined ?v) with false.
    cbn. destruct (overZ _ _); cbn; [done|]. by destruct (overQc _ _).
  - change (overZ LUndefined ?v) with false.
    cbn. by destruct (overQc _ _).
  - change (overQc LUndefined ?v) with false.
    change (overZ LUndefined ?v) with false.
    cbn. by destruct (overZ _ _).
Qed.

(** *** Export and import *)

(** X12. Importing what exportData has just returned changes nothing in
    the limiter: ledger, limits, pricing table and the initialised flag
    are as exportData left them. The ledger is written to the store when
    the first save succeeds, and the call is fulfilled when both saves
    succeed. *)
Theorem X12_export_import now ok ok_usage ok_config w :
  initialized (rl w) = false ∨ is_Some (usage (rl w)) →
  let '(data, w1) := exportData now ok w in
  let '(res, w2) := importData ok_usage ok_config (Some data) w1 in
  rl w2 = rl w1 ∧
  console w2 = console w1 ∧
  storage w2 = (if ok_usage then usage (rl w1) else storage w1) ∧
  res = (if ok_usage && ok_config then Imported else ImportRejected).
Proof.
  intros Hw. unfold exportData. cbn zeta.
  assert (Hu : is_Some (usage (rl (initialize now ok w)))).
  { destruct Hw as [Hi|Hu].
    - destruct (initialize_current now ok w Hi) as (u & -> & _). by eexists.
    - destruct (initialized (rl w)) eqn:Hi.
      + by rewrite initialize_initialized.
      + destruct (initialize_current now ok w Hi) as (u & -> & _). by eexists. }
  destruct Hu as [u Hu].
  generalize dependent (initialize now ok w). intros w1 Hu.
  unfold importData. cbn [mbind option_bind ex_usage]. rewrite Hu.
  cbn [default ex_models ex_limits].
  destruct w1 as [[ms ls us ini] st co]. cbn in Hu. subst us.
  destruct ok_usage; cbn; repeat split.
Qed.

(** X13. importData neither runs initialize nor marks the limiter
    initialised. On a limiter that has not served a call yet the next
    call therefore loads the ledger from the store: it works on the
    imported ledger, rolled over to the current period, when the save of
    the import succeeded, and when that save was rejected the imported
    ledger is dropped and the call works on what it would have had
    without the import. *)
Theorem X13_import_before_first_use now ok ok_config data u w :
  initialized (rl w) = false →
  ex_usage data = Some u →
  usage (rl (initialize now true
               (snd (importData true ok_config (Some data) w))))
  = Some (fst (checkAndResetPeriods_body now u)) ∧
  usage (rl (initialize now ok
               (snd (importData false ok_config (Some data) w))))
  = usage (rl (initialize now ok w)).
Proof.
  intros Hi Hu. unfold importData. cbn [mbind option_bind]. rewrite Hu.
  cbn [snd saveUsage]. split.
  - rewrite initialize_cases by done. cbn [storage rl usage].
    cbn zeta. by destruct (snd (checkAndResetPeriods_body now u)).
  - rewrite !initialize_cases by done. cbn [storage].
    destruct ok; [|done].
    destruct (storage w) as [stored|]; [|done].
    cbn zeta. by destruct (snd (checkAndResetPeriods_body now stored)).
Qed.

(** *** Usage statistics *)

Lemma Z2Qc_le a b : a <= b → (Z2Qc a <= Z2Qc b)%Qc.
Proof.
  intros Hab. unfold Z2Qc, Qcle. cbn. rewrite !Qred_correct.
  by rewrite <- Zle_Qle.
Qed.

Lemma Qcinv_nonneg y : (0 <= y)%Qc → (0 <= / y)%Qc.
Proof.
  unfold Qcle, Qcinv. cbn. intros Hy.
  eapply Qle_trans; [apply Qinv_le_0_compat, Hy|].
  apply Qle_lteq. right. symmetry. apply Qred_correct.
Qed.

Lemma percentage_bounded x y :
  (0 <= x)%Qc → (x <= y)%Qc → y ≠ 0%Qc →
  (0 <= percentage x y)%Qc ∧ (percentage x y <= Z2Qc 100)%Qc.
Proof.
  intros Hx Hxy Hy.
  assert (Hy0 : (0 <= y)%Qc) by (eapply Qcle_trans; eassumption).
  assert (H100 : (0 <= Z2Qc 100)%Qc) by (by apply Z2Qc_nonneg).
  unfold percentage, Qcdiv. split.
  - apply Qcmult_nonneg_nonneg; [|exact H100].
    apply Qcmult_nonneg_nonneg; [exact Hx|by apply Qcinv_nonneg].
  - rewrite <- (Qcmult_1_l (Z2Qc 100)) at 2.
    apply Qcmult_le_compat_r; [|exact H100].
    rewrite <- (Qcmult_inv_r y Hy).
    apply Qcmult_le_compat_r; [exact Hxy|by apply Qcinv_nonneg].
Qed.

Lemma Z2Qc_nonzero n : 0 < n → Z2Qc n ≠ 0%Qc.
Proof.
  intros Hn Heq.
  pose proof (Z2Qc_le 1 n ltac:(lia)) as Hle. rewrite Heq in Hle.
  revert Hle. vm_compute. intros Hle. by apply Hle.
Qed.

(** X14. While a scope with counts that are not negative is within the
    limits in force, every percentage that getUsageStats reports for it
    lies between 0 and 100; the percentage of a limit that is null,
    undefined or 0 is null. *)
Theorem X14_percentages_bounded ls s :
  0 <= tk_total (c_tokens (sc_counters s)) →
  0 <= c_requests (sc_counters s) →
  (0 <= c_cost (sc_counters s))%Qc →
  within ls s →
  let p := percentages ls s in
  let bounded o := ∀ x, o = Some x → (0 <= x)%Qc ∧ (x <= Z2Qc 100)%Qc in
  bounded (pct_tokens p) ∧ bounded (pct_requests p) ∧ bounded (pct_cost p) ∧
  (truthyZ (lim_tokens ls) = None → pct_tokens p = None) ∧
  (truthyZ (lim_requests ls) = None → pct_requests p = None) ∧
  (truthyQc (lim_cost ls) = None → pct_cost p = None).
Proof.
  intros Ht Hr Hc (Wt & Wr & Wc). cbn zeta. unfold percentages.
  cbn [pct_tokens pct_requests pct_cost].
  split; [|split; [|split; [|split; [|split]]]].
  - intros x. destruct (truthyZ (lim_tokens ls)) as [n|] eqn:Hn; [|done].
    intros [= <-]. specialize (Wt n eq_refl).
    assert (n ≠ 0).
    { unfold truthyZ in Hn. destruct (lim_tokens ls); try done.
      case_bool_decide; congruence. }
    apply percentage_bounded;
      [by apply Z2Qc_nonneg|by apply Z2Qc_le|apply Z2Qc_nonzero; lia].
  - intros x. destruct (truthyZ (lim_requests ls)) as [n|] eqn:Hn; [|done].
    intros [= <-]. specialize (Wr n eq_refl).
    assert (n ≠ 0).
    { unfold truthyZ in Hn. destruct (lim_requests ls); try done.
      case_bool_decide; congruence. }
    apply percentage_bounded;
      [by apply Z2Qc_nonneg|by apply Z2Qc_le|apply Z2Qc_nonzero; lia].
  - intros x. destruct (truthyQc (lim_cost ls)) as [q|] eqn:Hq; [|done].
    intros [= <-]. specialize (Wc q eq_refl).
    apply percentage_bounded; [exact Hc|exact Wc|].
    unfold truthyQc in Hq. destruct (lim_cost ls); try done.
    case_bool_decide; congruence.
  - by intros ->.
  - by intros ->.
  - by intros ->.
Qed.

(** *** What an admission check and a restart leave behind *)

(** X15. An admission check reserves nothing. On an initialised limiter
    the decision of checkRequest is the same after any number of earlier
    checks that have not been followed by a recording, so that requests
    checked before any of them is recorded are each judged against the
    ledger without the others. *)
Theorem X15_admission_reserves_nothing now ok requestInfo cs w :
  initialized (rl w) = true →
  check_result (fst (checkRequest now ok requestInfo (after_checks cs w)))
  = check_result (fst (checkRequest now ok requestInfo w)).
Proof.
  intros Hi.
  destruct (after_checks_keeps_ledger cs w Hi) as [Hrl _].
  rewrite !checkRequest_outcome. cbn zeta.
  rewrite !initialize_initialized by (by rewrite ?Hrl).
  rewrite Hrl. by destruct (usage (rl w)).
Qed.

(** X16. The limits that updateLimits saves are never read back. A
    limiter created anew over the same store, as when the service worker
    is started again, has the default limits and the default pricing
    table after its first initialize, whatever limits had been set; its
    ledger is the stored one, rolled over to the current period, or an
    empty one when nothing is stored. *)
Theorem X16_restart_forgets_limits now newLimits w :
  let w1 := initialize now true (restart (updateLimits newLimits w)) in
  limits (rl w1) = default_limits ∧
  models (rl w1) = default_models ∧
  initialized (rl w1) = true ∧
  usage (rl w1)
  = Some match storage w with
         | Some stored => fst (checkAndResetPeriods_body now stored)
         | None => createEmptyUsage now
         end.
Proof.
  cbn zeta.
  destruct (initialize_keeps_config now true (restart (updateLimits newLimits w)))
    as [-> ->].
  split; [reflexivity|]. split; [reflexivity|].
  split; [apply initialize_sets_flag|].
  rewrite initialize_cases by reflexivity.
  unfold restart, updateLimits. cbn [storage].
  destruct (storage w) as [stored|]; [|reflexivity].
  cbn zeta. by destruct (snd (checkAndResetPeriods_body now stored)).
Qed.

End Periods.

(** ** Further properties of the service *)

Section Replies.

Context `{Platform}.

Lemma callOpenAI_ok out answer reported :
  callOpenAI out = inr (answer, reported) → out = CallOk answer reported.
Proof. destruct out; cbn; congruence. Qed.

Lemma store_in_place_lookup tabId conversation svc :
  conversations (store_in_place tabId conversation svc) !! tabId
  = (λ _, conversation) <$> conversations svc !! tabId.
Proof.
  unfold store_in_place.
  destruct (conversations svc !! tabId) as [c|] eqn:Hc; cbn.
  - by rewrite lookup_insert_eq.
  - exact Hc.
Qed.

(** [generateResponse] with a key, on a limiter that has a ledger once
    initialised: the admission check and the recording resolved. *)
Lemma generateResponse_checked now now_end ok save_error svc tabId
    userMessage page out u :
  default [] (apiKey svc) ≠ [] →
  usage (rl (initialize now ok (rateLimiter svc))) = Some u →
  let conversation := prepare_conversation now svc tabId userMessage page in
  let w0 := initialize now ok (rateLimiter svc) in
  let check :=
    checkRequest_body now (rl w0) u (stream_request (messages conversation)) in
  let w1 := print (snd check) w0 in
  let svc2 := set_rateLimiter w1 (store_in_place tabId conversation svc) in
  generateResponse now now_end ok save_error svc tabId userMessage page out
  = match fst check with
    | Denied reason limitType retryAfter =>
        (svc2,
         ReplyRateLimited (js "Rate limit exceeded: " ++ reason) limitType
                          retryAfter)
    | _ =>
        match callOpenAI out with
        | inl e => (svc2, ReplyFailed (err_message e))
        | inr (answer, reported) =>
            let conversation2 :=
              mkConversation
                (messages conversation ++ [mkMessage (js "assistant") answer])
                (pageContent conversation) (startTime conversation) in
            let svc3 :=
              set_conversations
                (<[tabId := conversation2]> (conversations svc2)) svc2 in
            match reported with
            | None =>
                (svc3,
                 ReplyFailed
                   (js "Cannot read properties of undefined (reading 'prompt_tokens')"))
            | Some tu =>
                let record :=
                  recordUsage_body now_end (models (rl w1))
                    (mkUsageInfo (js "gpt-4") (prompt_tokens tu)
                                 (completion_tokens tu)) u in
                (set_rateLimiter
                   (saveUsage ok
                      (set_usage (Some (fst record)) (print (snd record) w1)))
                   svc3,
                 if ok then
                   ReplySuccess answer
                     (Z.of_nat (length (messages conversation2))) tu
                 else ReplyFailed (err_message save_error))
            end
        end
    end.
Proof.
  intros Hkey Hu. cbn zeta. unfold generateResponse.
  rewrite bool_decide_eq_false_2 by done.
  rewrite checkRequest_outcome. cbn zeta. rewrite Hu.
  pose proof (initialize_sets_flag now ok (rateLimiter svc)) as Hi.
  destruct (checkRequest_body now _ u _) as [res out0].
  cbn [fst snd check_result].
  set (w1 := print out0 (initialize now ok (rateLimiter svc))).
  assert (Hi1 : initialized (rl w1) = true) by exact Hi.
  assert (Hu1 : usage (rl w1) = Some u) by exact Hu.
  assert (Hrec : ∀ tu,
            recordUsage now_end ok
              (mkUsageInfo (js "gpt-4") (prompt_tokens tu)
                           (completion_tokens tu)) w1
            = (RU_Done ok,
               saveUsage ok
                 (set_usage
                    (Some (fst (recordUsage_body now_end (models (rl w1))
                                  (mkUsageInfo (js "gpt-4") (prompt_tokens tu)
                                               (completion_tokens tu)) u)))
                    (print (snd (recordUsage_body now_end (models (rl w1))
                                   (mkUsageInfo (js "gpt-4") (prompt_tokens tu)
                                                (completion_tokens tu)) u))
                           w1))))
    by (intros tu; apply recordUsage_initialized; assumption).
  destruct res as [|tokens cost|reason limitType retryAfter]; [| |done];
    (destruct (callOpenAI out) as [e|[answer [tu|]]]; [done| |done]);
    cbn zeta; rewrite Hrec, Hu1; by destruct ok.
Qed.

(** X17. When generateResponse answers with success, the call to the
    model returned the answer together with a usage record, the answer is
    the last message of the conversation stored for the tab and the
    length reported is that of the conversation, and the prompt and
    completion counts of the usage record have been added to the ledger,
    which has been saved. *)
Theorem X17_generateResponse_success now now_end ok save_error svc tabId
    userMessage page out answer n tu :
  let result :=
    generateResponse now now_end ok save_error svc tabId userMessage page out in
  let conversation := prepare_conversation now svc tabId userMessage page in
  snd result = ReplySuccess answer n tu →
  out = CallOk answer (Some tu) ∧
  ok = true ∧
  n = Z.of_nat (length (messages conversation)) + 1 ∧
  getConversationSummary tabId (fst result)
  = Some (mkSummary n (startTime conversation)
                    (Some (mkMessage (js "assistant") answer))) ∧
  ∃ u, usage (rl (initialize now ok (rateLimiter svc))) = Some u ∧
       usage (rl (rateLimiter (fst result)))
       = Some (fst (recordUsage_body now_end (models (rl (rateLimiter svc)))
                      (mkUsageInfo (js "gpt-4") (prompt_tokens tu)
                                   (completion_tokens tu)) u)) ∧
       storage (rateLimiter (fst result))
       = usage (rl (rateLimiter (fst result))).
Proof.
  cbn zeta.
  destruct (decide (default [] (apiKey svc) = [])) as [Hkey|Hkey].
  { unfold generateResponse. by rewrite bool_decide_eq_true_2. }
  destruct (usage (rl (initialize now ok (rateLimiter svc)))) as [u|] eqn:Hu.
  2:{ unfold generateResponse. rewrite bool_decide_eq_false_2 by done.
      rewrite checkRequest_outcome. cbn zeta. by rewrite Hu. }
  rewrite (generateResponse_checked _ _ _ _ _ _ _ _ _ u Hkey Hu). cbn zeta.
  destruct (initialize_keeps_config now ok (rateLimiter svc)) as [Hms _].
  generalize (prepare_conversation now svc tabId userMessage page).
  intros conversation.
  assert (Hgoal :
    ∀ svc2 (w1 : World),
      models (rl w1) = models (rl (rateLimiter svc)) →
      let r :=
        match callOpenAI out with
        | inl e => (svc2, ReplyFailed (err_message e))
        | inr (answer0, reported) =>
            let conversation2 :=
              mkConversation
                (messages conversation ++ [mkMessage (js "assistant") answer0])
                (pageContent conversation) (startTime conversation) in
            let svc3 :=
              set_conversations
                (<[tabId := conversation2]> (conversations svc2)) svc2 in
            match reported with
            | None =>
                (svc3,
                 ReplyFailed
                   (js "Cannot read properties of undefined (reading 'prompt_tokens')"))
            | Some tu0 =>
                let record :=
                  recordUsage_body now_end (models (rl w1))
                    (mkUsageInfo (js "gpt-4") (prompt_tokens tu0)
                                 (completion_tokens tu0)) u in
                (set_rateLimiter
                   (saveUsage ok
                      (set_usage (Some (fst record)) (print (snd record) w1)))
                   svc3,
                 if ok then
                   ReplySuccess answer0
                     (Z.of_nat (length (messages conversation2))) tu0
                 else ReplyFailed (err_message save_error))
            end
        end in
      snd r = ReplySuccess answer n tu →
      out = CallOk answer (Some tu) ∧ ok = true ∧
      n = Z.of_nat (length (messages conversation)) + 1 ∧
      getConversationSummary tabId (fst r)
      = Some (mkSummary n (startTime conversation)
                        (Some (mkMessage (js "assistant") answer))) ∧
      ∃ u0, Some u = Some u0 ∧
            usage (rl (rateLimiter (fst r)))
            = Some (fst (recordUsage_body now_end
                           (models (rl (rateLimiter svc)))
                           (mkUsageInfo (js "gpt-4") (prompt_tokens tu)
                                        (completion_tokens tu)) u0)) ∧
            storage (rateLimiter (fst r)) = usage (rl (rateLimiter (fst r)))).
  { intros svc2 w1 Hw1. cbn zeta.
    destruct (callOpenAI out) as [e|[answer0 [tu0|]]] eqn:Hout;
      [discriminate| |discriminate].
    destruct ok; [|discriminate].
    cbn [fst snd]. intros [= -> <- ->].
    split; [by apply callOpenAI_ok|]. split; [done|].
    rewrite length_app. cbn [length].
    split; [lia|]. split.
    - unfold getConversationSummary, set_rateLimiter, set_conversations.
      cbn [conversations]. rewrite lookup_insert_eq.
      cbn [fmap option_fmap option_map messages startTime].
      rewrite last_snoc, length_app. cbn [length]. do 2 f_equal; lia.
    - exists u. split; [done|].
      cbn [fst rateLimiter set_rateLimiter rl usage storage saveUsage
           set_usage print].
      rewrite Hw1. by split. }
  destruct (fst (checkRequest_body now _ u _))
    as [|tokens cost|reason limitType retryAfter]; [| |discriminate];
    apply Hgoal; exact Hms.
Qed.

(** X18. A call to the model that fails, and a request that is denied,
    are not counted: after generateResponse the limiter and the store are
    as initialize alone leaves them, so that no request, no token and no
    entry of the per-minute window is added. The conversation is not
    rolled back: one that was stored for the tab now ends with the user
    message, and for a tab without a conversation none is stored. *)
Theorem X18_failed_call_not_counted now now_end ok save_error svc tabId
    userMessage page out e :
  default [] (apiKey svc) ≠ [] →
  callOpenAI out = inl e →
  let result :=
    generateResponse now now_end ok save_error svc tabId userMessage page out in
  let conversation := prepare_conversation now svc tabId userMessage page in
  rl (rateLimiter (fst result)) = rl (initialize now ok (rateLimiter svc)) ∧
  storage (rateLimiter (fst result))
  = storage (initialize now ok (rateLimiter svc)) ∧
  conversations (fst result) !! tabId
  = (λ _, conversation) <$> conversations svc !! tabId ∧
  last (messages conversation) = Some (mkMessage (js "user") userMessage) ∧
  ∀ answer n tu, snd result ≠ ReplySuccess answer n tu.
Proof.
  intros Hkey Hcall. cbn zeta. unfold generateResponse.
  rewrite bool_decide_eq_false_2 by done.
  rewrite checkRequest_outcome. cbn zeta.
  assert (Hlast : last (messages (prepare_conversation now svc tabId
                                    userMessage page))
                  = Some (mkMessage (js "user") userMessage))
    by apply last_snoc.
  generalize dependent (prepare_conversation now svc tabId userMessage page).
  intros conversation Hlast.
  destruct (usage (rl (initialize now ok (rateLimiter svc)))) as [u|].
  - destruct (checkRequest_body now _ u _) as [res out0].
    cbn [fst snd check_result]. rewrite Hcall.
    destruct res; cbn [fst snd rateLimiter set_rateLimiter conversations rl
                       storage print];
      rewrite store_in_place_lookup; by repeat split.
  - cbn [fst snd check_result rateLimiter set_rateLimiter conversations].
    rewrite store_in_place_lookup. by repeat split.
Qed.

(** X19. Once the model has answered, a failure reply does not mean that
    nothing happened. When the answer carries no usage record the answer
    is stored as the last message of the conversation, the reply is a
    failure and the request is not counted at all. When the save of the
    ledger is rejected the answer is stored, the counts are added to the
    ledger in memory, the store is left as it was and the reply is a
    failure with the message of the storage error. *)
Theorem X19_failure_after_answer now now_end ok save_error svc tabId
    userMessage page u answer :
  let conversation := prepare_conversation now svc tabId userMessage page in
  let w0 := initialize now ok (rateLimiter svc) in
  let reply out :=
    generateResponse now now_end ok save_error svc tabId userMessage page out in
  let answered svc' :=
    lastMessage <$> getConversationSummary tabId svc'
    = Some (Some (mkMessage (js "assistant") answer)) in
  default [] (apiKey svc) ≠ [] →
  usage (rl w0) = Some u →
  allowed (fst (checkRequest_body now (rl w0) u
                  (stream_request (messages conversation)))) = true →
  (snd (reply (CallOk answer None))
   = ReplyFailed
       (js "Cannot read properties of undefined (reading 'prompt_tokens')") ∧
   answered (fst (reply (CallOk answer None))) ∧
   rl (rateLimiter (fst (reply (CallOk answer None)))) = rl w0 ∧
   storage (rateLimiter (fst (reply (CallOk answer None)))) = storage w0) ∧
  ∀ tu,
    ok = false →
    snd (reply (CallOk answer (Some tu)))
    = ReplyFailed (err_message save_error) ∧
    answered (fst (reply (CallOk answer (Some tu)))) ∧
    usage (rl (rateLimiter (fst (reply (CallOk answer (Some tu))))))
    = Some (fst (recordUsage_body now_end (models (rl w0))
                   (mkUsageInfo (js "gpt-4") (prompt_tokens tu)
                                (completion_tokens tu)) u)) ∧
    storage (rateLimiter (fst (reply (CallOk answer (Some tu))))) = storage w0.
Proof.
  cbn zeta. intros Hkey Hu Hallowed.
  assert (Hsummary : ∀ svc' conversation m,
            conversations svc'
            = <[tabId :=
                  mkConversation
                    (messages conversation
                       ++ [mkMessage (js "assistant") answer])
                    (pageContent conversation) (startTime conversation)]> m →
            lastMessage <$> getConversationSummary tabId svc'
            = Some (Some (mkMessage (js "assistant") answer))).
  { intros svc' conversation m Hm. unfold getConversationSummary.
    rewrite Hm, lookup_insert_eq.
    cbn [fmap option_fmap option_map messages lastMessage].
    by rewrite last_snoc. }
  split.
  - rewrite (generateResponse_checked _ _ _ _ _ _ _ _ _ u Hkey Hu). cbn zeta.
    generalize dependent (prepare_conversation now svc tabId userMessage page).
    intros conversation Hallowed.
    destruct (fst (checkRequest_body now _ u _)); [| |discriminate];
      cbn [callOpenAI fst snd]; (split; [reflexivity|]);
      (split; [by eapply Hsummary|]); by split.
  - intros tu ->.
    rewrite (generateResponse_checked _ _ _ _ _ _ _ _ _ u Hkey Hu). cbn zeta.
    generalize dependent (prepare_conversation now svc tabId userMessage page).
    intros conversation Hallowed.
    destruct (fst (checkRequest_body now _ u _)); [| |discriminate];
      cbn [callOpenAI fst snd]; (split; [reflexivity|]);
      (split; [by eapply Hsummary|]); by split.
Qed.

(** *** The age of a conversation *)

Lemma prepare_conversation_startTime now svc tabId userMessage page c :
  conversations svc !! tabId = Some c →
  startTime (prepare_conversation now svc tabId userMessage page) = startTime c.
Proof.
  intros Hc. unfold prepare_conversation. rewrite Hc. by destruct page.
Qed.

Lemma cleanup_conversations_old later svc tabId c :
  conversations svc !! tabId = Some c →
  startTime c < later - 60 * 60 * 1000 →
  conversations (cleanup_conversations later svc) !! tabId = None.
Proof.
  intros Hc Hold. unfold cleanup_conversations, set_conversations.
  cbn [conversations]. apply map_lookup_filter_None. right.
  intros c' Hc'. rewrite Hc in Hc'. injection Hc' as <-. cbn. lia.
Qed.

Lemma generateResponse_startTime now now_end ok save_error svc tabId
    userMessage page out c :
  conversations svc !! tabId = Some c →
  ∃ c', conversations
          (fst (generateResponse now now_end ok save_error svc tabId
                  userMessage page out)) !! tabId = Some c' ∧
        startTime c' = startTime c.
Proof.
  intros Hc.
  pose proof (prepare_conversation_startTime now svc tabId userMessage page c Hc)
    as Hst.
  unfold generateResponse.
  generalize dependent (prepare_conversation now svc tabId userMessage page).
  intros conversation Hst.
  case_bool_decide; [by exists c|].
  destruct (checkRequest now ok _ (rateLimiter svc)) as [cr w1].
  assert (Hsvc2 : conversations
                    (set_rateLimiter w1 (store_in_place tabId conversation svc))
                  !! tabId = Some conversation).
  { cbn [set_rateLimiter conversations]. rewrite store_in_place_lookup.
    by rewrite Hc. }
  destruct (check_result cr) as [[| |]|]; try by exists conversation.
  - destruct (callOpenAI out) as [e|[answer [tu|]]];
      [by exists conversation| |].
    + destruct (recordUsage now_end ok _ w1) as [ru w2].
      eexists. cbn [fst set_rateLimiter set_conversations conversations].
      rewrite lookup_insert_eq. split; [reflexivity|exact Hst].
    + eexists. cbn [fst set_rateLimiter set_conversations conversations].
      rewrite lookup_insert_eq. split; [reflexivity|exact Hst].
  - destruct (callOpenAI out) as [e|[answer [tu|]]];
      [by exists conversation| |].
    + destruct (recordUsage now_end ok _ w1) as [ru w2].
      eexists. cbn [fst set_rateLimiter set_conversations conversations].
      rewrite lookup_insert_eq. split; [reflexivity|exact Hst].
    + eexists. cbn [fst set_rateLimiter set_conversations conversations].
      rewrite lookup_insert_eq. split; [reflexivity|exact Hst].
Qed.

Lemma generateResponseStream_startTime now now_end ok svc tabId userMessage
    page streamOptions net c :
  conversations svc !! tabId = Some c →
  ∃ c', conversations
          (fst (fst (generateResponseStream now now_end ok svc tabId
                       userMessage page streamOptions net))) !! tabId
        = Some c' ∧
        startTime c' = startTime c.
Proof.
  intros Hc.
  pose proof (prepare_conversation_startTime now svc tabId userMessage page c Hc)
    as Hst.
  unfold generateResponseStream.
  generalize dependent (prepare_conversation now svc tabId userMessage page).
  intros conversation Hst.
  case_bool_decide; [by exists c|].
  destruct (checkRequest now ok _ (rateLimiter svc)) as [cr w1].
  assert (Hsvc2 : conversations
                    (set_rateLimiter w1 (store_in_place tabId conversation svc))
                  !! tabId = Some conversation).
  { cbn [set_rateLimiter conversations]. rewrite store_in_place_lookup.
    by rewrite Hc. }
  assert (Hsettle : ∀ run,
            ∃ c', conversations
                    (fst (fst (settle_stream now_end ok streamOptions tabId
                                 conversation run
                                 (set_rateLimiter w1
                                    (store_in_place tabId conversation svc)))))
                  !! tabId = Some c' ∧ startTime c' = startTime c).
  { intros run. unfold settle_stream.
    destruct (outcome run) as [result_content result_usage|e|];
      try by exists conversation.
    destruct (recordUsage now_end ok _ _) as [ru w2].
    eexists. cbn [fst set_rateLimiter set_conversations conversations].
    rewrite lookup_insert_eq. split; [reflexivity|exact Hst]. }
  destruct (check_result cr) as [[| |]|]; try by exists conversation.
  - apply Hsettle.
  - apply Hsettle.
Qed.

(** X20. Nothing refreshes the startTime of a conversation: whatever a
    call of generateResponse or of generateResponseStream does, a
    conversation that was stored for the tab is still stored with the
    startTime it had. The periodic clean-up therefore deletes a
    conversation an hour after it was started, however recently it was
    used. *)
Theorem X20_conversation_age now now_end ok save_error svc tabId userMessage
    page out streamOptions net c later :
  conversations svc !! tabId = Some c →
  startTime c < later - 60 * 60 * 1000 →
  let svc1 :=
    fst (generateResponse now now_end ok save_error svc tabId userMessage
           page out) in
  let svc2 :=
    fst (fst (generateResponseStream now now_end ok svc tabId userMessage
                page streamOptions net)) in
  (startTime <$> conversations svc1 !! tabId) = Some (startTime c) ∧
  (startTime <$> conversations svc2 !! tabId) = Some (startTime c) ∧
  conversations (cleanup_conversations later svc1) !! tabId = None ∧
  conversations (cleanup_conversations later svc2) !! tabId = None.
Proof.
  intros Hc Hold. cbn zeta.
  destruct (generateResponse_startTime now now_end ok save_error svc tabId
              userMessage page out c Hc) as (c1 & Hc1 & Hs1).
  destruct (generateResponseStream_startTime now now_end ok svc tabId
              userMessage page streamOptions net c Hc) as (c2 & Hc2 & Hs2).
  split; [by rewrite Hc1, <- Hs1|].
  split; [by rewrite Hc2, <- Hs2|].
  split; eapply cleanup_conversations_old; eauto; lia.
Qed.

End Replies.

(** ** Further properties of the streaming coordinator *)

Section Sessions.

Context `{Platform}.

(** X21. A request that the admission check denies never reaches the
    model: what generateResponseStream and generateResponse do and answer
    is the same whatever the transport would have done. The streaming
    method tells the error callback once, with "Rate limit exceeded: "
    followed by the reason, and both answer with that message, the limit
    type and retryAfter. *)
Theorem X21_denial_makes_no_call now now_end ok save_error svc tabId
    userMessage page streamOptions net out reason limitType retryAfter :
  let conversation := prepare_conversation now svc tabId userMessage page in
  let admission :=
    checkRequest now ok (stream_request (messages conversation))
                 (rateLimiter svc) in
  let svc2 :=
    set_rateLimiter (snd admission) (store_in_place tabId conversation svc) in
  default [] (apiKey svc) ≠ [] →
  check_result (fst admission) = Some (Denied reason limitType retryAfter) →
  generateResponseStream now now_end ok svc tabId userMessage page
                         streamOptions net
  = (svc2,
     notify (has_onError streamOptions)
            (NError (new_Error (js "Rate limit exceeded: " ++ reason))),
     GenRateLimited (js "Rate limit exceeded: " ++ reason) limitType
                    retryAfter) ∧
  generateResponse now now_end ok save_error svc tabId userMessage page out
  = (svc2,
     ReplyRateLimited (js "Rate limit exceeded: " ++ reason) limitType
                      retryAfter).
Proof.
  cbn zeta. intros Hkey Hdenied.
  unfold generateResponseStream, generateResponse.
  rewrite !bool_decide_eq_false_2 by done.
  destruct (checkRequest now ok _ (rateLimiter svc)) as [cr w1].
  cbn [fst snd] in *. by rewrite Hdenied.
Qed.

(** *** A completed stream whose usage cannot be saved *)

Lemma callOpenAIStream_returned msgs opts net answer tu :
  outcome (callOpenAIStream msgs opts net) = Returned answer tu →
  ∃ cs, Forall (λ e, is_chunk e = true) cs ∧
        events (callOpenAIStream msgs opts net)
        = cs ++ (if has_onComplete opts then [OnComplete answer tu] else []).
Proof.
  unfold callOpenAIStream.
  destruct net as [e0| |status body reads].
  - by destruct (catch_error_events opts e0 decoder_init) as [_ ->].
  - discriminate.
  - destruct (response_ok status).
    + pose proof (read_loop_chunks_only opts reads decoder_init
                    (Forall_nil_2 _)) as Hc.
      destruct (read_loop opts reads decoder_init) as [d [|e0|]];
        cbn [fst] in Hc.
      * unfold complete. cbn [outcome events].
        destruct (process_remaining_same d) as [_ Hsame].
        intros [= <- <-]. exists (emitted d). split; [exact Hc|].
        unfold emit. destruct (has_onComplete opts); cbn [emitted].
        -- by rewrite Hsame.
        -- by rewrite Hsame, app_nil_r.
      * by destruct (catch_error_events opts e0 d) as [_ ->].
      * discriminate.
    + by destruct (catch_error_events opts
                     (new_Error (http_error_message status body)) decoder_init)
        as [_ ->].
Qed.

Lemma forward_returned streamOptions cs answer tu :
  concat (map (forward streamOptions) (cs ++ [OnComplete answer tu]))
  = concat (map (forward streamOptions) cs).
Proof. by rewrite map_app, concat_app, app_nil_r. Qed.

Lemma filter_not_terminal ns :
  Forall (λ n, is_terminal n = false) ns →
  filter (λ n, is_complete n = false) ns = ns ∧
  filter (λ n, is_complete n = true) ns = [] ∧
  existsb is_terminal ns = false.
Proof.
  induction 1 as [|n ns Hn Hns (IH1 & IH2 & IH3)]; [done|].
  destruct n; try discriminate.
  rewrite filter_cons_True by done. rewrite filter_cons_False by done.
  cbn [existsb is_terminal orb]. by rewrite IH1.
Qed.

Lemma send_not_terminal streamId tabId ns :
  Forall (λ n, is_terminal n = false) ns →
  Forall (λ m, is_settlement m = false) (map (send streamId tabId) ns).
Proof.
  induction 1 as [|n ns Hn Hns IH]; [constructor|].
  cbn [map]. constructor; [|exact IH]. by destruct n.
Qed.

(** X22. When a stream has been read to its end and the save of the
    ledger is then rejected, the popup is never told how the stream
    ended: the listener sends the chunks and the answer that streaming
    has started, and neither streamComplete nor streamError. The stream
    stays registered as active, the counts have been added to the ledger
    in memory, and the store is as it was. *)
Theorem X22_unsaved_completion now now_end svc tabId streamId message page
    net u answer tu :
  let conversation := prepare_conversation now svc tabId message page in
  let result :=
    on_generateResponseStream now now_end false svc tabId (Some streamId)
                              message page net in
  default [] (apiKey svc) ≠ [] →
  streamId ≠ [] →
  initialized (rl (rateLimiter svc)) = true →
  usage (rl (rateLimiter svc)) = Some u →
  allowed (fst (checkRequest_body now (rl (rateLimiter svc)) u
                  (stream_request (messages conversation)))) = true →
  outcome (callOpenAIStream (messages conversation)
             (mkStreamOptions true true true true) net)
  = Returned answer tu →
  Forall (λ m, is_settlement m = false) (snd result) ∧
  last (snd result) = Some (ResponseStreaming streamId) ∧
  streamId ∈ activeStreams (fst result) ∧
  usage (rl (rateLimiter (fst result)))
  = Some (fst (recordUsage_body now_end (models (rl (rateLimiter svc)))
                 (mkUsageInfo (js "gpt-4") (prompt_tokens tu)
                              (completion_tokens tu)) u)) ∧
  storage (rateLimiter (fst result)) = storage (rateLimiter svc).
Proof.
  cbn zeta. intros Hkey Hsid Hi Hu Hallowed Hret.
  unfold on_generateResponseStream.
  rewrite (bool_decide_eq_false_2 _ Hsid).
  set (svc1 := mkService (conversations svc) (apiKey svc) (rateLimiter svc)
                         ({[streamId]} ∪ activeStreams svc)).
  assert (Hconv : prepare_conversation now svc1 tabId message page
                  = prepare_conversation now svc tabId message page)
    by reflexivity.
  pose proof (checkRequest_initialized now false
                (stream_request
                   (messages (prepare_conversation now svc tabId message page)))
                (rateLimiter svc) u Hi Hu) as Hcheck.
  rewrite (generateResponseStream_allowed now now_end false svc1 tabId message
             page (mkStreamOptions true true true true) net
             (fst (checkRequest_body now (rl (rateLimiter svc)) u
                     (stream_request
                        (messages
                           (prepare_conversation now svc tabId message page))))));
    [|exact Hkey
     |rewrite Hconv; cbn [rateLimiter svc1]; by rewrite Hcheck
     |exact Hallowed].
  rewrite Hconv. cbn [rateLimiter svc1]. rewrite Hcheck. cbn [snd].
  destruct (callOpenAIStream_returned _ _ _ _ _ Hret) as (cs & Hcs & Hev).
  change (inner_options (mkStreamOptions true true true true))
    with (mkStreamOptions true true true true).
  generalize dependent (prepare_conversation now svc tabId message page).
  intros conversation Hallowed Hret Hconv Hcheck Hev.
  unfold settle_stream. rewrite Hret, Hev.
  cbn [has_onComplete]. rewrite forward_returned.
  set (w1 := print (snd (checkRequest_body now (rl (rateLimiter svc)) u
                           (stream_request (messages conversation))))
               (rateLimiter svc)).
  assert (Hrec : recordUsage now_end false
                   (mkUsageInfo (js "gpt-4") (prompt_tokens tu)
                                (completion_tokens tu))
                   (rateLimiter
                      (set_rateLimiter w1
                         (store_in_place tabId conversation svc1)))
                 = (RU_Done false,
                    set_usage
                      (Some (fst (recordUsage_body now_end
                                    (models (rl (rateLimiter svc)))
                                    (mkUsageInfo (js "gpt-4") (prompt_tokens tu)
                                                 (completion_tokens tu)) u)))
                      (print (snd (recordUsage_body now_end
                                     (models (rl (rateLimiter svc)))
                                     (mkUsageInfo (js "gpt-4")
                                                  (prompt_tokens tu)
                                                  (completion_tokens tu)) u))
                             w1)))
    by exact (recordUsage_initialized now_end false _ w1 u Hi Hu).
  rewrite Hrec. rewrite app_nil_r.
  pose proof (forward_chunks (mkStreamOptions true true true true) cs Hcs)
    as Hheard.
  destruct (filter_not_terminal _ Hheard) as (-> & -> & ->).
  cbn [orb fst snd map]. rewrite app_nil_r.
  split; [|split; [|split; [|split]]].
  - apply Forall_app. split; [by apply send_not_terminal|].
    by repeat constructor.
  - apply last_snoc.
  - cbn [set_rateLimiter set_conversations activeStreams].
    assert (Hact : activeStreams (store_in_place tabId conversation svc1)
                   = {[streamId]} ∪ activeStreams svc).
    { unfold store_in_place. by destruct (conversations svc1 !! tabId). }
    rewrite Hact. by apply elem_of_union_l, elem_of_singleton.
  - reflexivity.
  - reflexivity.
Qed.

(** *** The timer on a read *)

Lemma read_loop_too_slow opts before r rest d :
  has_abortController opts = true →
  Forall (λ r, in_time r ∧ has_text r) before →
  too_slow r →
  read_loop opts (before ++ r :: rest) d
  = (foldl (process_chunk opts) d (texts before),
     ExitThrow (new_Error (js "Read timeout"))).
Proof.
  intros Hc Hbefore Hslow. revert d.
  induction Hbefore as [|r0 before [Hin [text Htext]] Hbefore IH]; intros d.
  - cbn [app read_loop]. by rewrite loop_turn_too_slow.
  - cbn [app read_loop]. rewrite (loop_turn_in_time_text _ _ text Hin Htext).
    rewrite IH.
    assert (texts (r0 :: before) = text :: texts before) as ->
      by (unfold texts; simpl; by rewrite Htext).
    reflexivity.
Qed.

(** X23. With an abort controller, a read that takes more than 30000 ms
    or never settles ends the stream: after reads that each delivered
    text in time, callOpenAIStream throws Error("Read timeout"), having
    emitted the chunks of the text read so far and then told the error
    callback "Request timed out. Please try again."; nothing is said of
    completion. *)
Theorem X23_read_timer msgs opts status error_body before r rest :
  let run :=
    callOpenAIStream msgs opts
      (FetchResponse status error_body (before ++ r :: rest)) in
  let d := foldl (process_chunk opts) decoder_init (texts before) in
  response_ok status = true →
  has_abortController opts = true →
  Forall (λ r, in_time r ∧ has_text r) before →
  too_slow r →
  outcome run = Threw (new_Error (js "Read timeout")) ∧
  events run
  = emitted d
      ++ (if has_onError opts
          then [OnError (new_Error (js "Request timed out. Please try again."))]
          else []) ∧
  Forall (λ e, is_chunk e = true) (emitted d).
Proof.
  cbn zeta. intros Hok Hc Hbefore Hslow. unfold callOpenAIStream.
  rewrite Hok.
  pose proof (read_loop_chunks_only opts (before ++ r :: rest) decoder_init
                (Forall_nil_2 _)) as Hchunks.
  rewrite (read_loop_too_slow _ _ _ _ _ Hc Hbefore Hslow) in *.
  cbn [fst] in Hchunks.
  destruct (catch_error_events opts (new_Error (js "Read timeout"))
              (foldl (process_chunk opts) decoder_init (texts before)))
    as [-> ->].
  split; [reflexivity|]. split; [|exact Hchunks].
  f_equal.
Qed.

(** *** Without a key *)

(** X24. Without an API key neither method does anything: the request is
    rejected with "OpenAI API key not configured" before the conversation
    or the limiter is touched. For a streaming request the listener
    answers with that message as a failure, sends no stream message and
    releases the id it had registered. *)
Theorem X24_no_key now now_end ok save_error svc tabId request_streamId
    message page net out :
  default [] (apiKey svc) = [] →
  generateResponse now now_end ok save_error svc tabId message page out
  = (svc, ReplyRejected (new_Error (js "OpenAI API key not configured"))) ∧
  let result :=
    on_generateResponseStream now now_end ok svc tabId request_streamId
                              message page net in
  snd result = [Response (GenFailed (js "OpenAI API key not configured"))] ∧
  conversations (fst result) = conversations svc ∧
  rateLimiter (fst result) = rateLimiter svc ∧
  activeStreams (fst result) ⊆ activeStreams svc.
Proof.
  intros Hkey. split.
  - unfold generateResponse. by rewrite bool_decide_eq_true_2.
  - cbn zeta. unfold on_generateResponseStream, generateResponseStream.
    cbn [apiKey]. rewrite (bool_decide_eq_true_2 _ Hkey).
    cbn [filter list_filter map app existsb orb fst snd].
    split; [reflexivity|].
    unfold abortStream. cbn [activeStreams].
    rewrite bool_decide_eq_true_2
      by (by apply elem_of_union_l, elem_of_singleton).
    cbn [fst conversations rateLimiter activeStreams].
    split; [reflexivity|]. split; [reflexivity|].
    intros x Hx. apply elem_of_difference in Hx as [Hx Hne].
    apply elem_of_union in Hx as [Hx|Hx]; [|exact Hx].
    by destruct Hne.
Qed.

End Sessions.

(** ** Properties of the stream registry *)

Section Registry.

Context `{Platform}.

(** *** Decimal rendering *)

Lemma digits_of_app fuel n acc :
  digits_of fuel n acc = digits_of fuel n [] ++ acc.
Proof.
  revert n acc. induction fuel as [|fuel IH]; intros n acc; [done|].
  cbn [digits_of]. destruct (n <? 10); [done|].
  rewrite (IH _ (_ :: acc)), (IH _ [_]). by rewrite <- app_assoc.
Qed.

Lemma digits_of_no_hyphen fuel n acc :
  0 <= n → hyphen ∉ acc → hyphen ∉ digits_of fuel n acc.
Proof.
  revert n acc. induction fuel as [|fuel IH]; intros n acc Hn Hacc; [done|].
  cbn [digits_of]. destruct (n <? 10) eqn:Hlt.
  - apply not_elem_of_cons. split; [|done].
    unfold hyphen, digit. lia.
  - apply IH; [apply Z.div_pos; lia|].
    apply not_elem_of_cons. split; [|done].
    unfold hyphen, digit. pose proof (Z.mod_pos_bound n 10). lia.
Qed.

Lemma of_Z_no_hyphen n : 0 <= n → hyphen ∉ of_Z n.
Proof.
  intros Hn. unfold of_Z.
  destruct (n <? 0) eqn:Hneg; [lia|].
  apply digits_of_no_hyphen; [done|apply not_elem_of_nil].
Qed.

Lemma decimal_value_snoc s c :
  decimal_value (s ++ [c]) = 10 * decimal_value s + (Z.of_N c - 48).
Proof. unfold decimal_value. by rewrite foldl_app. Qed.

Lemma decimal_value_digits fuel n :
  0 <= n < 10 ^ Z.of_nat fuel → decimal_value (digits_of fuel n []) = n.
Proof.
  revert n. induction fuel as [|fuel IH]; intros n Hn.
  - cbn in *. lia.
  - cbn [digits_of]. destruct (n <? 10) eqn:Hlt.
    + unfold decimal_value, digit. cbn. lia.
    + rewrite digits_of_app, decimal_value_snoc, IH.
      * unfold digit. pose proof (Z.mod_pos_bound n 10).
        rewrite Z2N.id by lia. pose proof (Z.div_mod n 10). lia.
      * rewrite Nat2Z.inj_succ, Z.pow_succ_r in Hn by lia.
        split; [apply Z.div_pos; lia|].
        apply Z.div_lt_upper_bound; lia.
Qed.

Lemma decimal_value_of_Z n : 0 <= n → decimal_value (of_Z n) = n.
Proof.
  intros Hn. unfold of_Z. destruct (n <? 0) eqn:Hneg; [lia|].
  apply decimal_value_digits. split; [done|].
  rewrite Z.abs_eq by done.
  rewrite Nat2Z.inj_succ, Z2Nat.id by apply Z.log2_nonneg.
  destruct (decide (n = 0)) as [->|Hn0]; [done|].
  eapply Z.lt_le_trans; [apply Z.log2_spec; lia|].
  apply Z.pow_le_mono_l. lia.
Qed.

Lemma of_Z_inj a b : 0 <= a → 0 <= b → of_Z a = of_Z b → a = b.
Proof.
  intros Ha Hb Heq.
  by rewrite <- (decimal_value_of_Z a Ha), <- (decimal_value_of_Z b Hb), Heq.
Qed.

(** *** Prefixes *)

Lemma startsWith_app p s : startsWith p (p ++ s) = true.
Proof.
  induction p as [|c p IH]; [done|].
  cbn. by rewrite N.eqb_refl.
Qed.

Lemma startsWith_elem p s c : startsWith p s = true → c ∈ p → c ∈ s.
Proof.
  revert s. induction p as [|a p IH]; intros s Hs Hc.
  - by apply elem_of_nil in Hc.
  - destruct s as [|b s]; [discriminate|].
    cbn in Hs. apply andb_true_iff in Hs as [Hab Hs].
    apply N.eqb_eq in Hab. subst b.
    apply elem_of_cons in Hc as [->|Hc].
    + apply elem_of_cons. by left.
    + apply elem_of_cons. right. by apply IH.
Qed.

Lemma startsWith_hyphen xs ys rest :
  hyphen ∉ xs → hyphen ∉ ys →
  startsWith (ys ++ [hyphen]) (xs ++ hyphen :: rest) = true → xs = ys.
Proof.
  revert xs. induction ys as [|y ys IH]; intros xs Hxs Hys Hs.
  - destruct xs as [|x xs]; [done|].
    cbn [startsWith app] in Hs. apply andb_true_iff in Hs as [Hx _].
    apply N.eqb_eq in Hx. exfalso. apply Hxs. rewrite Hx.
    apply elem_of_cons. by left.
  - apply not_elem_of_cons in Hys as [Hy Hys].
    destruct xs as [|x xs].
    + cbn [startsWith app] in Hs. apply andb_true_iff in Hs as [Hx _].
      apply N.eqb_eq in Hx. by subst y.
    + apply not_elem_of_cons in Hxs as [Hx Hxs].
      cbn [startsWith app] in Hs. apply andb_true_iff in Hs as [Hyx Hs].
      apply N.eqb_eq in Hyx. subst y. f_equal. by apply IH.
Qed.

Lemma tab_prefix t t' now :
  0 <= t → 0 <= t' →
  startsWith (of_Z t' ++ js "-") (of_Z t ++ js "-" ++ of_Z now) = true ↔ t = t'.
Proof.
  intros Ht Ht'. split.
  - intros Hs. apply of_Z_inj; [done..|].
    apply (startsWith_hyphen _ _ (of_Z now));
      [by apply of_Z_no_hyphen|by apply of_Z_no_hyphen|exact Hs].
  - intros ->. rewrite app_assoc. apply startsWith_app.
Qed.

(** X25. A stream made by createStream for a tab is registered under the
    tab's number, a hyphen and the time. abortStream removes it once: a
    second abortStream of the same id answers false. When a tab is
    closed, its conversation is deleted and, of the streams registered
    under such ids, exactly those of the closed tab are removed. *)
Theorem X25_tab_streams now tabId closed svc :
  0 <= tabId → 0 <= closed →
  let '(svc1, streamId) := createStream now tabId svc in
  streamId = of_Z tabId ++ js "-" ++ of_Z now ∧
  streamId ∈ activeStreams svc1 ∧
  snd (abortStream streamId svc1) = true ∧
  snd (abortStream streamId (fst (abortStream streamId svc1))) = false ∧
  (streamId ∈ activeStreams (on_tab_removed closed svc1) ↔ tabId ≠ closed) ∧
  conversations (on_tab_removed closed svc1) !! closed = None.
Proof.
  intros Ht Hc. unfold createStream.
  set (streamId := of_Z tabId ++ js "-" ++ of_Z now).
  set (svc1 := mkService _ _ _ _).
  assert (Hin : streamId ∈ activeStreams svc1)
    by (by apply elem_of_union_l, elem_of_singleton).
  split; [done|]. split; [exact Hin|].
  unfold abortStream at 1 3. rewrite (bool_decide_eq_true_2 _ Hin).
  cbn [fst snd]. split; [done|]. split.
  - unfold abortStream. cbn [activeStreams].
    rewrite bool_decide_eq_false_2; [done|].
    intros Hx. apply elem_of_difference in Hx as [_ Hx].
    apply Hx. by apply elem_of_singleton.
  - split.
    + unfold on_tab_removed, abortTabStreams, clearConversation,
        set_conversations. cbn [activeStreams].
      rewrite elem_of_filter.
      pose proof (tab_prefix tabId closed now Ht Hc) as Hp.
      fold streamId in Hp. split.
      * intros [Hs _] ->. destruct Hp as [_ Hp]. rewrite Hp in Hs; done.
      * intros Hne. split; [|exact Hin].
        destruct (startsWith _ streamId) eqn:Hs; [|done].
        exfalso. apply Hne. by apply Hp.
    + unfold on_tab_removed, abortTabStreams, clearConversation,
        set_conversations. cbn [conversations].
      apply lookup_delete_eq.
Qed.

(** X26. The popup names its streams itself, with the time in
    milliseconds as a decimal number, and the listener registers them
    under that name. Such an id holds no hyphen, so abortTabStreams never
    matches it: closing a tab, whichever, leaves the stream registered. *)
Theorem X26_popup_streams_outlive_tabs now closed svc :
  0 <= now →
  popup_stream_id now ∈ activeStreams svc →
  popup_stream_id now ∈ activeStreams (on_tab_removed closed svc) ∧
  popup_stream_id now ∈ activeStreams (abortTabStreams closed svc).
Proof.
  intros Hnow Hin.
  assert (Hs : startsWith (of_Z closed ++ js "-") (popup_stream_id now) = false).
  { destruct (startsWith _ _) eqn:Hs; [|done].
    exfalso. apply (of_Z_no_hyphen now Hnow).
    apply (startsWith_elem _ _ hyphen Hs).
    apply elem_of_app. right. by apply list_elem_of_singleton. }
  unfold on_tab_removed, abortTabStreams, clearConversation, set_conversations.
  cbn [activeStreams]. rewrite !elem_of_filter. by repeat split.
Qed.

(** *** Reading an id back *)

Lemma digits_of_decimal fuel n acc :
  0 <= n → Forall is_decimal acc → Forall is_decimal (digits_of fuel n acc).
Proof.
  revert n acc. induction fuel as [|fuel IH]; intros n acc Hn Hacc; [done|].
  cbn [digits_of]. destruct (n <? 10) eqn:Hlt.
  - constructor; [|done]. unfold is_decimal, digit. lia.
  - apply IH; [apply Z.div_pos; lia|].
    constructor; [|done].
    unfold is_decimal, digit. pose proof (Z.mod_pos_bound n 10). lia.
Qed.

Lemma of_Z_decimal n : 0 <= n → Forall is_decimal (of_Z n).
Proof.
  intros Hn. unfold of_Z. destruct (n <? 0) eqn:Hneg; [lia|].
  by apply digits_of_decimal.
Qed.

Lemma of_Z_nonempty n : of_Z n ≠ [].
Proof.
  assert (Hd : ∀ fuel m acc, digits_of (S fuel) m acc ≠ []).
  { intros fuel m acc. cbn [digits_of]. destruct (m <? 10); [done|].
    rewrite digits_of_app. by destruct (digits_of fuel (m `div` 10) []). }
  unfold of_Z. destruct (n <? 0); [done|apply Hd].
Qed.

Lemma digit_value_decimal c :
  is_decimal c → digit_value 10 c = Some (Z.of_N c - 48).
Proof.
  intros [Hlo Hhi]. unfold digit_value.
  rewrite (proj2 (N.leb_le 48 c) Hlo), (proj2 (N.leb_le c 57) Hhi).
  cbn [andb]. rewrite (proj2 (Z.ltb_lt _ _)); [done|lia].
Qed.

Lemma parse_radix_decimal s acc :
  Forall is_decimal s →
  parse_radix 10 acc s
  = match s with
    | [] => acc
    | _ => Some (foldl (λ a c, 10 * a + (Z.of_N c - 48)) (default 0 acc) s)
    end.
Proof.
  intros Hs. revert acc. induction Hs as [|c s Hc Hs IH]; intros acc; [done|].
  cbn [parse_radix]. rewrite (digit_value_decimal c Hc), IH.
  by destruct s.
Qed.

Lemma decimal_cases c :
  is_decimal c →
  (c = 48 ∨ c = 49 ∨ c = 50 ∨ c = 51 ∨ c = 52 ∨ c = 53 ∨ c = 54 ∨ c = 55
   ∨ c = 56 ∨ c = 57)%N.
Proof. unfold is_decimal. lia. Qed.

Lemma parseInt_decimal s :
  s ≠ [] → Forall is_decimal s → parseInt s = Some (decimal_value s).
Proof.
  intros Hne Hs.
  assert (Hparse : (λ n, 1 * n) <$> parse_radix 10 None s
                   = Some (decimal_value s)).
  { rewrite (parse_radix_decimal s None Hs). destruct s as [|c s]; [done|].
    cbn [fmap option_fmap option_map default]. unfold decimal_value.
    f_equal. lia. }
  rewrite <- Hparse. clear Hparse.
  destruct Hs as [|c1 s Hc1 Hs]; [done|].
  destruct (decimal_cases c1 Hc1)
    as [->|[->|[->|[->|[->|[->|[->|[->|[->| ->]]]]]]]]]; try reflexivity.
  destruct Hs as [|c2 s Hc2 Hs]; [reflexivity|].
  destruct (decimal_cases c2 Hc2)
    as [->|[->|[->|[->|[->|[->|[->|[->|[->| ->]]]]]]]]]; reflexivity.
Qed.

Lemma parseInt_of_Z n : 0 <= n → parseInt (of_Z n) = Some n.
Proof.
  intros Hn.
  rewrite parseInt_decimal; [|apply of_Z_nonempty|by apply of_Z_decimal].
  by rewrite decimal_value_of_Z.
Qed.

Lemma split_on_sep sep a b :
  sep ∉ a → split_on sep (a ++ sep :: b) = a :: split_on sep b.
Proof.
  induction a as [|c a IH]; intros Ha.
  - cbn [app split_on]. by rewrite N.eqb_refl.
  - apply not_elem_of_cons in Ha as [Hc Ha].
    cbn [app split_on]. rewrite (proj2 (N.eqb_neq c sep)) by done.
    by rewrite IH.
Qed.

(** X27. getActiveStreams reads the tab and the start time back from the
    id of a stream. For an id made by createStream it reports the tab
    the stream was created for, the time of creation and the time that
    has passed since. For a stream registered under an id of the popup,
    which is a time in decimal digits, it reports that time as the tab,
    and NaN as start time and as duration. *)
Theorem X27_stream_status clock now tabId svc :
  0 <= tabId → 0 <= now →
  getActiveStreams_entry clock (snd (createStream now tabId svc))
  = mkStreamStatus (of_Z tabId ++ js "-" ++ of_Z now)
                   (Some tabId) (Some now) (Some (clock - now)) ∧
  getActiveStreams_entry clock (popup_stream_id now)
  = mkStreamStatus (of_Z now) (Some now) None None.
Proof.
  intros Ht Hnow. unfold getActiveStreams_entry, createStream, popup_stream_id.
  cbn [snd]. split.
  - change (js "-" ++ of_Z now) with (hyphen :: of_Z now).
    change 45%N with hyphen.
    rewrite split_on_sep by (by apply of_Z_no_hyphen).
    rewrite split_on_no_sep by (by apply of_Z_no_hyphen).
    cbn [lookup list_lookup default from_option id].
    by rewrite !parseInt_of_Z.
  - change 45%N with hyphen.
    rewrite split_on_no_sep by (by apply of_Z_no_hyphen).
    cbn [lookup list_lookup default from_option id].
    by rewrite parseInt_of_Z.
Qed.

End Registry.

(** ** Runs of the further properties *)

Section MoreRuns.

Import V8 Scenario Cases.

(** A limiter that is not initialised, over an empty store. *)
Lemma X2_initialize_witness :
  initialized (rl (initialize day1 true fresh)) = true ∧
  ∀ now' ok', initialize now' ok' (initialize day1 true fresh)
              = initialize day1 true fresh.
Proof.
  destruct (X2_initialize (H := platform) day1 true fresh eq_refl)
    as (Hi & _ & _ & _ & Hagain).
  split; [exact Hi|exact Hagain].
Defined.

(** One request per minute, one recording on day1: checks a minute and a
    day later are denied, with a negative retryAfter. *)
Lemma X5_rate_denial_sticky_witness :
  ∃ reason retry,
    check_result
      (fst (checkRequest day2 true small_request
              (after_checks [(day1 + 60000, true, small_request)] after_one)))
    = Some (Denied reason rate (Some retry)) ∧
    ∀ t ts, mn_requests (minutely (ledger after_one)) = t :: ts →
            retry = Seconds (60 - (day2 - list_min t ts) / 1000) ∧
            (list_min t ts + 60000 <= day2 →
             60 - (day2 - list_min t ts) / 1000 <= 0).
Proof.
  apply (X5_rate_denial_sticky (H := platform) after_one (ledger after_one) 1).
  - vm_compute. reflexivity.
  - vm_compute. reflexivity.
  - vm_compute. reflexivity.
  - vm_compute. discriminate.
Defined.

(** The ledger after one recording. *)
Lemma X6_breakdown_sums_witness :
  breakdown_agrees (daily used_95) ∧ breakdown_agrees (monthly used_95) ∧
  breakdown_agrees (lifetime used_95).
Proof.
  apply (X6_breakdown_sums (H := platform)), reach_recordUsage, reach_empty.
Defined.

Lemma X7_lifetime_bounds_witness : requests_bounded used_95.
Proof.
  apply (X7_lifetime_bounds (H := platform)), reach_recordUsage, reach_empty.
Defined.

(** A request estimated at 7 tokens that used 5. *)
Lemma X8_recording_within_estimate_witness :
  let u' :=
    fst (recordUsage_body day2 (models (rl ready))
           (mkUsageInfo (js "gpt-4") 2 3) (createEmptyUsage day1)) in
  within (lim_daily (limits (rl ready))) (daily u') ∧
  within (lim_monthly (limits (rl ready))) (monthly u').
Proof.
  apply (X8_recording_within_estimate (H := platform) day1 day2 (rl ready)
           (createEmptyUsage day1) small_request
           (mkUsageInfo (js "gpt-4") 2 3)).
  - vm_compute. reflexivity.
  - vm_compute. discriminate.
  - vm_compute. discriminate.
Defined.

(** Two words of five letters. *)
Lemma X9_countTokens_formula_witness :
  countTokens (js "hello world") = 3 ∧
  1 <= countTokens (js "hello world") <= len (js "hello world") + 1.
Proof.
  destruct (X9_countTokens_formula) as [_ Hformula].
  destruct (Hformula (js "hello world") ltac:(vm_compute; discriminate))
    as [Heq Hbounds].
  split; [|exact Hbounds].
  rewrite Heq. vm_compute. reflexivity.
Defined.

(** A manual reset of the daily scope a day later. *)
Lemma X10_resetUsage_witness :
  let '(pc, w1) := resetUsage day2 true P_daily after_day1 in
  pc = RS_Done true ∧
  (sc_key ∘ daily <$> usage (rl w1)) = Some (js "2024-01-02") ∧
  storage w1 = usage (rl w1).
Proof.
  pose proof (X10_resetUsage (H := platform) day2 true P_daily after_day1
                (ledger after_day1) ltac:(vm_compute; reflexivity)
                ltac:(vm_compute; reflexivity)) as Hr.
  destruct (resetUsage day2 true P_daily after_day1) as [pc w1].
  destruct Hr as (Hpc & Hu & Hs).
  split; [exact Hpc|]. split; [|exact Hs].
  rewrite Hu. vm_compute. reflexivity.
Defined.

(** A new limiter over an empty store. *)
Lemma X12_export_import_witness :
  let '(data, w1) := exportData day1 true fresh in
  let '(res, w2) := importData true true (Some data) w1 in
  rl w2 = rl w1 ∧ console w2 = console w1 ∧
  storage w2 = usage (rl w1) ∧ res = Imported.
Proof.
  exact (X12_export_import (H := platform) day1 true true true fresh
           (or_introl eq_refl)).
Defined.

(** The ledger of day1 imported into a new limiter, which is first used
    on day2. *)
Lemma X13_import_before_first_use_witness :
  let data := fst (exportData day1 true after_day1) in
  usage (rl (initialize day2 true (snd (importData true true (Some data) fresh))))
  = Some (fst (checkAndResetPeriods_body day2 (ledger after_day1))) ∧
  usage (rl (initialize day2 true
               (snd (importData false true (Some data) fresh))))
  = usage (rl (initialize day2 true fresh)).
Proof.
  apply (X13_import_before_first_use (H := platform) day2 true true
           (fst (exportData day1 true after_day1)) (ledger after_day1) fresh).
  - reflexivity.
  - vm_compute. reflexivity.
Defined.

(** 95 tokens of 100000, one request of 1000. *)
Lemma X14_percentages_bounded_witness :
  let p := percentages (lim_daily default_limits) (daily used_95) in
  let bounded o := ∀ x, o = Some x → (0 <= x)%Qc ∧ (x <= Z2Qc 100)%Qc in
  bounded (pct_tokens p) ∧ bounded (pct_requests p) ∧ bounded (pct_cost p).
Proof.
  destruct (X14_percentages_bounded (lim_daily default_limits)
              (daily used_95)
              ltac:(vm_compute; discriminate) ltac:(vm_compute; discriminate)
              ltac:(vm_compute; discriminate)
              ltac:(split; [|split];
                    [intros n [= <-]; vm_compute; discriminate
                    |intros n [= <-]; vm_compute; discriminate
                    |intros q Hq; vm_compute in Hq; injection Hq as <-;
                     vm_compute; discriminate]))
    as (Ht & Hr & Hc & _).
  cbn zeta. split; [exact Ht|]. split; [exact Hr|exact Hc].
Defined.

(** Two requests of 7 tokens checked one after the other. *)
Lemma X15_admission_reserves_nothing_witness :
  check_result
    (fst (checkRequest (day1 + 2) true small_request
            (after_checks [(day1 + 1, true, small_request)] ready)))
  = check_result (fst (checkRequest (day1 + 2) true small_request ready)).
Proof.
  exact (X15_admission_reserves_nothing (H := platform) (day1 + 2) true
           small_request [(day1 + 1, true, small_request)] ready eq_refl).
Defined.

(** One question, one answer. *)
Lemma X17_generateResponse_success_witness :
  let result :=
    generateResponse day1 (day1 + 500) true storage_error service 7 (js "Hi")
                     None answered in
  getConversationSummary 7 (fst result)
  = Some (mkSummary 2 day1 (Some (mkMessage (js "assistant") (js "Hello")))) ∧
  storage (rateLimiter (fst result)) = usage (rl (rateLimiter (fst result))).
Proof.
  destruct (X17_generateResponse_success (H := platform) day1 (day1 + 500) true
              storage_error service 7 (js "Hi") None answered (js "Hello") 2
              hello_usage ltac:(vm_compute; reflexivity))
    as (_ & _ & _ & Hsummary & u & _ & _ & Hstored).
  split; [exact Hsummary|exact Hstored].
Defined.

(** A response that is not ok, on a tab with a conversation. *)
Lemma X18_failed_call_not_counted_witness :
  let result :=
    generateResponse day1 (day1 + 500) true storage_error chatting 7
                     (js "More") None overloaded in
  rl (rateLimiter (fst result)) = rl ready ∧
  (length ∘ messages <$> conversations (fst result) !! 7) = Some 3%nat.
Proof.
  destruct (X18_failed_call_not_counted (H := platform) day1 (day1 + 500) true
              storage_error chatting 7 (js "More") None overloaded
              (new_Error (js "The server is overloaded."))
              ltac:(vm_compute; discriminate) eq_refl)
    as (Hrl & _ & Hconv & _).
  split.
  - rewrite Hrl. reflexivity.
  - rewrite Hconv. vm_compute. reflexivity.
Defined.

(** An answer whose save is rejected. *)
Lemma X19_failure_after_answer_witness :
  let result :=
    generateResponse day1 (day1 + 500) false storage_error service 7 (js "Hi")
                     None answered in
  snd result = ReplyFailed (js "QUOTA_BYTES quota exceeded") ∧
  storage (rateLimiter (fst result)) = storage ready.
Proof.
  destruct (X19_failure_after_answer (H := platform) day1 (day1 + 500) false
              storage_error service 7 (js "Hi") None (createEmptyUsage day1)
              (js "Hello") ltac:(vm_compute; discriminate)
              ltac:(vm_compute; reflexivity) ltac:(vm_compute; reflexivity))
    as [_ Hsave].
  destruct (Hsave hello_usage eq_refl) as (Hreply & _ & _ & Hstore).
  split; [exact Hreply|exact Hstore].
Defined.

(** A conversation started on day1 and used a day later. *)
Lemma X20_conversation_age_witness :
  conversations
    (cleanup_conversations (day2 + 600000)
       (fst (generateResponse day2 (day2 + 500) true storage_error chatting 7
               (js "More") None answered))) !! 7 = None.
Proof.
  destruct (X20_conversation_age (H := platform) day2 (day2 + 500) true
              storage_error chatting 7 (js "More") None answered all_callbacks
              complete_stream
              (mkConversation
                 [mkMessage (js "user") (js "Hi");
                  mkMessage (js "assistant") (js "Hello")] None day1)
              (day2 + 600000) ltac:(vm_compute; reflexivity)
              ltac:(vm_compute; reflexivity))
    as (_ & _ & Hclean & _).
  exact Hclean.
Defined.

(** A request on a limiter whose per-minute window is full. *)
Lemma X21_denial_makes_no_call_witness :
  snd (generateResponseStream day1 (day1 + 500) true throttled 7 (js "Hi")
         None all_callbacks complete_stream)
  = snd (generateResponseStream day1 (day1 + 500) true throttled 7 (js "Hi")
           None all_callbacks unauthorized).
Proof.
  pose proof (X21_denial_makes_no_call (H := platform) day1 (day1 + 500) true
                storage_error throttled 7 (js "Hi") None all_callbacks) as Hd.
  cbn zeta in Hd.
  let decision :=
    eval vm_compute in
      (check_result
         (fst (checkRequest day1 true
                 (stream_request
                    (messages
                       (prepare_conversation day1 throttled 7 (js "Hi") None)))
                 (rateLimiter throttled)))) in
  match decision with
  | Some (Denied ?reason ?limitType ?retryAfter) =>
      pose proof (λ net,
                  proj1 (Hd net answered reason limitType retryAfter
                            ltac:(vm_compute; discriminate)
                            ltac:(vm_compute; reflexivity))) as Hnet
  end.
  by rewrite (Hnet complete_stream), (Hnet unauthorized).
Defined.

(** The complete stream of two chunks, with the save rejected. *)
Lemma X22_unsaved_completion_witness :
  let result :=
    on_generateResponseStream day1 (day1 + 500) false service 7
      (Some (popup_stream_id day1)) (js "Hi") None complete_stream in
  Forall (λ m, is_settlement m = false) (snd result) ∧
  popup_stream_id day1 ∈ activeStreams (fst result).
Proof.
  pose proof (X22_unsaved_completion (H := platform) day1 (day1 + 500) service
                7 (popup_stream_id day1) (js "Hi") None complete_stream
                (createEmptyUsage day1)) as Hc.
  cbn zeta in Hc.
  let run :=
    eval vm_compute in
      (outcome
         (callOpenAIStream
            (messages (prepare_conversation day1 service 7 (js "Hi") None))
            (mkStreamOptions true true true true) complete_stream)) in
  match run with
  | Returned ?answer ?tu => specialize (Hc answer tu)
  end.
  specialize (Hc ltac:(vm_compute; discriminate) ltac:(vm_compute; discriminate)
                 ltac:(reflexivity) ltac:(reflexivity)
                 ltac:(vm_compute; reflexivity) ltac:(vm_compute; reflexivity)).
  destruct Hc as (Hquiet & _ & Hactive & _).
  split; [exact Hquiet|exact Hactive].
Defined.

(** A second read of forty seconds. *)
Lemma X23_read_timer_witness :
  let run :=
    callOpenAIStream user_says_hi all_callbacks
      (FetchResponse 200 None slow_second_read) in
  outcome run = Threw (new_Error (js "Read timeout")) ∧
  events run
  = [ OnChunk (js "Hel") (js "Hel");
      OnError (new_Error (js "Request timed out. Please try again.")) ].
Proof.
  destruct (X23_read_timer (H := platform) user_says_hi all_callbacks 200 None
              [mkRead 0 (Some 120) (ReadValue frame_Hel)]
              (mkRead 0 (Some 40000) (ReadValue frame_lo)) []
              ltac:(reflexivity) ltac:(reflexivity)
              ltac:(constructor; [|constructor]; split;
                    [split; [vm_compute; discriminate|];
                     exists 120; split; [reflexivity|vm_compute; discriminate]
                    |by eexists])
              ltac:(split; [vm_compute; discriminate|vm_compute; reflexivity]))
    as (Hout & Hev & _).
  split; [exact Hout|].
  etransitivity; [exact Hev|]. vm_compute. reflexivity.
Defined.

Lemma X24_no_key_witness :
  snd (on_generateResponseStream day1 (day1 + 500) true keyless 7 None
         (js "Hi") None complete_stream)
  = [Response (GenFailed (js "OpenAI API key not configured"))].
Proof.
  destruct (X24_no_key (H := platform) day1 (day1 + 500) true storage_error
              keyless 7 None (js "Hi") None complete_stream answered eq_refl)
    as (_ & Hsent & _).
  exact Hsent.
Defined.

(** A stream of tab 7; tab 8 is closed, then tab 7. *)
Lemma X25_tab_streams_witness :
  let '(svc1, streamId) := createStream day1 7 service in
  streamId ∈ activeStreams (on_tab_removed 8 svc1) ∧
  streamId ∉ activeStreams (on_tab_removed 7 svc1).
Proof.
  pose proof (X25_tab_streams day1 7 8 service
                ltac:(lia) ltac:(lia)) as H8.
  pose proof (X25_tab_streams day1 7 7 service
                ltac:(lia) ltac:(lia)) as H7.
  destruct (createStream day1 7 service) as [svc1 streamId].
  destruct H8 as (_ & _ & _ & _ & H8 & _).
  destruct H7 as (_ & _ & _ & _ & H7 & _).
  split.
  - apply H8. lia.
  - intros Hin. by apply H7 in Hin.
Defined.

Lemma X26_popup_streams_outlive_tabs_witness :
  popup_stream_id day1 ∈ activeStreams (on_tab_removed 7 streaming).
Proof.
  apply (X26_popup_streams_outlive_tabs day1 7 streaming).
  - vm_compute. discriminate.
  - unfold streaming. cbn [activeStreams]. by apply elem_of_singleton.
Defined.

(** A stream of tab 7 made on day1, looked at half a second later. *)
Lemma X27_stream_status_witness :
  getActiveStreams_entry (day1 + 500) (snd (createStream day1 7 service))
  = mkStreamStatus (js "7-1704067200000") (Some 7) (Some day1) (Some 500) ∧
  getActiveStreams_entry (day1 + 500) (popup_stream_id day1)
  = mkStreamStatus (js "1704067200000") (Some day1) None None.
Proof.
  destruct (X27_stream_status (day1 + 500) day1 7 service
              ltac:(lia) ltac:(vm_compute; discriminate)) as [Hmade Hpopup].
  split.
  - rewrite Hmade. vm_compute. reflexivity.
  - rewrite Hpopup. vm_compute. reflexivity.
Defined.

End MoreRuns.
